(** * CivicVoice: the in-memory store and its request handlers

    A shallow embedding of [server/storage.ts] (class [MemStorage]),
    of the handlers of [server/routes.ts] that reach the store, and of
    [sendEmail] from [server/email.ts], followed by the properties the
    specification states about them.

    Conventions of the embedding:
    - a JavaScript [Map<number, V>] is an association list in insertion
      order ([JsMap]): [Array.from(m.values())] enumerates in that order
      and [set] on a present key keeps the key's position;
    - numbers that the program only ever uses as integers (identifiers,
      counters, timestamps in milliseconds) are [Z]; the one place where
      the program divides, [getCommunityStats], is computed on IEEE 754
      binary64 values ([SpecFloat], precision 53, emax 1024);
    - the string-literal unions of [shared/schema.ts] are inductive types,
      with the literal each constructor stands for given by a [_name]
      function; nullable columns are [option];
    - [new Date()] is the argument [now] of the operation that calls it;
    - a method of [MemStorage] is a function in the state monad [M] over
      [Store]; the [async]/[await] of the source is sequencing. *)

From Stdlib Require Import ZArith List String Ascii Bool Lia.
From Stdlib Require Import Permutation Sorted.
From Stdlib Require Import Floats.SpecFloat.
Import ListNotations.

Open Scope string_scope.
Open Scope list_scope.
Open Scope Z_scope.

(** ** JavaScript [Map] with integer keys *)

Module JsMap.
Section WithValues.
Context {V : Type}.

Definition t := list (Z * V).

Definition empty : t := [].

Fixpoint get (k : Z) (m : t) : option V :=
  match m with
  | [] => None
  | (k', v) :: rest => if k' =? k then Some v else get k rest
  end.

Fixpoint set (k : Z) (v : V) (m : t) : t :=
  match m with
  | [] => [(k, v)]
  | (k', v') :: rest =>
      if k' =? k then (k, v) :: rest else (k', v') :: set k v rest
  end.

Definition values (m : t) : list V := map snd m.

(** Every key of [m] is below [n]: what the [this.xId++] counters
    maintain for their collection. *)
Definition keys_below (n : Z) (m : t) : bool :=
  forallb (fun kv => fst kv <? n) m.

End WithValues.
Arguments t : clear implicits.
End JsMap.

(** ** The schema ([shared/schema.ts]) *)

Inductive IssueType := crosswalk | pothole | sidewalk | streetlight | other.

Inductive UrgencyLevel := low | medium | high.

Inductive ProgressStatus :=
| idea_submitted
| community_support
| email_campaign_active
| official_acknowledgment
| planning_stage
| implementation
| completed.

Definition issueType_name (t : IssueType) : string :=
  match t with
  | crosswalk => "crosswalk"
  | pothole => "pothole"
  | sidewalk => "sidewalk"
  | streetlight => "streetlight"
  | other => "other"
  end.

Definition progressStatus_name (st : ProgressStatus) : string :=
  match st with
  | idea_submitted => "idea_submitted"
  | community_support => "community_support"
  | email_campaign_active => "email_campaign_active"
  | official_acknowledgment => "official_acknowledgment"
  | planning_stage => "planning_stage"
  | implementation => "implementation"
  | completed => "completed"
  end.

Definition progressStatus_eqb (a b : ProgressStatus) : bool :=
  match a, b with
  | idea_submitted, idea_submitted
  | community_support, community_support
  | email_campaign_active, email_campaign_active
  | official_acknowledgment, official_acknowledgment
  | planning_stage, planning_stage
  | implementation, implementation
  | completed, completed => true
  | _, _ => false
  end.

(** Position in [progressStatusEnum], the promotion order. *)
Definition progressStatus_rank (st : ProgressStatus) : nat :=
  match st with
  | idea_submitted => 0
  | community_support => 1
  | email_campaign_active => 2
  | official_acknowledgment => 3
  | planning_stage => 4
  | implementation => 5
  | completed => 6
  end.

Module User.
Record t := mk {
  id : Z;
  username : string;
  password : string;
  email : string
}.
End User.

Module InsertUser.
Record t := mk {
  username : string;
  password : string;
  email : string
}.
End InsertUser.

Module Project.
Record t := mk {
  id : Z;
  title : string;
  description : string;
  issueType : IssueType;
  location : string;
  latitude : string;
  longitude : string;
  (* the insert schema makes a defaulted column optional and the store
     copies it as it is, so an absent level stays absent *)
  urgencyLevel : option UrgencyLevel;
  contactEmail : option string;
  emailTemplate : string;
  emailSubject : string;
  emailRecipient : string;
  upvotes : Z;
  emailsSent : Z;
  progressStatus : ProgressStatus;
  createdAt : Z;
  createdBy : option Z
}.
End Project.

Module InsertProject.
Record t := mk {
  title : string;
  description : string;
  issueType : IssueType;
  location : string;
  latitude : string;
  longitude : string;
  urgencyLevel : option UrgencyLevel;
  contactEmail : option string;
  emailTemplate : string;
  emailSubject : string;
  emailRecipient : string;
  createdBy : option Z
}.
End InsertProject.

(** [Partial<Project>]: each property present or not. *)
Module PartialProject.
Record t := mk {
  id : option Z;
  title : option string;
  description : option string;
  issueType : option IssueType;
  location : option string;
  latitude : option string;
  longitude : option string;
  urgencyLevel : option (option UrgencyLevel);
  contactEmail : option (option string);
  emailTemplate : option string;
  emailSubject : option string;
  emailRecipient : option string;
  upvotes : option Z;
  emailsSent : option Z;
  progressStatus : option ProgressStatus;
  createdAt : option Z;
  createdBy : option (option Z)
}.

Definition none : t :=
    mk None None None None None None None None None None None None None None
       None None None.
End PartialProject.

Module Upvote.
Record t := mk {
  id : Z;
  projectId : Z;
  userId : option Z;
  ipAddress : string;
  createdAt : Z
}.
End Upvote.

Module InsertUpvote.
Record t := mk {
  projectId : Z;
  userId : option Z;
  ipAddress : string
}.
End InsertUpvote.

Module Email.
Record t := mk {
  id : Z;
  projectId : Z;
  senderEmail : option string;
  senderName : option string;
  customContent : option string;
  sentAt : Z
}.
End Email.

Module InsertEmail.
Record t := mk {
  projectId : Z;
  senderEmail : option string;
  senderName : option string;
  customContent : option string
}.
End InsertEmail.

Module Activity.
Record t := mk {
  id : Z;
  projectId : Z;
  activityType : string;
  actorName : option string;
  description : string;
  createdAt : Z
}.
End Activity.

Module InsertActivity.
Record t := mk {
  projectId : Z;
  activityType : string;
  actorName : option string;
  description : string
}.
End InsertActivity.

Module Comment.
Record t := mk {
  id : Z;
  projectId : Z;
  text : string;
  commenterName : string;
  createdAt : Z
}.
End Comment.

Module InsertComment.
Record t := mk {
  projectId : Z;
  text : string;
  commenterName : string
}.
End InsertComment.

(** ** JavaScript's [||] on nullable values

    [x || null] and [x || 'fallback']: an absent value and a falsy one
    (the empty string, the number 0) both give way to the right operand. *)

Definition string_or_null (x : option string) : option string :=
  match x with
  | Some "" => None
  | _ => x
  end.

Definition number_or_null (x : option Z) : option Z :=
  match x with
  | Some 0 => None
  | _ => x
  end.

Definition string_or (x : option string) (fallback : string) : string :=
  match string_or_null x with
  | Some s => s
  | None => fallback
  end.

(** ** The store: the private fields of [MemStorage] *)

Record Store := mkStore {
  users : JsMap.t User.t;
  projects : JsMap.t Project.t;
  upvotes : JsMap.t Upvote.t;
  emails : JsMap.t Email.t;
  activities : JsMap.t Activity.t;
  comments : JsMap.t Comment.t;
  userId : Z;
  projectId : Z;
  upvoteId : Z;
  emailId : Z;
  activityId : Z;
  commentId : Z
}.

(** The fields before [addSampleData] runs. *)
Definition emptyStore : Store :=
  mkStore JsMap.empty JsMap.empty JsMap.empty JsMap.empty JsMap.empty
          JsMap.empty 1 1 1 1 1 1.

(** ** The state monad of the store's methods *)

Definition M (A : Type) : Type := Store -> A * Store.

Definition ret {A} (a : A) : M A := fun s => (a, s).

Definition bind {A B} (c : M A) (k : A -> M B) : M B :=
  fun s => k (fst (c s)) (snd (c s)).

Definition gets {A} (f : Store -> A) : M A := fun s => (f s, s).

Definition modify (f : Store -> Store) : M unit := fun s => (tt, f s).

Declare Scope store_scope.
Delimit Scope store_scope with store.
Notation "x <- c ;; k" := (bind c (fun x => k))
  (at level 61, c at next level, right associativity) : store_scope.
Notation "c ;;; k" := (bind c (fun _ => k))
  (at level 61, right associativity) : store_scope.
Open Scope store_scope.

(** The result and the final store of running a method. *)
Definition result {A} (c : M A) (s : Store) : A := fst (c s).
Definition after {A} (c : M A) (s : Store) : Store := snd (c s).

(** Field updates of [Store] (assignments to [this.x]). *)

Definition set_users (m : JsMap.t User.t) (s : Store) : Store :=
  mkStore m (projects s) (upvotes s) (emails s) (activities s) (comments s)
          (userId s) (projectId s) (upvoteId s) (emailId s) (activityId s)
          (commentId s).

Definition set_projects (m : JsMap.t Project.t) (s : Store) : Store :=
  mkStore (users s) m (upvotes s) (emails s) (activities s) (comments s)
          (userId s) (projectId s) (upvoteId s) (emailId s) (activityId s)
          (commentId s).

Definition set_upvotes (m : JsMap.t Upvote.t) (s : Store) : Store :=
  mkStore (users s) (projects s) m (emails s) (activities s) (comments s)
          (userId s) (projectId s) (upvoteId s) (emailId s) (activityId s)
          (commentId s).

Definition set_emails (m : JsMap.t Email.t) (s : Store) : Store :=
  mkStore (users s) (projects s) (upvotes s) m (activities s) (comments s)
          (userId s) (projectId s) (upvoteId s) (emailId s) (activityId s)
          (commentId s).

Definition set_activities (m : JsMap.t Activity.t) (s : Store) : Store :=
  mkStore (users s) (projects s) (upvotes s) (emails s) m (comments s)
          (userId s) (projectId s) (upvoteId s) (emailId s) (activityId s)
          (commentId s).

Definition set_comments (m : JsMap.t Comment.t) (s : Store) : Store :=
  mkStore (users s) (projects s) (upvotes s) (emails s) (activities s) m
          (userId s) (projectId s) (upvoteId s) (emailId s) (activityId s)
          (commentId s).

(** The post-increments [this.xId++]: the old value is the result. *)

Definition nextUserId : M Z := fun s =>
  (userId s,
   mkStore (users s) (projects s) (upvotes s) (emails s) (activities s)
           (comments s) (userId s + 1) (projectId s) (upvoteId s) (emailId s)
           (activityId s) (commentId s)).

Definition nextProjectId : M Z := fun s =>
  (projectId s,
   mkStore (users s) (projects s) (upvotes s) (emails s) (activities s)
           (comments s) (userId s) (projectId s + 1) (upvoteId s) (emailId s)
           (activityId s) (commentId s)).

Definition nextUpvoteId : M Z := fun s =>
  (upvoteId s,
   mkStore (users s) (projects s) (upvotes s) (emails s) (activities s)
           (comments s) (userId s) (projectId s) (upvoteId s + 1) (emailId s)
           (activityId s) (commentId s)).

Definition nextEmailId : M Z := fun s =>
  (emailId s,
   mkStore (users s) (projects s) (upvotes s) (emails s) (activities s)
           (comments s) (userId s) (projectId s) (upvoteId s) (emailId s + 1)
           (activityId s) (commentId s)).

Definition nextActivityId : M Z := fun s =>
  (activityId s,
   mkStore (users s) (projects s) (upvotes s) (emails s) (activities s)
           (comments s) (userId s) (projectId s) (upvoteId s) (emailId s)
           (activityId s + 1) (commentId s)).

Definition nextCommentId : M Z := fun s =>
  (commentId s,
   mkStore (users s) (projects s) (upvotes s) (emails s) (activities s)
           (comments s) (userId s) (projectId s) (upvoteId s) (emailId s)
           (activityId s) (commentId s + 1)).

(** ** [MemStorage]: the methods *)

(** [determineProgressStatus(upvotes, emailsSent, currentStatus)].  The
    parameter is typed [string] in the source; both call sites pass
    [project.progressStatus]. *)
Definition determineProgressStatus
    (upvotes emailsSent : Z) (currentStatus : ProgressStatus) : ProgressStatus :=
  match currentStatus with
  | official_acknowledgment | planning_stage | implementation | completed =>
      currentStatus
  | _ =>
      if emailsSent >=? 50 then email_campaign_active
      else if upvotes >=? 25 then community_support
      else idea_submitted
  end.

Definition createUser (insertUser : InsertUser.t) : M User.t :=
  id <- nextUserId ;;
  let user :=
    {| User.id := id;
       User.username := InsertUser.username insertUser;
       User.password := InsertUser.password insertUser;
       User.email := InsertUser.email insertUser |} in
  modify (fun s => set_users (JsMap.set id user (users s)) s) ;;;
  ret user.

Definition createActivity (now : Z) (insertActivity : InsertActivity.t)
  : M Activity.t :=
  id <- nextActivityId ;;
  let activity :=
    {| Activity.id := id;
       Activity.projectId := InsertActivity.projectId insertActivity;
       Activity.activityType := InsertActivity.activityType insertActivity;
       Activity.actorName :=
         string_or_null (InsertActivity.actorName insertActivity);
       Activity.description := InsertActivity.description insertActivity;
       Activity.createdAt := now |} in
  modify (fun s => set_activities (JsMap.set id activity (activities s)) s) ;;;
  ret activity.

Definition getProjectById (id : Z) : M (option Project.t) :=
  gets (fun s => JsMap.get id (projects s)).

Definition createProject (now : Z) (insertProject : InsertProject.t)
  : M Project.t :=
  id <- nextProjectId ;;
  let project :=
    {| Project.id := id;
       Project.title := InsertProject.title insertProject;
       Project.description := InsertProject.description insertProject;
       Project.issueType := InsertProject.issueType insertProject;
       Project.location := InsertProject.location insertProject;
       Project.latitude := InsertProject.latitude insertProject;
       Project.longitude := InsertProject.longitude insertProject;
       Project.urgencyLevel := InsertProject.urgencyLevel insertProject;
       Project.contactEmail := InsertProject.contactEmail insertProject;
       Project.emailTemplate := InsertProject.emailTemplate insertProject;
       Project.emailSubject := InsertProject.emailSubject insertProject;
       Project.emailRecipient := InsertProject.emailRecipient insertProject;
       Project.upvotes := 0;
       Project.emailsSent := 0;
       Project.progressStatus := idea_submitted;
       Project.createdAt := now;
       Project.createdBy :=
         number_or_null (InsertProject.createdBy insertProject) |} in
  modify (fun s => set_projects (JsMap.set id project (projects s)) s) ;;;
  _ <- createActivity now
         {| InsertActivity.projectId := id;
            InsertActivity.activityType := "project_created";
            InsertActivity.actorName := Some "Anonymous User";
            InsertActivity.description :=
              ("New issue submitted: " ++ Project.title project)%string |} ;;
  ret project.

(** [{ ...project, ...updates }]: a property present in [updates] wins.
    [None] is a property that [updates] does not have; a property that
    is present holds a value of its type (a property present with the
    value [undefined] is outside the model). *)
Definition spread {A} (base : A) (override : option A) : A :=
  match override with
  | Some v => v
  | None => base
  end.

Definition mergeProject (project : Project.t) (updates : PartialProject.t)
  : Project.t :=
  {| Project.id := spread (Project.id project) (PartialProject.id updates);
     Project.title :=
       spread (Project.title project) (PartialProject.title updates);
     Project.description :=
       spread (Project.description project)
              (PartialProject.description updates);
     Project.issueType :=
       spread (Project.issueType project) (PartialProject.issueType updates);
     Project.location :=
       spread (Project.location project) (PartialProject.location updates);
     Project.latitude :=
       spread (Project.latitude project) (PartialProject.latitude updates);
     Project.longitude :=
       spread (Project.longitude project) (PartialProject.longitude updates);
     Project.urgencyLevel :=
       spread (Project.urgencyLevel project)
              (PartialProject.urgencyLevel updates);
     Project.contactEmail :=
       spread (Project.contactEmail project)
              (PartialProject.contactEmail updates);
     Project.emailTemplate :=
       spread (Project.emailTemplate project)
              (PartialProject.emailTemplate updates);
     Project.emailSubject :=
       spread (Project.emailSubject project)
              (PartialProject.emailSubject updates);
     Project.emailRecipient :=
       spread (Project.emailRecipient project)
              (PartialProject.emailRecipient updates);
     Project.upvotes :=
       spread (Project.upvotes project) (PartialProject.upvotes updates);
     Project.emailsSent :=
       spread (Project.emailsSent project)
              (PartialProject.emailsSent updates);
     Project.progressStatus :=
       spread (Project.progressStatus project)
              (PartialProject.progressStatus updates);
     Project.createdAt :=
       spread (Project.createdAt project) (PartialProject.createdAt updates);
     Project.createdBy :=
       spread (Project.createdBy project) (PartialProject.createdBy updates)
  |}.

(** [updates.progressStatus && updates.progressStatus !== project.progressStatus]:
    every literal of the enumeration is a non-empty string, hence truthy. *)
Definition statusUpdated (project : Project.t) (updates : PartialProject.t)
  : option ProgressStatus :=
  match PartialProject.progressStatus updates with
  | Some st =>
      if progressStatus_eqb st (Project.progressStatus project)
      then None else Some st
  | None => None
  end.

Definition updateProject (now : Z) (id : Z) (updates : PartialProject.t)
  : M (option Project.t) :=
  found <- gets (fun s => JsMap.get id (projects s)) ;;
  match found with
  | None => ret None
  | Some project =>
      let updatedProject := mergeProject project updates in
      modify (fun s =>
                set_projects (JsMap.set id updatedProject (projects s)) s) ;;;
      match statusUpdated project updates with
      | Some st =>
          _ <- createActivity now
                 {| InsertActivity.projectId := id;
                    InsertActivity.activityType := "status_change";
                    InsertActivity.actorName := Some "System";
                    InsertActivity.description :=
                      ("Project status updated to: "
                         ++ progressStatus_name st)%string |} ;;
          ret tt
      | None => ret tt
      end ;;;
      ret (Some updatedProject)
  end.

(** The object literals passed to [updateProject] by the two counters.
    The counters are JavaScript numbers; the model has them as integers
    and adds in [Z], which is what binary64 does as long as the counter
    is a safe integer ([isSafeInteger], below 2^53). *)
Definition upvotePatch (project : Project.t) : PartialProject.t :=
  {| PartialProject.id := None; PartialProject.title := None;
     PartialProject.description := None; PartialProject.issueType := None;
     PartialProject.location := None; PartialProject.latitude := None;
     PartialProject.longitude := None; PartialProject.urgencyLevel := None;
     PartialProject.contactEmail := None;
     PartialProject.emailTemplate := None;
     PartialProject.emailSubject := None;
     PartialProject.emailRecipient := None;
     PartialProject.upvotes := Some (Project.upvotes project + 1);
     PartialProject.emailsSent := None;
     PartialProject.progressStatus :=
       Some (determineProgressStatus (Project.upvotes project + 1)
               (Project.emailsSent project) (Project.progressStatus project));
     PartialProject.createdAt := None; PartialProject.createdBy := None |}.

Definition emailPatch (project : Project.t) : PartialProject.t :=
  {| PartialProject.id := None; PartialProject.title := None;
     PartialProject.description := None; PartialProject.issueType := None;
     PartialProject.location := None; PartialProject.latitude := None;
     PartialProject.longitude := None; PartialProject.urgencyLevel := None;
     PartialProject.contactEmail := None;
     PartialProject.emailTemplate := None;
     PartialProject.emailSubject := None;
     PartialProject.emailRecipient := None;
     PartialProject.upvotes := None;
     PartialProject.emailsSent := Some (Project.emailsSent project + 1);
     PartialProject.progressStatus :=
       Some (determineProgressStatus (Project.upvotes project)
               (Project.emailsSent project + 1)
               (Project.progressStatus project));
     PartialProject.createdAt := None; PartialProject.createdBy := None |}.

Definition createUpvote (now : Z) (insertUpvote : InsertUpvote.t)
  : M Upvote.t :=
  id <- nextUpvoteId ;;
  let upvote :=
    {| Upvote.id := id;
       Upvote.projectId := InsertUpvote.projectId insertUpvote;
       Upvote.userId := number_or_null (InsertUpvote.userId insertUpvote);
       Upvote.ipAddress := InsertUpvote.ipAddress insertUpvote;
       Upvote.createdAt := now |} in
  modify (fun s => set_upvotes (JsMap.set id upvote (upvotes s)) s) ;;;
  found <- gets (fun s => JsMap.get (Upvote.projectId upvote) (projects s)) ;;
  match found with
  | Some project =>
      _ <- updateProject now (Project.id project) (upvotePatch project) ;;
      _ <- createActivity now
             {| InsertActivity.projectId := Project.id project;
                InsertActivity.activityType := "upvote";
                InsertActivity.actorName := Some "Anonymous User";
                InsertActivity.description :=
                  ("Someone upvoted: " ++ Project.title project)%string |} ;;
      ret tt
  | None => ret tt
  end ;;;
  ret upvote.

Definition getUpvotesByProject (projectId : Z) : M (list Upvote.t) :=
  gets (fun s =>
          filter (fun upvote => Upvote.projectId upvote =? projectId)
                 (JsMap.values (upvotes s))).

Definition hasUserUpvoted (projectId : Z) (ipAddress : string) : M bool :=
  gets (fun s =>
          existsb (fun upvote =>
                     (Upvote.projectId upvote =? projectId)
                     && String.eqb (Upvote.ipAddress upvote) ipAddress)
                  (JsMap.values (upvotes s))).

Definition createEmail (now : Z) (insertEmail : InsertEmail.t) : M Email.t :=
  id <- nextEmailId ;;
  let email :=
    {| Email.id := id;
       Email.projectId := InsertEmail.projectId insertEmail;
       Email.senderEmail := string_or_null (InsertEmail.senderEmail insertEmail);
       Email.senderName := string_or_null (InsertEmail.senderName insertEmail);
       Email.customContent :=
         string_or_null (InsertEmail.customContent insertEmail);
       Email.sentAt := now |} in
  modify (fun s => set_emails (JsMap.set id email (emails s)) s) ;;;
  found <- gets (fun s => JsMap.get (Email.projectId email) (projects s)) ;;
  match found with
  | Some project =>
      _ <- updateProject now (Project.id project) (emailPatch project) ;;
      _ <- createActivity now
             {| InsertActivity.projectId := Project.id project;
                InsertActivity.activityType := "email_sent";
                InsertActivity.actorName :=
                  Some (string_or (Email.senderName email) "Anonymous User");
                InsertActivity.description :=
                  ("Email sent regarding: " ++ Project.title project)%string |} ;;
      ret tt
  | None => ret tt
  end ;;;
  ret email.

Definition createComment (now : Z) (insertComment : InsertComment.t)
  : M Comment.t :=
  id <- nextCommentId ;;
  let comment :=
    {| Comment.id := id;
       Comment.projectId := InsertComment.projectId insertComment;
       Comment.text := InsertComment.text insertComment;
       Comment.commenterName := InsertComment.commenterName insertComment;
       Comment.createdAt := now |} in
  modify (fun s => set_comments (JsMap.set id comment (comments s)) s) ;;;
  found <- gets (fun s => JsMap.get (Comment.projectId comment) (projects s)) ;;
  _ <- createActivity now
         {| InsertActivity.projectId := Comment.projectId comment;
            InsertActivity.activityType := "comment_added";
            InsertActivity.actorName := Some (Comment.commenterName comment);
            InsertActivity.description :=
              ("New comment on project: "
                 ++ string_or (option_map Project.title found)
                              "Unknown Project")%string |} ;;
  ret comment.


(** *** Lists and filters *)

(** [Array.prototype.sort(compareFn)].  The sort is stable (ECMAScript
    2019), so for a comparator that orders by a key the result is fixed:
    it is computed here by insertion, an element going before the first
    one it does not have to follow. *)
Section Sort.
Context {A : Type} (compareFn : A -> A -> Z).

Fixpoint insertSorted (x : A) (l : list A) : list A :=
  match l with
  | [] => [x]
  | y :: rest =>
      if compareFn x y <=? 0 then x :: l else y :: insertSorted x rest
  end.

Definition sort (l : list A) : list A := fold_right insertSorted [] l.
End Sort.

(** [(a, b) => b.upvotes - a.upvotes] *)
Definition byUpvotesDesc (a b : Project.t) : Z :=
  Project.upvotes b - Project.upvotes a.

(** [(a, b) => b.createdAt.getTime() - a.createdAt.getTime()] and its
    like on the other records. *)
Definition byNewest {A} (time : A -> Z) (a b : A) : Z := time b - time a.

(** [String.prototype.toLowerCase] on ASCII text, where it turns the
    capitals A-Z into a-z and keeps every other character.  Text outside
    ASCII, which JavaScript folds by the Unicode tables, is outside the
    model: the properties of the case-insensitive lookups are stated for
    ASCII text ([isAscii]). *)
Definition lowerAscii (c : ascii) : ascii :=
  let n := nat_of_ascii c in
  if ((65 <=? n) && (n <=? 90))%nat then ascii_of_nat (n + 32) else c.

Fixpoint toLowerCase (s : string) : string :=
  match s with
  | EmptyString => EmptyString
  | String c rest => String (lowerAscii c) (toLowerCase rest)
  end.

Fixpoint startsWith (s q : string) : bool :=
  match q, s with
  | EmptyString, _ => true
  | String c q', String d s' => Ascii.eqb c d && startsWith s' q'
  | String _ _, EmptyString => false
  end.

(** [String.prototype.includes] *)
Fixpoint includes (s q : string) : bool :=
  startsWith s q
  || match s with
     | EmptyString => false
     | String _ s' => includes s' q
     end.

Definition getAllProjects : M (list Project.t) :=
  gets (fun s => sort byUpvotesDesc (JsMap.values (projects s))).

Definition getProjectsByType (issueType : string) : M (list Project.t) :=
  gets (fun s =>
          sort byUpvotesDesc
            (filter (fun project =>
                       String.eqb (issueType_name (Project.issueType project))
                                  issueType)
                    (JsMap.values (projects s)))).

Definition getProjectsByStatus (progressStatus : string)
  : M (list Project.t) :=
  gets (fun s =>
          sort byUpvotesDesc
            (filter (fun project =>
                       String.eqb
                         (progressStatus_name (Project.progressStatus project))
                         progressStatus)
                    (JsMap.values (projects s)))).

Definition searchMatches (lowerQuery : string) (project : Project.t) : bool :=
  includes (toLowerCase (Project.title project)) lowerQuery
  || includes (toLowerCase (Project.description project)) lowerQuery
  || includes (toLowerCase (Project.location project)) lowerQuery.

Definition searchProjects (query : string) : M (list Project.t) :=
  let lowerQuery := toLowerCase query in
  gets (fun s =>
          sort byUpvotesDesc
            (filter (searchMatches lowerQuery) (JsMap.values (projects s)))).

Definition getEmailsByProject (projectId : Z) : M (list Email.t) :=
  gets (fun s =>
          sort (byNewest Email.sentAt)
            (filter (fun email => Email.projectId email =? projectId)
                    (JsMap.values (emails s)))).

(** [Array.prototype.slice(0, limit)]; [None] is a limit that [parseInt]
    could not read ([NaN] counts as 0), a negative limit counts from the
    end. *)
Definition slice0 {A} (limit : option Z) (l : list A) : list A :=
  match limit with
  | None => []
  | Some n =>
      if n <? 0 then firstn (Z.to_nat (Z.of_nat (List.length l) + n)) l
      else firstn (Z.to_nat n) l
  end.

Definition getRecentActivities (limit : option Z) : M (list Activity.t) :=
  gets (fun s =>
          slice0 limit
            (sort (byNewest Activity.createdAt) (JsMap.values (activities s)))).

Definition getActivitiesByProject (projectId : Z) : M (list Activity.t) :=
  gets (fun s =>
          sort (byNewest Activity.createdAt)
            (filter (fun activity => Activity.projectId activity =? projectId)
                    (JsMap.values (activities s)))).

Definition getCommentsByProject (projectId : Z) : M (list Comment.t) :=
  gets (fun s =>
          sort (byNewest Comment.createdAt)
            (filter (fun comment => Comment.projectId comment =? projectId)
                    (JsMap.values (comments s)))).

(** *** Statistics *)

(** JavaScript numbers where the program divides: binary64. *)
Definition number (z : Z) : spec_float := binary_normalize 53 1024 z 0 false.

Definition number_div : spec_float -> spec_float -> spec_float :=
  SFdiv 53 1024.

Definition number_mul : spec_float -> spec_float -> spec_float :=
  SFmul 53 1024.

Definition number_add : spec_float -> spec_float -> spec_float :=
  SFadd 53 1024.

(** [Number.MAX_SAFE_INTEGER] and [Number.isSafeInteger]: the integers
    that binary64 tells apart from their neighbours. *)
Definition MAX_SAFE_INTEGER : Z := 2 ^ 53 - 1.

Definition isSafeInteger (n : Z) : bool :=
  (- MAX_SAFE_INTEGER <=? n) && (n <=? MAX_SAFE_INTEGER).

(** [Math.round]: the integer nearest to [x], a half going up, which is
    the floor of [x + 1/2] taken exactly.  The result is read back as an
    integer; on the values without one (NaN, the infinities), which a
    quotient of two counts never is, the model says 0. *)
Definition Math_round (x : spec_float) : Z :=
  match x with
  | S754_finite sign m e =>
      let v := if sign then Z.neg m else Z.pos m in
      if 0 <=? e then v * 2 ^ e
      else (2 * v + 2 ^ (- e)) / 2 ^ (1 - e)
  | _ => 0
  end.

Module CommunityStats.
Record t := mk {
  activeIssues : Z;
  emailsSent : Z;
  issuesResolved : Z;
  successRate : Z
}.
End CommunityStats.

Definition isCompleted (p : Project.t) : bool :=
  progressStatus_eqb (Project.progressStatus p) completed.

Definition getCommunityStats : M CommunityStats.t :=
  gets (fun s =>
    let projects := JsMap.values (projects s) in
    let activeIssues :=
      Z.of_nat (List.length (filter (fun p => negb (isCompleted p)) projects)) in
    let issuesResolved := Z.of_nat (List.length (filter isCompleted projects)) in
    let totalIssues := Z.of_nat (List.length projects) in
    let totalEmails := Z.of_nat (List.length (JsMap.values (emails s))) in
    let successRate :=
      if totalIssues >? 0
      then Math_round
             (number_mul
                (number_div (number issuesResolved) (number totalIssues))
                (number 100))
      else 0 in
    {| CommunityStats.activeIssues := activeIssues;
       CommunityStats.emailsSent := totalEmails;
       CommunityStats.issuesResolved := issuesResolved;
       CommunityStats.successRate := successRate |}).

Definition getUser (id : Z) : M (option User.t) :=
  gets (fun s => JsMap.get id (users s)).

Definition getUserByUsername (username : string) : M (option User.t) :=
  gets (fun s =>
          find (fun user =>
                  String.eqb (toLowerCase (User.username user))
                             (toLowerCase username))
               (JsMap.values (users s))).

(** *** The constructor and its sample data *)

Definition sampleTemplate1 : string :=
  "Dear Transportation Department,

I am writing to request the installation of a crosswalk at the intersection of Lincoln Avenue and 5th Street. This intersection experiences high pedestrian traffic, particularly during rush hours, yet lacks a safe crossing option for pedestrians.

As a regular commuter through this area, I have witnessed several near-miss incidents between vehicles and pedestrians attempting to cross this busy intersection. The lack of a designated crosswalk creates a medium-urgency safety concern for our community members, especially children and elderly individuals who frequently use this route.

The installation of a crosswalk at this location would significantly improve pedestrian safety and traffic flow. Many residents in the surrounding neighborhoods would benefit from this infrastructure improvement, as it connects residential areas to local businesses and public transportation stops.

I would appreciate your department's consideration of this request. Please feel free to contact me at the information provided below if you require any additional details or community input regarding this matter.

Thank you for your attention to this important safety concern.

Sincerely,
[Your Name]
[Optional Contact Information]".

Definition sampleTemplate2 : string :=
  "Dear Public Works Department,

I am writing to bring to your attention a sidewalk in serious disrepair on Oak Street between 10th and 11th Avenue. The sidewalk has multiple large cracks and uneven surfaces that create significant accessibility challenges.

This damaged sidewalk poses a particular hardship for individuals using wheelchairs, walkers, or strollers. I have personally observed wheelchair users having to navigate into the street to bypass the damaged section, creating unnecessary safety risks.

Repairing this sidewalk would greatly improve accessibility in our neighborhood and demonstrate our city's commitment to providing safe infrastructure for all residents regardless of mobility needs.

I would appreciate your attention to this matter and would be happy to provide additional information if needed.

Thank you for your consideration.

Sincerely,
[Your Name]".

Definition sampleTemplate3 : string :=
  "Dear Street Maintenance Department,

I am writing to report a large, hazardous pothole on Main Street near the intersection with Broadway. This pothole is approximately 2 feet wide and 8 inches deep, posing a significant risk to vehicles and causing traffic disruptions, especially during peak hours.

Over the past two weeks, I have observed multiple vehicles sustaining damage after hitting this pothole, and the situation worsens during rainy weather when the pothole fills with water and becomes less visible to drivers.

This section of Main Street experiences heavy traffic throughout the day, and the pothole has already caused several near-accidents as drivers swerve unexpectedly to avoid it. I believe this represents a high-urgency safety issue that requires prompt attention.

I respectfully request that the maintenance team repair this pothole as soon as possible to prevent further vehicle damage and potential accidents. I would be happy to provide more specific location details or photos if needed.

Thank you for your attention to this matter.

Sincerely,
[Your Name]".

Definition day : Z := 24 * 60 * 60 * 1000.

Definition sampleProject1 (id now : Z) : Project.t :=
  {| Project.id := id;
     Project.title := "Crosswalk Needed at Lincoln & 5th Ave";
     Project.description :=
       "Dangerous intersection with high pedestrian traffic and no safe crossing.";
     Project.issueType := crosswalk;
     Project.location := "Lincoln & 5th Ave";
     Project.latitude := "37.7749";
     Project.longitude := "-122.4194";
     Project.urgencyLevel := Some medium;
     Project.contactEmail := Some "example@example.com";
     Project.emailTemplate := sampleTemplate1;
     Project.emailSubject :=
       "Request for Crosswalk Installation at Lincoln & 5th Avenue";
     Project.emailRecipient := "citytransportation@cityname.gov";
     Project.upvotes := 45;
     Project.emailsSent := 38;
     Project.progressStatus := community_support;
     Project.createdAt := now - 7 * day;
     Project.createdBy := None |}.

Definition sampleProject2 (id now : Z) : Project.t :=
  {| Project.id := id;
     Project.title := "Broken Sidewalk on Oak Street";
     Project.description :=
       "Multiple large cracks making it difficult for wheelchair access.";
     Project.issueType := sidewalk;
     Project.location := "Oak Street";
     Project.latitude := "37.7746";
     Project.longitude := "-122.4184";
     Project.urgencyLevel := Some low;
     Project.contactEmail := None;
     Project.emailTemplate := sampleTemplate2;
     Project.emailSubject := "Request for Sidewalk Repair on Oak Street";
     Project.emailRecipient := "publicworks@cityname.gov";
     Project.upvotes := 23;
     Project.emailsSent := 12;
     Project.progressStatus := idea_submitted;
     Project.createdAt := now - 14 * day;
     Project.createdBy := None |}.

Definition sampleProject3 (id now : Z) : Project.t :=
  {| Project.id := id;
     Project.title := "Large Pothole on Main Street";
     Project.description :=
       "Deep pothole causing vehicle damage and traffic backup during rush hours.";
     Project.issueType := pothole;
     Project.location := "Main Street & Broadway";
     Project.latitude := "37.7739";
     Project.longitude := "-122.4174";
     Project.urgencyLevel := Some high;
     Project.contactEmail := Some "reporter@example.com";
     Project.emailTemplate := sampleTemplate3;
     Project.emailSubject :=
       "Urgent: Hazardous Pothole on Main Street Requiring Immediate Repair";
     Project.emailRecipient := "streetmaintenance@cityname.gov";
     Project.upvotes := 67;
     Project.emailsSent := 52;
     Project.progressStatus := official_acknowledgment;
     Project.createdAt := now - 21 * day;
     Project.createdBy := None |}.

Definition addSampleData (now : Z) : M unit :=
  id1 <- nextProjectId ;;
  let project1 := sampleProject1 id1 now in
  id2 <- nextProjectId ;;
  let project2 := sampleProject2 id2 now in
  id3 <- nextProjectId ;;
  let project3 := sampleProject3 id3 now in
  modify (fun s =>
            set_projects (JsMap.set (Project.id project1) project1 (projects s))
                         s) ;;;
  modify (fun s =>
            set_projects (JsMap.set (Project.id project2) project2 (projects s))
                         s) ;;;
  modify (fun s =>
            set_projects (JsMap.set (Project.id project3) project3 (projects s))
                         s) ;;;
  _ <- createActivity now
         {| InsertActivity.projectId := Project.id project1;
            InsertActivity.activityType := "email_sent";
            InsertActivity.actorName := Some "Alex Johnson";
            InsertActivity.description :=
              "Sent an email about Crosswalk Needed at Lincoln & 5th Ave" |} ;;
  _ <- createActivity now
         {| InsertActivity.projectId := Project.id project3;
            InsertActivity.activityType := "status_change";
            InsertActivity.actorName := Some "City Council";
            InsertActivity.description :=
              "Acknowledged Large Pothole on Main Street" |} ;;
  _ <- createActivity now
         {| InsertActivity.projectId := Project.id project2;
            InsertActivity.activityType := "project_created";
            InsertActivity.actorName := Some "Maria Lopez";
            InsertActivity.description :=
              "Submitted a new issue: Broken Sidewalk on Oak Street" |} ;;
  c1 <- nextCommentId ;;
  let comment1 :=
    {| Comment.id := c1;
       Comment.projectId := Project.id project1;
       Comment.text :=
         "I cross this intersection daily and it's very dangerous. We definitely need a crosswalk here.";
       Comment.commenterName := "David Chen";
       Comment.createdAt := now - 5 * day |} in
  c2 <- nextCommentId ;;
  let comment2 :=
    {| Comment.id := c2;
       Comment.projectId := Project.id project1;
       Comment.text :=
         "I witnessed a near-miss accident here last week. The city needs to take action quickly.";
       Comment.commenterName := "Sarah Williams";
       Comment.createdAt := now - 3 * day |} in
  c3 <- nextCommentId ;;
  let comment3 :=
    {| Comment.id := c3;
       Comment.projectId := Project.id project3;
       Comment.text :=
         "My car was damaged by this pothole. It's much worse after the recent rain.";
       Comment.commenterName := "Michael Rodriguez";
       Comment.createdAt := now - 10 * day |} in
  modify (fun s =>
            set_comments (JsMap.set (Comment.id comment1) comment1 (comments s))
                         s) ;;;
  modify (fun s =>
            set_comments (JsMap.set (Comment.id comment2) comment2 (comments s))
                         s) ;;;
  modify (fun s =>
            set_comments (JsMap.set (Comment.id comment3) comment3 (comments s))
                         s).

(** [new MemStorage()] *)
Definition newMemStorage (now : Z) : Store := after (addSampleData now) emptyStore.

(** ** [server/email.ts]: the dispatcher *)

Module SendResult.
Record t := mk {
  success : bool;
  message : string
}.
End SendResult.

(** What [transporter.sendMail] does with a message: it resolves, or it
    throws, an [Error] with its message or some other value. *)
Inductive Transport :=
| Delivered
| Thrown (errorMessage : option string).

(** [sendEmail(options)].  [simulate] is the constant
    [SIMULATE_EMAIL_SENDING]; the options only reach the console and the
    transporter, whose outcome is [transport]. *)
Definition sendEmail (simulate : bool) (transport : Transport) : SendResult.t :=
  if simulate then
    {| SendResult.success := true;
       SendResult.message := "Email simulation successful" |}
  else
    match transport with
    | Delivered =>
        {| SendResult.success := true;
           SendResult.message := "Email sent successfully" |}
    | Thrown errorMessage =>
        {| SendResult.success := false;
           SendResult.message :=
             ("Failed to send email: "
                ++ match errorMessage with
                   | Some m => m
                   | None => "Unknown error"
                   end)%string |}
    end.

(** ** [server/routes.ts]: the handlers that reach the store *)

Inductive Body :=
| BodyMessage (message : string)
| BodyProject (project : option Project.t)
| BodyProjects (projects : list Project.t)
| BodyEmail (email : Email.t)
| BodyStats (stats : CommunityStats.t)
| BodyActivities (activities : list Activity.t).

Record Response := mkResponse {
  status : Z;
  body : Body
}.

(** The outcome of [schema.parse(req.body)]: the validated data, or a
    [ZodError] carrying the message [fromZodError] reports. *)
Inductive Parsed (A : Type) :=
| Valid (data : A)
| Invalid (message : string).
Arguments Valid {A} data.
Arguments Invalid {A} message.

(** A query parameter that is a non-empty string. *)
Definition queryString (x : option string) : option string := string_or_null x.

(** [GET /api/projects] *)
Definition getProjectsRoute (search issueType status : option string)
  : M Response :=
  match queryString search, queryString issueType, queryString status with
  | Some search, _, _ =>
      projects <- searchProjects search ;;
      ret (mkResponse 200 (BodyProjects projects))
  | None, Some issueType, _ =>
      projects <- getProjectsByType issueType ;;
      ret (mkResponse 200 (BodyProjects projects))
  | None, None, Some status =>
      projects <- getProjectsByStatus status ;;
      ret (mkResponse 200 (BodyProjects projects))
  | None, None, None =>
      projects <- getAllProjects ;;
      ret (mkResponse 200 (BodyProjects projects))
  end.

(** [GET /api/projects/:id]; [id] is [parseInt(req.params.id)], with
    [None] for [NaN]. *)
Definition getProjectRoute (id : option Z) : M Response :=
  match id with
  | None => ret (mkResponse 400 (BodyMessage "Invalid project ID"))
  | Some id =>
      project <- getProjectById id ;;
      match project with
      | None => ret (mkResponse 404 (BodyMessage "Project not found"))
      | Some project => ret (mkResponse 200 (BodyProject (Some project)))
      end
  end.

(** [POST /api/projects] *)
Definition postProjectRoute (now : Z) (body : Parsed InsertProject.t)
  : M Response :=
  match body with
  | Invalid message => ret (mkResponse 400 (BodyMessage message))
  | Valid validatedData =>
      project <- createProject now validatedData ;;
      ret (mkResponse 201 (BodyProject (Some project)))
  end.

(** [POST /api/send-email] *)
Definition sendEmailRoute (simulate : bool) (now : Z) (transport : Transport)
    (body : Parsed InsertEmail.t) : M Response :=
  match body with
  | Invalid message => ret (mkResponse 400 (BodyMessage message))
  | Valid validatedData =>
      project <- getProjectById (InsertEmail.projectId validatedData) ;;
      match project with
      | None => ret (mkResponse 404 (BodyMessage "Project not found"))
      | Some project =>
          let result := sendEmail simulate transport in
          if negb (SendResult.success result) then
            ret (mkResponse 500 (BodyMessage (SendResult.message result)))
          else
            email <- createEmail now validatedData ;;
            ret (mkResponse 201 (BodyEmail email))
      end
  end.

(** [req.ip || req.socket.remoteAddress || "unknown"] *)
Definition clientAddress (ip remoteAddress : option string) : string :=
  string_or
    (match string_or_null ip with
     | Some a => Some a
     | None => remoteAddress
     end)
    "unknown".

(** [POST /api/projects/:id/upvote].  The object handed to
    [insertUpvoteSchema.parse] holds the identifier of a project that
    exists, a string and [null], which the schema accepts. *)
Definition upvoteRoute (now : Z) (id : option Z) (ip remoteAddress : option string)
  : M Response :=
  match id with
  | None => ret (mkResponse 400 (BodyMessage "Invalid project ID"))
  | Some projectId =>
      project <- getProjectById projectId ;;
      match project with
      | None => ret (mkResponse 404 (BodyMessage "Project not found"))
      | Some project =>
          let ipAddress := clientAddress ip remoteAddress in
          hasUpvoted <- hasUserUpvoted projectId ipAddress ;;
          if hasUpvoted : bool then
            ret (mkResponse 400
                   (BodyMessage "You have already upvoted this project"))
          else
            let upvoteData :=
              {| InsertUpvote.projectId := projectId;
                 InsertUpvote.userId := None;
                 InsertUpvote.ipAddress := ipAddress |} in
            _ <- createUpvote now upvoteData ;;
            updatedProject <- getProjectById projectId ;;
            ret (mkResponse 200 (BodyProject updatedProject))
      end
  end.

(** [GET /api/stats] *)
Definition statsRoute : M Response :=
  stats <- getCommunityStats ;;
  ret (mkResponse 200 (BodyStats stats)).

(** [GET /api/activities]; [limit] is absent, or what [parseInt] read. *)
Definition activitiesRoute (limit : option (option Z)) : M Response :=
  activities <- getRecentActivities (match limit with
                                     | Some l => l
                                     | None => Some 10
                                     end) ;;
  ret (mkResponse 200 (BodyActivities activities)).

(** The requests that reach the store.  The two remaining routes,
    [/api/generate-email] and [/api/regenerate-email], only call the
    language model. *)
Inductive Request :=
| GetProjects (search issueType status : option string)
| GetProject (id : option Z)
| PostProject (body : Parsed InsertProject.t)
| PostSendEmail (transport : Transport) (body : Parsed InsertEmail.t)
| PostUpvote (id : option Z) (ip remoteAddress : option string)
| GetStats
| GetActivities (limit : option (option Z)).

Definition handle (simulate : bool) (now : Z) (request : Request)
  : M Response :=
  match request with
  | GetProjects search issueType status =>
      getProjectsRoute search issueType status
  | GetProject id => getProjectRoute id
  | PostProject body => postProjectRoute now body
  | PostSendEmail transport body => sendEmailRoute simulate now transport body
  | PostUpvote id ip remoteAddress => upvoteRoute now id ip remoteAddress
  | GetStats => statsRoute
  | GetActivities limit => activitiesRoute limit
  end.

(** The server handling a sequence of requests, each at its own time. *)
Fixpoint serve (simulate : bool) (requests : list (Z * Request)) (s : Store)
  : Store :=
  match requests with
  | [] => s
  | (now, request) :: rest =>
      serve simulate rest (after (handle simulate now request) s)
  end.

(** ** Direct use of the store

    The operations of [IStorage] that change the store, as a caller that
    holds the [storage] object can invoke them. *)
Inductive StoreOp :=
| OpCreateUser (insertUser : InsertUser.t)
| OpCreateProject (insertProject : InsertProject.t)
| OpUpdateProject (id : Z) (updates : PartialProject.t)
| OpCreateUpvote (insertUpvote : InsertUpvote.t)
| OpCreateEmail (insertEmail : InsertEmail.t)
| OpCreateActivity (insertActivity : InsertActivity.t)
| OpCreateComment (insertComment : InsertComment.t).

Definition exec (now : Z) (op : StoreOp) (s : Store) : Store :=
  match op with
  | OpCreateUser insertUser => after (createUser insertUser) s
  | OpCreateProject insertProject => after (createProject now insertProject) s
  | OpUpdateProject id updates => after (updateProject now id updates) s
  | OpCreateUpvote insertUpvote => after (createUpvote now insertUpvote) s
  | OpCreateEmail insertEmail => after (createEmail now insertEmail) s
  | OpCreateActivity insertActivity =>
      after (createActivity now insertActivity) s
  | OpCreateComment insertComment => after (createComment now insertComment) s
  end.

(** ** Notions the properties are stated with *)

(** The three statuses the counts move a project between, and the four
    that only a manual update reaches. *)
Definition isEarly (st : ProgressStatus) : Prop :=
  st = idea_submitted \/ st = community_support \/ st = email_campaign_active.

Definition isLater (st : ProgressStatus) : Prop :=
  st = official_acknowledgment \/ st = planning_stage
  \/ st = implementation \/ st = completed.

(** A run of automatic re-evaluations: the status after each pair of
    counts has been looked at in turn. *)
Fixpoint reevaluate (counts : list (Z * Z)) (st : ProgressStatus)
  : ProgressStatus :=
  match counts with
  | [] => st
  | (upvotes, emailsSent) :: rest =>
      reevaluate rest (determineProgressStatus upvotes emailsSent st)
  end.

(** The statuses a project goes through along such a run. *)
Fixpoint statusTrace (counts : list (Z * Z)) (st : ProgressStatus)
  : list ProgressStatus :=
  match counts with
  | [] => [st]
  | (upvotes, emailsSent) :: rest =>
      st :: statusTrace rest (determineProgressStatus upvotes emailsSent st)
  end.

(** Number of stored [Upvote] / [Email] records of a project. *)
Definition upvoteCount (s : Store) (projectId : Z) : Z :=
  Z.of_nat (List.length (result (getUpvotesByProject projectId) s)).

Definition emailCount (s : Store) (projectId : Z) : Z :=
  Z.of_nat (List.length
              (filter (fun email => Email.projectId email =? projectId)
                      (JsMap.values (emails s)))).

(** The counters of every stored project agree with the records. *)
Definition countersConsistent (s : Store) : Prop :=
  forall k p,
    JsMap.get k (projects s) = Some p ->
    Project.upvotes p = upvoteCount s (Project.id p)
    /\ Project.emailsSent p = emailCount s (Project.id p).

(** The counters the three sample projects are constructed with. *)
Definition seededUpvotes (projectId : Z) : Z :=
  if projectId =? 1 then 45
  else if projectId =? 2 then 23
  else if projectId =? 3 then 67
  else 0.

Definition seededEmails (projectId : Z) : Z :=
  if projectId =? 1 then 38
  else if projectId =? 2 then 12
  else if projectId =? 3 then 52
  else 0.

(** The counters of every stored project are ahead of the records by
    what the project was constructed with. *)
Definition countersTrack (s : Store) : Prop :=
  forall k p,
    JsMap.get k (projects s) = Some p ->
    Project.id p = k
    /\ Project.upvotes p = seededUpvotes k + upvoteCount s k
    /\ Project.emailsSent p = seededEmails k + emailCount s k.

(** Identifiers are handed out by the counters: in each collection the
    keys are below the collection's counter, and a project is stored
    under its own identifier. *)
Definition wellFormed (s : Store) : bool :=
  JsMap.keys_below (userId s) (users s)
  && JsMap.keys_below (projectId s) (projects s)
  && JsMap.keys_below (upvoteId s) (upvotes s)
  && JsMap.keys_below (emailId s) (emails s)
  && JsMap.keys_below (activityId s) (activities s)
  && JsMap.keys_below (commentId s) (comments s)
  && forallb (fun kv => fst kv =? Project.id (snd kv)) (projects s).

(** The direct uses of the store that the request handlers make: no
    [updateProject] from outside, and [createUpvote] and [createEmail]
    only for a project that exists. *)
Definition guarded (s : Store) (op : StoreOp) : bool :=
  match op with
  | OpUpdateProject _ _ => false
  | OpCreateUpvote insertUpvote =>
      match JsMap.get (InsertUpvote.projectId insertUpvote) (projects s) with
      | Some _ => true
      | None => false
      end
  | OpCreateEmail insertEmail =>
      match JsMap.get (InsertEmail.projectId insertEmail) (projects s) with
      | Some _ => true
      | None => false
      end
  | _ => true
  end.

(** The stores that arise from the constructed one by guarded uses. *)
Inductive reachable (start : Z) : Store -> Prop :=
| reachable_new : reachable start (newMemStorage start)
| reachable_exec s now op :
    reachable start s ->
    guarded s op = true ->
    reachable start (exec now op s).

(** The records a method appended to the activity log. *)
Definition activitiesAdded (s s' : Store) : list Activity.t :=
  skipn (List.length (activities s)) (JsMap.values (activities s')).

Definition statusChangeActivity (id projectId now : Z) (st : ProgressStatus)
  : Activity.t :=
  {| Activity.id := id;
     Activity.projectId := projectId;
     Activity.activityType := "status_change";
     Activity.actorName := Some "System";
     Activity.description :=
       ("Project status updated to: " ++ progressStatus_name st)%string;
     Activity.createdAt := now |}.

(** The [status_change] record of a move from [old] to [new], if it is
    a move. *)
Definition statusChangeLog (id projectId now : Z) (old new : ProgressStatus)
  : list Activity.t :=
  if progressStatus_eqb new old then []
  else [statusChangeActivity id projectId now new].

(** Case-insensitive containment, said without the search's code.  Two
    characters are the same letter when they are equal, or one is a
    capital A-Z and the other its small letter, 32 places further on in
    ASCII; two strings are the same when they are so character by
    character; and [text] contains [query] when it has a stretch that is
    the same as [query]. *)
Definition isCapital (c : ascii) : bool :=
  ((65 <=? nat_of_ascii c) && (nat_of_ascii c <=? 90))%nat.

Definition sameLetter (a b : ascii) : Prop :=
  a = b
  \/ (isCapital a = true /\ nat_of_ascii b = (nat_of_ascii a + 32)%nat)
  \/ (isCapital b = true /\ nat_of_ascii a = (nat_of_ascii b + 32)%nat).

Definition sameIgnoringCase (a b : string) : Prop :=
  Forall2 sameLetter (list_ascii_of_string a) (list_ascii_of_string b).



(** The percentage [100 * resolved / total] rounded to the nearest
    integer in exact arithmetic, a half going up. *)
Definition exactPercent (resolved total : Z) : Z :=
  (200 * resolved + total) / (2 * total).

Definition successRateOf (resolved total : Z) : Z :=
  Math_round (number_mul (number_div (number resolved) (number total))
                         (number 100)).

(** Every stored [Upvote] and [Email] refers to a project identifier
    that the counter has already handed out. *)
Definition recordsReferAssigned (s : Store) : bool :=
  forallb (fun upvote => Upvote.projectId upvote <? projectId s)
          (JsMap.values (upvotes s))
  && forallb (fun email => Email.projectId email <? projectId s)
             (JsMap.values (emails s)).

(** What the guarded uses of the store maintain. *)
Definition storeInvariant (s : Store) : Prop :=
  wellFormed s = true
  /\ recordsReferAssigned s = true
  /\ 4 <= projectId s
  /\ countersTrack s.

(** The record [createUpvote] and [createEmail] build before they look
    for the project. *)
Definition upvoteRecord (now : Z) (insertUpvote : InsertUpvote.t) (s : Store)
  : Upvote.t :=
  {| Upvote.id := upvoteId s;
     Upvote.projectId := InsertUpvote.projectId insertUpvote;
     Upvote.userId := number_or_null (InsertUpvote.userId insertUpvote);
     Upvote.ipAddress := InsertUpvote.ipAddress insertUpvote;
     Upvote.createdAt := now |}.

Definition emailRecord (now : Z) (insertEmail : InsertEmail.t) (s : Store)
  : Email.t :=
  {| Email.id := emailId s;
     Email.projectId := InsertEmail.projectId insertEmail;
     Email.senderEmail := string_or_null (InsertEmail.senderEmail insertEmail);
     Email.senderName := string_or_null (InsertEmail.senderName insertEmail);
     Email.customContent :=
       string_or_null (InsertEmail.customContent insertEmail);
     Email.sentAt := now |}.

(** The store once that record is in its collection. *)
Definition withUpvote (now : Z) (insertUpvote : InsertUpvote.t) (s : Store)
  : Store :=
  set_upvotes
    (JsMap.set (upvoteId s) (upvoteRecord now insertUpvote s) (upvotes s))
    (after nextUpvoteId s).

Definition withEmail (now : Z) (insertEmail : InsertEmail.t) (s : Store)
  : Store :=
  set_emails
    (JsMap.set (emailId s) (emailRecord now insertEmail s) (emails s))
    (after nextEmailId s).

(** The activities [createUpvote] and [createEmail] ask for. *)
Definition upvoteActivity (project : Project.t) : InsertActivity.t :=
  {| InsertActivity.projectId := Project.id project;
     InsertActivity.activityType := "upvote";
     InsertActivity.actorName := Some "Anonymous User";
     InsertActivity.description :=
       ("Someone upvoted: " ++ Project.title project)%string |}.

Definition emailActivity (email : Email.t) (project : Project.t)
  : InsertActivity.t :=
  {| InsertActivity.projectId := Project.id project;
     InsertActivity.activityType := "email_sent";
     InsertActivity.actorName :=
       Some (string_or (Email.senderName email) "Anonymous User");
     InsertActivity.description :=
       ("Email sent regarding: " ++ Project.title project)%string |}.

(** The log records of an upvote, of an email and of a comment, as
    stored under identifier [id]. *)
Definition upvoteLogged (id now : Z) (project : Project.t) : Activity.t :=
  {| Activity.id := id;
     Activity.projectId := Project.id project;
     Activity.activityType := "upvote";
     Activity.actorName := Some "Anonymous User";
     Activity.description :=
       ("Someone upvoted: " ++ Project.title project)%string;
     Activity.createdAt := now |}.

Definition emailLogged (id now : Z) (senderName : option string)
    (project : Project.t) : Activity.t :=
  {| Activity.id := id;
     Activity.projectId := Project.id project;
     Activity.activityType := "email_sent";
     Activity.actorName := Some (string_or senderName "Anonymous User");
     Activity.description :=
       ("Email sent regarding: " ++ Project.title project)%string;
     Activity.createdAt := now |}.

Definition commentLogged (id now : Z) (insertComment : InsertComment.t)
    (title : option string) : Activity.t :=
  {| Activity.id := id;
     Activity.projectId := InsertComment.projectId insertComment;
     Activity.activityType := "comment_added";
     Activity.actorName :=
       string_or_null (Some (InsertComment.commenterName insertComment));
     Activity.description :=
       ("New comment on project: "
          ++ string_or title "Unknown Project")%string;
     Activity.createdAt := now |}.

Definition commentRecord (now : Z) (insertComment : InsertComment.t) (s : Store)
  : Comment.t :=
  {| Comment.id := commentId s;
     Comment.projectId := InsertComment.projectId insertComment;
     Comment.text := InsertComment.text insertComment;
     Comment.commenterName := InsertComment.commenterName insertComment;
     Comment.createdAt := now |}.

(** The project record after an upvote, after an email. *)
Definition upvoted (project : Project.t) : Project.t :=
  mergeProject project (upvotePatch project).

Definition emailed (project : Project.t) : Project.t :=
  mergeProject project (emailPatch project).

(** The two uses of the store that re-evaluate a status, and a run of
    uses, each at its own time. *)
Definition isCounting (op : StoreOp) : bool :=
  match op with
  | OpCreateUpvote _ | OpCreateEmail _ => true
  | _ => false
  end.

Fixpoint execAll (ops : list (Z * StoreOp)) (s : Store) : Store :=
  match ops with
  | [] => s
  | (now, op) :: rest => execAll rest (exec now op s)
  end.

Definition ProgressStatus_eq_dec (a b : ProgressStatus) : {a = b} + {a <> b}.
Proof. decide equality. Defined.

(** The sum of the per-project [emailsSent] counters. *)
Definition emailCounterSum (s : Store) : Z :=
  fold_right Z.add 0 (map Project.emailsSent (JsMap.values (projects s))).

(** The object literal [{ upvotes: n }]. *)
Definition onlyUpvotes (n : Z) : PartialProject.t :=
  {| PartialProject.id := None; PartialProject.title := None;
     PartialProject.description := None; PartialProject.issueType := None;
     PartialProject.location := None; PartialProject.latitude := None;
     PartialProject.longitude := None; PartialProject.urgencyLevel := None;
     PartialProject.contactEmail := None;
     PartialProject.emailTemplate := None;
     PartialProject.emailSubject := None;
     PartialProject.emailRecipient := None;
     PartialProject.upvotes := Some n;
     PartialProject.emailsSent := None;
     PartialProject.progressStatus := None;
     PartialProject.createdAt := None; PartialProject.createdBy := None |}.

(** [successRateOf] and [exactPercent] agree on every pair of counts
    with [resolved <= total] and [0 < total <= bound]. *)
Definition ratesAgreeUpTo (bound : nat) : bool :=
  forallb (fun t =>
             forallb (fun r =>
                        successRateOf (Z.of_nat r) (Z.of_nat (S t))
                        =? exactPercent (Z.of_nat r) (Z.of_nat (S t)))
                     (seq 0 (S (S t))))
          (seq 0 bound).

(** [successRateOf] is [exactPercent], or one less where the percentage
    is exactly half way between two integers, on every pair of counts
    with [resolved <= total] and [0 < total <= bound]. *)
Definition rateIsNear (resolved total : Z) : bool :=
  let rate := successRateOf resolved total in
  let exact := exactPercent resolved total in
  (rate =? exact)
  || ((rate =? exact - 1) && (200 * resolved =? (2 * exact - 1) * total)).

Definition ratesAreNearUpTo (bound : nat) : bool :=
  forallb (fun t =>
             forallb (fun r => rateIsNear (Z.of_nat r) (Z.of_nat (S t)))
                     (seq 0 (S (S t))))
          (seq 0 bound).

(** [{ progressStatus: st }] *)
Definition onlyStatus (st : ProgressStatus) : PartialProject.t :=
  {| PartialProject.id := None; PartialProject.title := None;
     PartialProject.description := None; PartialProject.issueType := None;
     PartialProject.location := None; PartialProject.latitude := None;
     PartialProject.longitude := None; PartialProject.urgencyLevel := None;
     PartialProject.contactEmail := None;
     PartialProject.emailTemplate := None;
     PartialProject.emailSubject := None;
     PartialProject.emailRecipient := None;
     PartialProject.upvotes := None;
     PartialProject.emailsSent := None;
     PartialProject.progressStatus := Some st;
     PartialProject.createdAt := None; PartialProject.createdBy := None |}.

Definition darkCorner : InsertProject.t :=
  {| InsertProject.title := "Dark corner";
     InsertProject.description := "No light";
     InsertProject.issueType := streetlight;
     InsertProject.location := "Elm Street";
     InsertProject.latitude := "0";
     InsertProject.longitude := "0";
     InsertProject.urgencyLevel := None;
     InsertProject.contactEmail := None;
     InsertProject.emailTemplate := "t";
     InsertProject.emailSubject := "s";
     InsertProject.emailRecipient := "r";
     InsertProject.createdBy := None |}.

(** The constructed store after 37 submissions, which make 40 projects,
    and then projects 1 to 23 set to [completed]. *)
Definition fortyProjects : Store :=
  execAll (map (fun id => (0, OpUpdateProject (Z.of_nat id)
                                (onlyStatus completed)))
               (seq 1 23))
    (execAll (repeat (0, OpCreateProject darkCorner) 37) (newMemStorage 0)).

(** ** [server/email.ts]: [normalizeEmail], and the address checks

    The text here is ASCII: a string is its sequence of bytes, the
    whitespace of [\s] and of [trim] is the ASCII whitespace (tab, line
    feed, vertical tab, form feed, carriage return, space). *)

Definition isAscii (s : string) : bool :=
  forallb (fun c => (nat_of_ascii c <? 128)%nat) (list_ascii_of_string s).


Definition isWhitespace (c : ascii) : bool :=
  let n := nat_of_ascii c in
  (((9 <=? n) && (n <=? 13)) || (n =? 32))%nat.

Fixpoint trimStart (s : string) : string :=
  match s with
  | EmptyString => EmptyString
  | String c rest => if isWhitespace c then trimStart rest else s
  end.

Fixpoint trimEnd (s : string) : string :=
  match s with
  | EmptyString => EmptyString
  | String c rest =>
      match trimEnd rest with
      | EmptyString => if isWhitespace c then EmptyString else String c EmptyString
      | kept => String c kept
      end
  end.

(** [String.prototype.trim] *)
Definition trim (s : string) : string := trimEnd (trimStart s).

(** Regular expressions, as far as the program's patterns go: character
    classes, sequence, alternative, repetition.  A pattern anchored by
    [^] and [$] is tested against the whole string. *)
Inductive Regex :=
| Never
| Eps
| Class (p : ascii -> bool)
| Seq (r1 r2 : Regex)
| Alt (r1 r2 : Regex)
| Star (r : Regex).

(** [r+] *)
Definition Plus (r : Regex) : Regex := Seq r (Star r).

Fixpoint nullable (r : Regex) : bool :=
  match r with
  | Never => false
  | Eps => true
  | Class _ => false
  | Seq r1 r2 => nullable r1 && nullable r2
  | Alt r1 r2 => nullable r1 || nullable r2
  | Star _ => true
  end.

(** What is left of [r] to match once [c] has been read. *)
Fixpoint derivative (c : ascii) (r : Regex) : Regex :=
  match r with
  | Never => Never
  | Eps => Never
  | Class p => if p c then Eps else Never
  | Seq r1 r2 =>
      if nullable r1
      then Alt (Seq (derivative c r1) r2) (derivative c r2)
      else Seq (derivative c r1) r2
  | Alt r1 r2 => Alt (derivative c r1) (derivative c r2)
  | Star r1 => Seq (derivative c r1) (Star r1)
  end.

(** [/^r$/.test(s)] *)
Fixpoint test (r : Regex) (s : string) : bool :=
  match s with
  | EmptyString => nullable r
  | String c rest => test (derivative c r) rest
  end.

(** The strings a pattern stands for. *)
Inductive Matches : Regex -> string -> Prop :=
| MatchEps : Matches Eps EmptyString
| MatchClass p c : p c = true -> Matches (Class p) (String c EmptyString)
| MatchSeq r1 r2 s1 s2 :
    Matches r1 s1 -> Matches r2 s2 -> Matches (Seq r1 r2) (s1 ++ s2)%string
| MatchAltL r1 r2 s : Matches r1 s -> Matches (Alt r1 r2) s
| MatchAltR r1 r2 s : Matches r2 s -> Matches (Alt r1 r2) s
| MatchStarNil r : Matches (Star r) EmptyString
| MatchStarApp r s1 s2 :
    Matches r s1 -> Matches (Star r) s2 -> Matches (Star r) (s1 ++ s2)%string.

(** [[^\s@]] *)
Definition plainChar (c : ascii) : bool :=
  negb (isWhitespace c || Ascii.eqb c "@").

Definition isChar (d : ascii) : ascii -> bool := fun c => Ascii.eqb c d.

(** [/^[^\s@]+@[^\s@]+\.[^\s@]+$/] *)
Definition emailPattern : Regex :=
  Seq (Plus (Class plainChar))
      (Seq (Class (isChar "@"))
           (Seq (Plus (Class plainChar))
                (Seq (Class (isChar "."))
                     (Plus (Class plainChar))))).

(** [normalizeEmail(email)] *)
Definition normalizeEmail (email : option string) : option string :=
  match string_or_null email with
  | None => None
  | Some email =>
      let email := toLowerCase (trim email) in
      if negb (test emailPattern email) then None else Some email
  end.

(** [validateEmail] of the client's email dialog
    ([client/src/components/EmailPreviewModal.tsx]). *)
Definition validateEmail (email : string) : bool := test emailPattern email.

(** The sender and the text the send-email handler hands to [sendEmail]. *)
Definition mailFrom (validatedData : InsertEmail.t) : string :=
  string_or (normalizeEmail (InsertEmail.senderEmail validatedData))
            "noreply@civicvoice.org".

Definition mailText (validatedData : InsertEmail.t) (project : Project.t)
  : string :=
  string_or (InsertEmail.customContent validatedData)
            (Project.emailTemplate project).

(** An address as the pattern reads it: a name, an at sign, and a domain
    with a dot inside, none of them empty, all made of plain
    characters. *)
Definition plain (s : string) : Prop :=
  s <> EmptyString /\ forallb plainChar (list_ascii_of_string s) = true.

Definition addressShape (s : string) : Prop :=
  exists name host tail,
    s = (name ++ "@" ++ host ++ "." ++ tail)%string
    /\ plain name /\ plain host /\ plain tail.

Fixpoint countChar (d : ascii) (s : string) : nat :=
  match s with
  | EmptyString => 0
  | String c rest => (if Ascii.eqb c d then 1 else 0) + countChar d rest
  end.

(** ** Further notions *)

(** Every record carries the identifier it is stored under. *)
Definition recordIds (s : Store) : bool :=
  forallb (fun kv => fst kv =? User.id (snd kv)) (users s)
  && forallb (fun kv => fst kv =? Project.id (snd kv)) (projects s)
  && forallb (fun kv => fst kv =? Upvote.id (snd kv)) (upvotes s)
  && forallb (fun kv => fst kv =? Email.id (snd kv)) (emails s)
  && forallb (fun kv => fst kv =? Activity.id (snd kv)) (activities s)
  && forallb (fun kv => fst kv =? Comment.id (snd kv)) (comments s).

(** No identifier is used twice in a collection. *)
Definition distinctKeys (s : Store) : Prop :=
  NoDup (map fst (users s)) /\ NoDup (map fst (projects s))
  /\ NoDup (map fst (upvotes s)) /\ NoDup (map fst (emails s))
  /\ NoDup (map fst (activities s)) /\ NoDup (map fst (comments s)).

(** The counters of [s'] are not behind those of [s]. *)
Definition countersAdvance (s s' : Store) : Prop :=
  userId s <= userId s' /\ projectId s <= projectId s'
  /\ upvoteId s <= upvoteId s' /\ emailId s <= emailId s'
  /\ activityId s <= activityId s' /\ commentId s <= commentId s'.

(** [p'] is the project [p] with, at most, its counters raised and its
    status changed: what was submitted is the same. *)
Definition sameSubmission (p p' : Project.t) : Prop :=
  Project.id p' = Project.id p
  /\ Project.title p' = Project.title p
  /\ Project.description p' = Project.description p
  /\ Project.issueType p' = Project.issueType p
  /\ Project.location p' = Project.location p
  /\ Project.latitude p' = Project.latitude p
  /\ Project.longitude p' = Project.longitude p
  /\ Project.urgencyLevel p' = Project.urgencyLevel p
  /\ Project.contactEmail p' = Project.contactEmail p
  /\ Project.emailTemplate p' = Project.emailTemplate p
  /\ Project.emailSubject p' = Project.emailSubject p
  /\ Project.emailRecipient p' = Project.emailRecipient p
  /\ Project.createdAt p' = Project.createdAt p
  /\ Project.createdBy p' = Project.createdBy p.

(** The status the counts alone give. *)
Definition statusOfCounts (upvotes emailsSent : Z) : ProgressStatus :=
  determineProgressStatus upvotes emailsSent idea_submitted.

(** The status of [p] is a later one, or the one its counters give. *)
Definition statusFollowsCounters (p : Project.t) : Prop :=
  isLater (Project.progressStatus p)
  \/ Project.progressStatus p =
     statusOfCounts (Project.upvotes p) (Project.emailsSent p).

Definition statusesFollowCounters (s : Store) : Prop :=
  forall k p, JsMap.get k (projects s) = Some p -> statusFollowsCounters p.

(** Newest first. *)
Definition newestFirst {A} (time : A -> Z) (l : list A) : Prop :=
  StronglySorted (fun a b => time a >= time b) l.

(** The activity [createProject] asks for. *)
Definition projectLogged (id now : Z) (project : Project.t) : Activity.t :=
  {| Activity.id := id;
     Activity.projectId := Project.id project;
     Activity.activityType := "project_created";
     Activity.actorName := Some "Anonymous User";
     Activity.description :=
       ("New issue submitted: " ++ Project.title project)%string;
     Activity.createdAt := now |}.

(** The project [createProject] builds. *)
Definition projectRecord (now : Z) (insertProject : InsertProject.t) (s : Store)
  : Project.t :=
  {| Project.id := projectId s;
     Project.title := InsertProject.title insertProject;
     Project.description := InsertProject.description insertProject;
     Project.issueType := InsertProject.issueType insertProject;
     Project.location := InsertProject.location insertProject;
     Project.latitude := InsertProject.latitude insertProject;
     Project.longitude := InsertProject.longitude insertProject;
     Project.urgencyLevel := InsertProject.urgencyLevel insertProject;
     Project.contactEmail := InsertProject.contactEmail insertProject;
     Project.emailTemplate := InsertProject.emailTemplate insertProject;
     Project.emailSubject := InsertProject.emailSubject insertProject;
     Project.emailRecipient := InsertProject.emailRecipient insertProject;
     Project.upvotes := 0;
     Project.emailsSent := 0;
     Project.progressStatus := idea_submitted;
     Project.createdAt := now;
     Project.createdBy :=
       number_or_null (InsertProject.createdBy insertProject) |}.

Definition userRecord (insertUser : InsertUser.t) (s : Store) : User.t :=
  {| User.id := userId s;
     User.username := InsertUser.username insertUser;
     User.password := InsertUser.password insertUser;
     User.email := InsertUser.email insertUser |}.

(** [s'] holds what [s] holds and possibly more: every collection of
    records has only been appended to, the project identifiers too, and
    no counter has gone back. *)
Definition storeGrows (s s' : Store) : Prop :=
  (exists l, users s' = users s ++ l)
  /\ (exists l, map fst (projects s') = map fst (projects s) ++ l)
  /\ (exists l, upvotes s' = upvotes s ++ l)
  /\ (exists l, emails s' = emails s ++ l)
  /\ (exists l, activities s' = activities s ++ l)
  /\ (exists l, comments s' = comments s ++ l)
  /\ countersAdvance s s'.

(** Who has upvoted what: the (project, address) pairs of the stored
    upvotes, in store order. *)
Definition voterPairs (s : Store) : list (Z * string) :=
  map (fun u => (Upvote.projectId u, Upvote.ipAddress u))
      (JsMap.values (upvotes s)).

(** The requests that only read. *)
Definition isRead (request : Request) : bool :=
  match request with
  | GetProjects _ _ _ | GetProject _ | GetStats | GetActivities _ => true
  | _ => false
  end.

(** * Properties *)

(** ** [JsMap] *)

Section JsMapFacts.
Context {V : Type}.
Implicit Types (m : JsMap.t V) (k n : Z) (v : V).

Lemma get_set m k k' v :
  JsMap.get k' (JsMap.set k v m) = if k =? k' then Some v else JsMap.get k' m.
Proof.
  induction m as [|[j w] m IH]; simpl.
  - reflexivity.
  - destruct (j =? k) eqn:Ejk; simpl.
    + apply Z.eqb_eq in Ejk; subst j.
      destruct (k =? k'); reflexivity.
    + destruct (j =? k') eqn:Ejk'.
      * apply Z.eqb_eq in Ejk'; subst j.
        rewrite Z.eqb_sym, Ejk. reflexivity.
      * exact IH.
Qed.

Lemma get_set_same m k v : JsMap.get k (JsMap.set k v m) = Some v.
Proof. rewrite get_set, Z.eqb_refl. reflexivity. Qed.

Lemma get_set_other m k k' v :
  k <> k' -> JsMap.get k' (JsMap.set k v m) = JsMap.get k' m.
Proof.
  intros Hne. rewrite get_set.
  destruct (k =? k') eqn:E; [apply Z.eqb_eq in E; contradiction | reflexivity].
Qed.

Lemma get_In m k v : JsMap.get k m = Some v -> In (k, v) m.
Proof.
  induction m as [|[j w] m IH]; simpl; [discriminate|].
  destruct (j =? k) eqn:E.
  - apply Z.eqb_eq in E. intros [= ->]. subst. now left.
  - intros H. right. auto.
Qed.

Lemma keys_below_get_none m n k :
  JsMap.keys_below n m = true -> n <= k -> JsMap.get k m = None.
Proof.
  unfold JsMap.keys_below.
  induction m as [|[j w] m IH]; simpl; [reflexivity|].
  intros H Hle. apply andb_true_iff in H as [Hj Hm].
  apply Z.ltb_lt in Hj.
  destruct (j =? k) eqn:E; [apply Z.eqb_eq in E; lia | auto].
Qed.

Lemma keys_below_weaken m n n' :
  JsMap.keys_below n m = true -> n <= n' -> JsMap.keys_below n' m = true.
Proof.
  unfold JsMap.keys_below. rewrite !forallb_forall.
  intros H Hle kv Hin. specialize (H kv Hin).
  apply Z.ltb_lt in H. apply Z.ltb_lt. lia.
Qed.

Lemma forallb_set (P : Z * V -> bool) m k v :
  forallb P m = true -> P (k, v) = true -> forallb P (JsMap.set k v m) = true.
Proof.
  intros Hm Hkv. induction m as [|[j w] m IH]; simpl in *.
  - now rewrite Hkv.
  - apply andb_true_iff in Hm as [Hj Hm].
    destruct (j =? k); simpl.
    + now rewrite Hkv, Hm.
    + now rewrite Hj, IH.
Qed.

Lemma keys_below_set m n k v :
  JsMap.keys_below n m = true -> k < n ->
  JsMap.keys_below n (JsMap.set k v m) = true.
Proof.
  intros Hm Hk. apply forallb_set; [exact Hm|].
  simpl. now apply Z.ltb_lt.
Qed.

(** Storing under a key that is not there appends. *)
Lemma set_fresh m k v :
  JsMap.get k m = None -> JsMap.set k v m = m ++ [(k, v)].
Proof.
  induction m as [|[j w] m IH]; simpl; [reflexivity|].
  destruct (j =? k); [discriminate|].
  intros H. now rewrite IH.
Qed.

Lemma values_set_fresh m k v :
  JsMap.get k m = None ->
  JsMap.values (JsMap.set k v m) = JsMap.values m ++ [v].
Proof.
  intros H. rewrite (set_fresh _ _ _ H).
  unfold JsMap.values. now rewrite map_app.
Qed.

Lemma values_length m : List.length (JsMap.values m) = List.length m.
Proof. unfold JsMap.values. apply length_map. Qed.
End JsMapFacts.

(** ** The progress state machine *)

Lemma progressStatus_eqb_eq a b : progressStatus_eqb a b = true <-> a = b.
Proof. destruct a, b; simpl; split; intros H; congruence. Qed.

Lemma progressStatus_eqb_refl a : progressStatus_eqb a a = true.
Proof. now apply progressStatus_eqb_eq. Qed.

Lemma progressStatus_eqb_neq a b : progressStatus_eqb a b = false <-> a <> b.
Proof.
  split.
  - intros H E. apply progressStatus_eqb_eq in E. congruence.
  - intros H. destruct (progressStatus_eqb a b) eqn:E; [|reflexivity].
    apply progressStatus_eqb_eq in E. contradiction.
Qed.

Lemma isEarly_not_isLater st : isEarly st -> ~ isLater st.
Proof.
  intros [-> | [-> | ->]] [H | [H | [H | H]]]; discriminate.
Qed.

(** C1: on the three early statuses the result depends on the counts
    alone: [email_campaign_active] from 50 emails on, whatever the
    upvotes; below that [community_support] from 25 upvotes on; below
    both [idea_submitted].  The result is again an early status, never
    [official_acknowledgment] or beyond, and the three sample evaluations
    of the specification come out as it says. *)
Theorem determineProgressStatus_early u e s :
  isEarly s ->
  (50 <= e -> determineProgressStatus u e s = email_campaign_active)
  /\ (e < 50 -> 25 <= u -> determineProgressStatus u e s = community_support)
  /\ (e < 50 -> u < 25 -> determineProgressStatus u e s = idea_submitted)
  /\ isEarly (determineProgressStatus u e s)
  /\ ~ isLater (determineProgressStatus u e s)
  /\ determineProgressStatus 30 60 idea_submitted = email_campaign_active
  /\ determineProgressStatus 24 0 idea_submitted = idea_submitted
  /\ determineProgressStatus 25 0 idea_submitted = community_support.
Proof.
  intros Hs.
  assert (Hdet : determineProgressStatus u e s =
                 if e >=? 50 then email_campaign_active
                 else if u >=? 25 then community_support
                 else idea_submitted)
    by (destruct Hs as [-> | [-> | ->]]; reflexivity).
  assert (Hearly : isEarly (determineProgressStatus u e s)).
  { rewrite Hdet. unfold isEarly.
    destruct (e >=? 50); [|destruct (u >=? 25)]; auto. }
  split; [|split; [|split; [|split; [|split]]]].
  - intros He. rewrite Hdet.
    destruct (Z.geb_spec e 50); [reflexivity | lia].
  - intros He Hu. rewrite Hdet.
    destruct (Z.geb_spec e 50); [lia|].
    destruct (Z.geb_spec u 25); [reflexivity | lia].
  - intros He Hu. rewrite Hdet.
    destruct (Z.geb_spec e 50); [lia|].
    destruct (Z.geb_spec u 25); [lia | reflexivity].
  - exact Hearly.
  - now apply isEarly_not_isLater.
  - repeat split.
Qed.

Lemma determineProgressStatus_early_witness :
  determineProgressStatus 30 60 community_support = email_campaign_active.
Proof.
  refine (proj1 (determineProgressStatus_early 30 60 community_support _) _).
  - right; left; reflexivity.
  - lia.
Defined.

Lemma determineProgressStatus_later u e s :
  isLater s -> determineProgressStatus u e s = s.
Proof. intros [-> | [-> | [-> | ->]]]; reflexivity. Qed.

Lemma statusTrace_step counts s i a b :
  nth_error (statusTrace counts s) i = Some a ->
  nth_error (statusTrace counts s) (S i) = Some b ->
  exists u e, b = determineProgressStatus u e a.
Proof.
  revert s i. induction counts as [|[u e] counts IH]; intros s i Ha Hb.
  - destruct i as [|i]; simpl in *; [discriminate | destruct i; discriminate].
  - destruct i as [|i].
    + simpl in Ha. injection Ha as <-. simpl in Hb.
      destruct counts as [|[u' e'] counts]; simpl in Hb;
        injection Hb as <-; eauto.
    + simpl in Ha, Hb. eapply IH; eauto.
Qed.

(** ** Methods that find no project *)

Lemma updateProject_found now id updates s project :
  JsMap.get id (projects s) = Some project ->
  updateProject now id updates s =
  (Some (mergeProject project updates),
   let s1 :=
     set_projects (JsMap.set id (mergeProject project updates) (projects s)) s
   in
   match statusUpdated project updates with
   | Some st =>
       after (createActivity now
                {| InsertActivity.projectId := id;
                   InsertActivity.activityType := "status_change";
                   InsertActivity.actorName := Some "System";
                   InsertActivity.description :=
                     ("Project status updated to: "
                        ++ progressStatus_name st)%string |}) s1
   | None => s1
   end).
Proof.
  intros H. unfold updateProject, bind, gets. simpl. rewrite H.
  unfold after. simpl.
  destruct (statusUpdated project updates); reflexivity.
Qed.

Lemma updateProject_none now id updates s :
  JsMap.get id (projects s) = None ->
  updateProject now id updates s = (None, s).
Proof.
  intros H. unfold updateProject, bind, gets. simpl. now rewrite H.
Qed.

Lemma updateProject_none_after now id updates s :
  JsMap.get id (projects s) = None ->
  after (updateProject now id updates) s = s.
Proof. intros H. unfold after. now rewrite updateProject_none. Qed.

(** C10: [updateProject] on an identifier that no stored project has
    returns nothing (the source's [undefined]) and hands back the very
    store it was given: no project, collection, counter or activity
    differs. *)
Theorem updateProject_missing now id updates s :
  JsMap.get id (projects s) = None ->
  result (updateProject now id updates) s = None
  /\ after (updateProject now id updates) s = s.
Proof.
  intros H. unfold result, after.
  rewrite (updateProject_none now id updates s H). split; reflexivity.
Qed.

Lemma updateProject_missing_witness :
  result (updateProject 0 99
            {| PartialProject.id := Some 7; PartialProject.title := None;
               PartialProject.description := None;
               PartialProject.issueType := None;
               PartialProject.location := None;
               PartialProject.latitude := None;
               PartialProject.longitude := None;
               PartialProject.urgencyLevel := None;
               PartialProject.contactEmail := None;
               PartialProject.emailTemplate := None;
               PartialProject.emailSubject := None;
               PartialProject.emailRecipient := None;
               PartialProject.upvotes := Some 1000;
               PartialProject.emailsSent := None;
               PartialProject.progressStatus := Some completed;
               PartialProject.createdAt := None;
               PartialProject.createdBy := None |})
         (newMemStorage 0) = None
  /\ after (updateProject 0 99
              {| PartialProject.id := Some 7; PartialProject.title := None;
                 PartialProject.description := None;
                 PartialProject.issueType := None;
                 PartialProject.location := None;
                 PartialProject.latitude := None;
                 PartialProject.longitude := None;
                 PartialProject.urgencyLevel := None;
                 PartialProject.contactEmail := None;
                 PartialProject.emailTemplate := None;
                 PartialProject.emailSubject := None;
                 PartialProject.emailRecipient := None;
                 PartialProject.upvotes := Some 1000;
                 PartialProject.emailsSent := None;
                 PartialProject.progressStatus := Some completed;
                 PartialProject.createdAt := None;
                 PartialProject.createdBy := None |})
           (newMemStorage 0) = newMemStorage 0.
Proof.
  apply (updateProject_missing 0 99 _ (newMemStorage 0)).
  reflexivity.
Defined.

(** ** How each method changes the store *)

Ltac run_store :=
  unfold after, result, createUser, createProject, createActivity,
    createComment, nextUserId, nextProjectId, nextUpvoteId, nextEmailId,
    nextActivityId, nextCommentId, getProjectById, bind, gets, modify, ret,
    set_users, set_projects, set_upvotes, set_emails, set_activities,
    set_comments;
  simpl.

Lemma createActivity_after now ia s :
  after (createActivity now ia) s =
  mkStore (users s) (projects s) (upvotes s) (emails s)
    (JsMap.set (activityId s)
       {| Activity.id := activityId s;
          Activity.projectId := InsertActivity.projectId ia;
          Activity.activityType := InsertActivity.activityType ia;
          Activity.actorName := string_or_null (InsertActivity.actorName ia);
          Activity.description := InsertActivity.description ia;
          Activity.createdAt := now |}
       (activities s))
    (comments s) (userId s) (projectId s) (upvoteId s) (emailId s)
    (activityId s + 1) (commentId s).
Proof. reflexivity. Qed.

Lemma createUpvote_found now ins s project :
  JsMap.get (InsertUpvote.projectId ins) (projects s) = Some project ->
  createUpvote now ins s =
  (upvoteRecord now ins s,
   after (createActivity now (upvoteActivity project))
     (after (updateProject now (Project.id project) (upvotePatch project))
        (withUpvote now ins s))).
Proof.
  intros H. unfold createUpvote, bind, gets, modify, ret. simpl.
  rewrite H. reflexivity.
Qed.

Lemma createUpvote_missing now ins s :
  JsMap.get (InsertUpvote.projectId ins) (projects s) = None ->
  createUpvote now ins s = (upvoteRecord now ins s, withUpvote now ins s).
Proof.
  intros H. unfold createUpvote, bind, gets, modify, ret. simpl.
  rewrite H. reflexivity.
Qed.

Lemma createEmail_found now ins s project :
  JsMap.get (InsertEmail.projectId ins) (projects s) = Some project ->
  createEmail now ins s =
  (emailRecord now ins s,
   after (createActivity now (emailActivity (emailRecord now ins s) project))
     (after (updateProject now (Project.id project) (emailPatch project))
        (withEmail now ins s))).
Proof.
  intros H. unfold createEmail, bind, gets, modify, ret. simpl.
  rewrite H. reflexivity.
Qed.

Lemma createEmail_missing now ins s :
  JsMap.get (InsertEmail.projectId ins) (projects s) = None ->
  createEmail now ins s = (emailRecord now ins s, withEmail now ins s).
Proof.
  intros H. unfold createEmail, bind, gets, modify, ret. simpl.
  rewrite H. reflexivity.
Qed.

Lemma createUpvote_found_after now ins s project :
  JsMap.get (InsertUpvote.projectId ins) (projects s) = Some project ->
  after (createUpvote now ins) s =
  after (createActivity now (upvoteActivity project))
    (after (updateProject now (Project.id project) (upvotePatch project))
       (withUpvote now ins s)).
Proof.
  intros H. change (after (createUpvote now ins) s)
    with (snd (createUpvote now ins s)).
  now rewrite (createUpvote_found _ _ _ _ H).
Qed.

Lemma createUpvote_missing_after now ins s :
  JsMap.get (InsertUpvote.projectId ins) (projects s) = None ->
  after (createUpvote now ins) s = withUpvote now ins s.
Proof.
  intros H. change (after (createUpvote now ins) s)
    with (snd (createUpvote now ins s)).
  now rewrite (createUpvote_missing _ _ _ H).
Qed.

Lemma createEmail_found_after now ins s project :
  JsMap.get (InsertEmail.projectId ins) (projects s) = Some project ->
  after (createEmail now ins) s =
  after (createActivity now (emailActivity (emailRecord now ins s) project))
    (after (updateProject now (Project.id project) (emailPatch project))
       (withEmail now ins s)).
Proof.
  intros H. change (after (createEmail now ins) s)
    with (snd (createEmail now ins s)).
  now rewrite (createEmail_found _ _ _ _ H).
Qed.

Lemma createEmail_missing_after now ins s :
  JsMap.get (InsertEmail.projectId ins) (projects s) = None ->
  after (createEmail now ins) s = withEmail now ins s.
Proof.
  intros H. change (after (createEmail now ins) s)
    with (snd (createEmail now ins s)).
  now rewrite (createEmail_missing _ _ _ H).
Qed.

(** ** Well-formedness is kept *)

Lemma wellFormed_iff s :
  wellFormed s = true <->
  JsMap.keys_below (userId s) (users s) = true
  /\ JsMap.keys_below (projectId s) (projects s) = true
  /\ JsMap.keys_below (upvoteId s) (upvotes s) = true
  /\ JsMap.keys_below (emailId s) (emails s) = true
  /\ JsMap.keys_below (activityId s) (activities s) = true
  /\ JsMap.keys_below (commentId s) (comments s) = true
  /\ forallb (fun kv => fst kv =? Project.id (snd kv)) (projects s) = true.
Proof. unfold wellFormed. rewrite !andb_true_iff. tauto. Qed.

Lemma keys_below_next {V} (m : JsMap.t V) n v :
  JsMap.keys_below n m = true ->
  JsMap.keys_below (n + 1) (JsMap.set n v m) = true.
Proof.
  intros H. apply keys_below_set; [|lia].
  apply keys_below_weaken with n; [exact H | lia].
Qed.

Ltac wf_split :=
  repeat match goal with
         | H : wellFormed _ = true |- _ =>
             apply wellFormed_iff in H;
             destruct H as (? & ? & ? & ? & ? & ? & ?)
         end;
  apply wellFormed_iff; simpl;
  repeat split;
  try assumption; try (apply keys_below_next; assumption).

Lemma wellFormed_new start : wellFormed (newMemStorage start) = true.
Proof. reflexivity. Qed.

Lemma wellFormed_createActivity now ia s :
  wellFormed s = true -> wellFormed (after (createActivity now ia) s) = true.
Proof. intros H. rewrite createActivity_after. wf_split. Qed.

Lemma wellFormed_createUser iu s :
  wellFormed s = true -> wellFormed (after (createUser iu) s) = true.
Proof. intros H. run_store. wf_split. Qed.

Lemma wellFormed_createProject now ip s :
  wellFormed s = true -> wellFormed (after (createProject now ip) s) = true.
Proof.
  intros H. run_store. wf_split.
  apply forallb_set; [assumption | simpl; apply Z.eqb_refl].
Qed.

Lemma wellFormed_createComment now ic s :
  wellFormed s = true -> wellFormed (after (createComment now ic) s) = true.
Proof. intros H. run_store. wf_split. Qed.

Lemma wellFormed_withUpvote now ins s :
  wellFormed s = true -> wellFormed (withUpvote now ins s) = true.
Proof. intros H. unfold withUpvote. run_store. wf_split. Qed.

Lemma wellFormed_withEmail now ins s :
  wellFormed s = true -> wellFormed (withEmail now ins s) = true.
Proof. intros H. unfold withEmail. run_store. wf_split. Qed.

Lemma wellFormed_get s k p :
  wellFormed s = true -> JsMap.get k (projects s) = Some p ->
  Project.id p = k /\ k < projectId s.
Proof.
  intros H Hget. apply wellFormed_iff in H.
  destruct H as (_ & Hkeys & _ & _ & _ & _ & Hids).
  apply get_In in Hget.
  unfold JsMap.keys_below in Hkeys.
  rewrite forallb_forall in Hkeys, Hids.
  specialize (Hkeys _ Hget). specialize (Hids _ Hget). simpl in *.
  apply Z.ltb_lt in Hkeys. apply Z.eqb_eq in Hids. split; [now symmetry | lia].
Qed.

(** [updateProject] keeps the store well formed when the update does
    not rename the project. *)
Lemma wellFormed_updateProject now id updates s :
  wellFormed s = true ->
  PartialProject.id updates = None ->
  wellFormed (after (updateProject now id updates) s) = true.
Proof.
  intros H Hid. unfold after.
  destruct (JsMap.get id (projects s)) as [p|] eqn:Hget.
  - rewrite (updateProject_found _ _ _ _ _ Hget). simpl.
    destruct (wellFormed_get _ _ _ H Hget) as [Hp Hlt].
    assert (Hs1 : wellFormed
                    (set_projects
                       (JsMap.set id (mergeProject p updates) (projects s)) s)
                  = true).
    { unfold set_projects. wf_split.
      - now apply keys_below_set.
      - apply forallb_set; [assumption|]. simpl. rewrite Hid. simpl.
        rewrite Hp. apply Z.eqb_refl. }
    destruct (statusUpdated p updates).
    + now apply wellFormed_createActivity.
    + exact Hs1.
  - fold (after (updateProject now id updates) s).
    now rewrite (updateProject_none_after now id updates s Hget).
Qed.

Lemma wellFormed_createUpvote now ins s :
  wellFormed s = true -> wellFormed (after (createUpvote now ins) s) = true.
Proof.
  intros H.
  destruct (JsMap.get (InsertUpvote.projectId ins) (projects s)) as [p|] eqn:E.
  - rewrite (createUpvote_found_after _ _ _ _ E).
    apply wellFormed_createActivity, wellFormed_updateProject;
      [now apply wellFormed_withUpvote | reflexivity].
  - rewrite (createUpvote_missing_after _ _ _ E).
    now apply wellFormed_withUpvote.
Qed.

Lemma wellFormed_createEmail now ins s :
  wellFormed s = true -> wellFormed (after (createEmail now ins) s) = true.
Proof.
  intros H.
  destruct (JsMap.get (InsertEmail.projectId ins) (projects s)) as [p|] eqn:E.
  - rewrite (createEmail_found_after _ _ _ _ E).
    apply wellFormed_createActivity, wellFormed_updateProject;
      [now apply wellFormed_withEmail | reflexivity].
  - rewrite (createEmail_missing_after _ _ _ E).
    now apply wellFormed_withEmail.
Qed.

(** ** What the counting methods leave alone and what they move *)

Lemma updateProject_found_fields now id updates s p :
  JsMap.get id (projects s) = Some p ->
  let s' := after (updateProject now id updates) s in
  projects s' = JsMap.set id (mergeProject p updates) (projects s)
  /\ users s' = users s /\ upvotes s' = upvotes s /\ emails s' = emails s
  /\ comments s' = comments s
  /\ userId s' = userId s /\ projectId s' = projectId s
  /\ upvoteId s' = upvoteId s /\ emailId s' = emailId s
  /\ commentId s' = commentId s.
Proof.
  intros H. unfold after. rewrite (updateProject_found _ _ _ _ _ H). simpl.
  destruct (statusUpdated p updates); simpl; repeat split; reflexivity.
Qed.

(** The log after [updateProject] on a stored project of a well-formed
    store: one [status_change] record more if the status moved. *)
Lemma updateProject_found_log now id updates s p :
  wellFormed s = true ->
  JsMap.get id (projects s) = Some p ->
  let s' := after (updateProject now id updates) s in
  activities s' =
    activities s
    ++ map (fun a => (Activity.id a, a))
         (statusChangeLog (activityId s) id now (Project.progressStatus p)
            (spread (Project.progressStatus p)
                    (PartialProject.progressStatus updates)))
  /\ activityId s' =
       activityId s
       + Z.of_nat (List.length
                     (statusChangeLog (activityId s) id now
                        (Project.progressStatus p)
                        (spread (Project.progressStatus p)
                                (PartialProject.progressStatus updates)))).
Proof.
  intros Hwf H. unfold after. rewrite (updateProject_found _ _ _ _ _ H). simpl.
  apply wellFormed_iff in Hwf. destruct Hwf as (_ & _ & _ & _ & Hact & _).
  unfold statusUpdated, statusChangeLog.
  destruct (PartialProject.progressStatus updates) as [st|]; simpl.
  - destruct (progressStatus_eqb st (Project.progressStatus p)); simpl.
    + rewrite app_nil_r. split; [reflexivity | lia].
    + rewrite set_fresh
        by (apply keys_below_get_none with (activityId s); [exact Hact | lia]).
      split; reflexivity.
  - rewrite progressStatus_eqb_refl. simpl. rewrite app_nil_r.
    split; [reflexivity | lia].
Qed.

Lemma createUpvote_found_fields now ins s p :
  JsMap.get (InsertUpvote.projectId ins) (projects s) = Some p ->
  Project.id p = InsertUpvote.projectId ins ->
  let s' := after (createUpvote now ins) s in
  projects s' =
    JsMap.set (InsertUpvote.projectId ins) (mergeProject p (upvotePatch p))
              (projects s)
  /\ upvotes s' =
       JsMap.set (upvoteId s) (upvoteRecord now ins s) (upvotes s)
  /\ emails s' = emails s
  /\ projectId s' = projectId s.
Proof.
  intros H Hid. rewrite (createUpvote_found_after _ _ _ _ H).
  rewrite createActivity_after. simpl.
  assert (H1 : JsMap.get (Project.id p) (projects (withUpvote now ins s))
               = Some p) by (rewrite Hid; exact H).
  destruct (updateProject_found_fields now _ (upvotePatch p) _ _ H1)
    as (Hp & _ & Hu & He & _ & _ & Hn & _).
  rewrite Hp, Hu, He, Hn, Hid. repeat split; reflexivity.
Qed.

Lemma createEmail_found_fields now ins s p :
  JsMap.get (InsertEmail.projectId ins) (projects s) = Some p ->
  Project.id p = InsertEmail.projectId ins ->
  let s' := after (createEmail now ins) s in
  projects s' =
    JsMap.set (InsertEmail.projectId ins) (mergeProject p (emailPatch p))
              (projects s)
  /\ upvotes s' = upvotes s
  /\ emails s' = JsMap.set (emailId s) (emailRecord now ins s) (emails s)
  /\ projectId s' = projectId s.
Proof.
  intros H Hid. rewrite (createEmail_found_after _ _ _ _ H).
  rewrite createActivity_after. simpl.
  assert (H1 : JsMap.get (Project.id p) (projects (withEmail now ins s))
               = Some p) by (rewrite Hid; exact H).
  destruct (updateProject_found_fields now _ (emailPatch p) _ _ H1)
    as (Hp & _ & Hu & He & _ & _ & Hn & _).
  rewrite Hp, Hu, He, Hn, Hid. repeat split; reflexivity.
Qed.

(** ** Counting records *)

Lemma filter_none_below {A} (key : A -> Z) (n k : Z) (l : list A) :
  forallb (fun x => key x <? n) l = true -> n <= k ->
  filter (fun x => key x =? k) l = [].
Proof.
  intros H Hle. induction l as [|x l IH]; simpl in *; [reflexivity|].
  apply andb_true_iff in H as [Hx Hl]. apply Z.ltb_lt in Hx.
  destruct (key x =? k) eqn:E; [apply Z.eqb_eq in E; lia | auto].
Qed.

Lemma count_snoc {A} (key : A -> Z) (k : Z) (l : list A) (x : A) :
  Z.of_nat (List.length (filter (fun y => key y =? k) (l ++ [x]))) =
  Z.of_nat (List.length (filter (fun y => key y =? k) l))
  + (if key x =? k then 1 else 0).
Proof.
  rewrite filter_app, length_app. simpl.
  destruct (key x =? k); simpl; lia.
Qed.

Lemma forallb_snoc {A} (P : A -> bool) (l : list A) (x : A) :
  forallb P (l ++ [x]) = forallb P l && P x.
Proof. rewrite forallb_app. simpl. now rewrite andb_true_r. Qed.

Lemma forallb_below_weaken {A} (key : A -> Z) (n n' : Z) (l : list A) :
  forallb (fun x => key x <? n) l = true -> n <= n' ->
  forallb (fun x => key x <? n') l = true.
Proof.
  rewrite !forallb_forall. intros H Hle x Hin. specialize (H x Hin).
  apply Z.ltb_lt in H. apply Z.ltb_lt. lia.
Qed.

Lemma seeded_fresh k : 4 <= k -> seededUpvotes k = 0 /\ seededEmails k = 0.
Proof.
  intros H. unfold seededUpvotes, seededEmails.
  destruct (Z.eqb_spec k 1); [lia|].
  destruct (Z.eqb_spec k 2); [lia|].
  destruct (Z.eqb_spec k 3); [lia|]. split; reflexivity.
Qed.

Lemma upvoteCount_eq s k :
  upvoteCount s k =
  Z.of_nat (List.length (filter (fun u => Upvote.projectId u =? k)
                                (JsMap.values (upvotes s)))).
Proof. reflexivity. Qed.

Lemma recordsReferAssigned_iff s :
  recordsReferAssigned s = true <->
  forallb (fun u => Upvote.projectId u <? projectId s)
          (JsMap.values (upvotes s)) = true
  /\ forallb (fun e => Email.projectId e <? projectId s)
             (JsMap.values (emails s)) = true.
Proof. unfold recordsReferAssigned. now rewrite andb_true_iff. Qed.

(** ** The invariant of the guarded uses *)

Lemma newMemStorage_projects start :
  projects (newMemStorage start) =
  [(1, sampleProject1 1 start); (2, sampleProject2 2 start);
   (3, sampleProject3 3 start)].
Proof. reflexivity. Qed.

Lemma storeInvariant_new start : storeInvariant (newMemStorage start).
Proof.
  split; [reflexivity|]. split; [reflexivity|]. split; [simpl; lia|].
  intros k p. rewrite newMemStorage_projects. cbn [JsMap.get].
  destruct (Z.eqb_spec 1 k) as [<-|_];
    [intros [= <-]; repeat split|].
  destruct (Z.eqb_spec 2 k) as [<-|_];
    [intros [= <-]; repeat split|].
  destruct (Z.eqb_spec 3 k) as [<-|_];
    [intros [= <-]; repeat split|].
  discriminate.
Qed.

(** A method that touches neither the projects, nor the two record
    collections, nor the project counter keeps the invariant. *)
Lemma storeInvariant_frame s s' :
  wellFormed s' = true ->
  projects s' = projects s -> upvotes s' = upvotes s ->
  emails s' = emails s -> projectId s' = projectId s ->
  storeInvariant s -> storeInvariant s'.
Proof.
  intros Hwf Hp Hu He Hn (_ & Hrefs & Hfour & Htrack).
  split; [exact Hwf|]. split; [|split].
  - unfold recordsReferAssigned in *. now rewrite Hu, He, Hn.
  - now rewrite Hn.
  - intros k p. rewrite Hp. intros Hget.
    unfold upvoteCount, emailCount, result, getUpvotesByProject, gets. simpl.
    rewrite Hu, He. exact (Htrack k p Hget).
Qed.

Lemma storeInvariant_createProject now ip s :
  storeInvariant s -> storeInvariant (after (createProject now ip) s).
Proof.
  intros (Hwf & Hrefs & Hfour & Htrack).
  split; [now apply wellFormed_createProject|].
  apply recordsReferAssigned_iff in Hrefs as [Hup Hem].
  split; [|split].
  - apply recordsReferAssigned_iff. run_store. split.
    + apply forallb_below_weaken with (projectId s); [exact Hup | lia].
    + apply forallb_below_weaken with (projectId s); [exact Hem | lia].
  - run_store. lia.
  - intros k p. run_store. rewrite get_set.
    destruct (Z.eqb_spec (projectId s) k) as [<-|Hne].
    + intros [= <-]. simpl.
      destruct (seeded_fresh (projectId s) Hfour) as [-> ->].
      unfold upvoteCount, emailCount. run_store.
      rewrite (filter_none_below Upvote.projectId (projectId s)) by (auto; lia).
      rewrite (filter_none_below Email.projectId (projectId s)) by (auto; lia).
      repeat split.
    + intros Hget. exact (Htrack k p Hget).
Qed.

Lemma storeInvariant_createUpvote now ins s :
  storeInvariant s ->
  guarded s (OpCreateUpvote ins) = true ->
  storeInvariant (after (createUpvote now ins) s).
Proof.
  intros (Hwf & Hrefs & Hfour & Htrack) Hg. simpl in Hg.
  destruct (JsMap.get (InsertUpvote.projectId ins) (projects s))
    as [p0|] eqn:Hget0; [clear Hg | discriminate].
  destruct (wellFormed_get _ _ _ Hwf Hget0) as [Hid Hlt].
  destruct (createUpvote_found_fields now ins s p0 Hget0 Hid)
    as (Hp & Hu & He & Hn).
  assert (Hfresh : JsMap.get (upvoteId s) (upvotes s) = None).
  { apply wellFormed_iff in Hwf. destruct Hwf as (_ & _ & Hk & _).
    apply keys_below_get_none with (upvoteId s); [exact Hk | lia]. }
  apply recordsReferAssigned_iff in Hrefs as [Hup Hem].
  split; [now apply wellFormed_createUpvote|]. split; [|split].
  - apply recordsReferAssigned_iff. rewrite Hu, He, Hn.
    rewrite (values_set_fresh _ _ _ Hfresh), forallb_snoc, Hup. simpl.
    split; [now apply Z.ltb_lt | exact Hem].
  - now rewrite Hn.
  - intros k p. rewrite Hp, get_set.
    unfold emailCount. rewrite He. fold (emailCount s k).
    rewrite upvoteCount_eq, Hu, (values_set_fresh _ _ _ Hfresh), count_snoc.
    rewrite <- upvoteCount_eq. simpl.
    destruct (Z.eqb_spec (InsertUpvote.projectId ins) k) as [<-|Hne].
    + intros [= <-]. simpl.
      destruct (Htrack _ _ Hget0) as (_ & Hcu & Hce).
      repeat split; [exact Hid | lia | exact Hce].
    + intros Hget. destruct (Htrack _ _ Hget) as (Hi & Hcu & Hce).
      repeat split; [exact Hi | lia | exact Hce].
Qed.

Lemma storeInvariant_createEmail now ins s :
  storeInvariant s ->
  guarded s (OpCreateEmail ins) = true ->
  storeInvariant (after (createEmail now ins) s).
Proof.
  intros (Hwf & Hrefs & Hfour & Htrack) Hg. simpl in Hg.
  destruct (JsMap.get (InsertEmail.projectId ins) (projects s))
    as [p0|] eqn:Hget0; [clear Hg | discriminate].
  destruct (wellFormed_get _ _ _ Hwf Hget0) as [Hid Hlt].
  destruct (createEmail_found_fields now ins s p0 Hget0 Hid)
    as (Hp & Hu & He & Hn).
  assert (Hfresh : JsMap.get (emailId s) (emails s) = None).
  { apply wellFormed_iff in Hwf. destruct Hwf as (_ & _ & _ & Hk & _).
    apply keys_below_get_none with (emailId s); [exact Hk | lia]. }
  apply recordsReferAssigned_iff in Hrefs as [Hup Hem].
  split; [now apply wellFormed_createEmail|]. split; [|split].
  - apply recordsReferAssigned_iff. rewrite Hu, He, Hn.
    rewrite (values_set_fresh _ _ _ Hfresh), forallb_snoc, Hem. simpl.
    split; [exact Hup | now apply Z.ltb_lt].
  - now rewrite Hn.
  - intros k p. rewrite Hp, get_set.
    rewrite upvoteCount_eq, Hu, <- upvoteCount_eq.
    unfold emailCount.
    rewrite He, (values_set_fresh _ _ _ Hfresh), count_snoc.
    fold (emailCount s k). simpl.
    destruct (Z.eqb_spec (InsertEmail.projectId ins) k) as [<-|Hne].
    + intros [= <-]. simpl.
      destruct (Htrack _ _ Hget0) as (_ & Hcu & Hce).
      repeat split; [exact Hid | exact Hcu | lia].
    + intros Hget. destruct (Htrack _ _ Hget) as (Hi & Hcu & Hce).
      repeat split; [exact Hi | exact Hcu | lia].
Qed.

Lemma storeInvariant_exec now op s :
  storeInvariant s -> guarded s op = true -> storeInvariant (exec now op s).
Proof.
  intros Hinv Hg. destruct op; simpl exec.
  - apply storeInvariant_frame with s; try reflexivity; [|exact Hinv].
    apply wellFormed_createUser, Hinv.
  - now apply storeInvariant_createProject.
  - discriminate.
  - now apply storeInvariant_createUpvote.
  - now apply storeInvariant_createEmail.
  - apply storeInvariant_frame with s; try reflexivity; [|exact Hinv].
    apply wellFormed_createActivity, Hinv.
  - apply storeInvariant_frame with s; try reflexivity; [|exact Hinv].
    apply wellFormed_createComment, Hinv.
Qed.

Lemma reachable_invariant start s : reachable start s -> storeInvariant s.
Proof.
  induction 1 as [|s now op _ IH Hg].
  - apply storeInvariant_new.
  - now apply storeInvariant_exec.
Qed.

(** ** Request handlers use the store within the guard *)

Lemma getProjectsRoute_after search issueType status0 s :
  after (getProjectsRoute search issueType status0) s = s.
Proof.
  unfold getProjectsRoute.
  destruct (queryString search), (queryString issueType),
    (queryString status0); reflexivity.
Qed.

Lemma getProjectRoute_after id s : after (getProjectRoute id) s = s.
Proof.
  unfold getProjectRoute. destruct id as [id|]; [|reflexivity].
  unfold after, bind, getProjectById, gets. simpl.
  destruct (JsMap.get id (projects s)); reflexivity.
Qed.

Lemma upvoteRoute_eq now projectId ip remote s :
  upvoteRoute now (Some projectId) ip remote s =
  match JsMap.get projectId (projects s) with
  | None => (mkResponse 404 (BodyMessage "Project not found"), s)
  | Some _ =>
      if result (hasUserUpvoted projectId (clientAddress ip remote)) s
      then (mkResponse 400
              (BodyMessage "You have already upvoted this project"), s)
      else
        let s' :=
          after (createUpvote now
                   {| InsertUpvote.projectId := projectId;
                      InsertUpvote.userId := None;
                      InsertUpvote.ipAddress := clientAddress ip remote |}) s
        in (mkResponse 200 (BodyProject (JsMap.get projectId (projects s'))),
            s')
  end.
Proof.
  unfold upvoteRoute, bind, getProjectById, hasUserUpvoted, gets, ret, result.
  simpl.
  destruct (JsMap.get projectId (projects s)); [|reflexivity].
  destruct (existsb _ (JsMap.values (upvotes s))); reflexivity.
Qed.

Lemma upvoteRoute_cases now id ip remote s :
  (after (upvoteRoute now id ip remote) s = s
   /\ status (result (upvoteRoute now id ip remote) s) <> 200)
  \/ exists projectId project,
       id = Some projectId
       /\ JsMap.get projectId (projects s) = Some project
       /\ result (hasUserUpvoted projectId (clientAddress ip remote)) s = false
       /\ after (upvoteRoute now id ip remote) s =
          after (createUpvote now
                   {| InsertUpvote.projectId := projectId;
                      InsertUpvote.userId := None;
                      InsertUpvote.ipAddress := clientAddress ip remote |}) s
       /\ status (result (upvoteRoute now id ip remote) s) = 200.
Proof.
  destruct id as [projectId|].
  2:{ left. split; [reflexivity | simpl; lia]. }
  pose proof (f_equal snd (upvoteRoute_eq now projectId ip remote s)) as Ha.
  pose proof (f_equal fst (upvoteRoute_eq now projectId ip remote s)) as Hr.
  change (snd (upvoteRoute now (Some projectId) ip remote s))
    with (after (upvoteRoute now (Some projectId) ip remote) s) in Ha.
  change (fst (upvoteRoute now (Some projectId) ip remote s))
    with (result (upvoteRoute now (Some projectId) ip remote) s) in Hr.
  rewrite Ha, Hr. clear Ha Hr.
  destruct (JsMap.get projectId (projects s)) as [project|] eqn:Hget.
  2:{ left. split; [reflexivity | simpl; lia]. }
  destruct (result (hasUserUpvoted projectId (clientAddress ip remote)) s)
    eqn:Hdup.
  - left. split; [reflexivity | simpl; lia].
  - right. exists projectId, project.
    repeat split; try reflexivity; assumption.
Qed.

Lemma sendEmailRoute_eq simulate now transport validatedData s :
  sendEmailRoute simulate now transport (Valid validatedData) s =
  match JsMap.get (InsertEmail.projectId validatedData) (projects s) with
  | None => (mkResponse 404 (BodyMessage "Project not found"), s)
  | Some _ =>
      if SendResult.success (sendEmail simulate transport)
      then (mkResponse 201 (BodyEmail (result (createEmail now validatedData) s)),
            after (createEmail now validatedData) s)
      else (mkResponse 500
              (BodyMessage (SendResult.message (sendEmail simulate transport))),
            s)
  end.
Proof.
  unfold sendEmailRoute, bind, getProjectById, gets, ret. simpl.
  destruct (JsMap.get _ (projects s)); [|reflexivity].
  destruct (SendResult.success (sendEmail simulate transport)); reflexivity.
Qed.

Lemma sendEmailRoute_cases simulate now transport body0 s :
  after (sendEmailRoute simulate now transport body0) s = s
  \/ exists validatedData project,
       body0 = Valid validatedData
       /\ JsMap.get (InsertEmail.projectId validatedData) (projects s)
          = Some project
       /\ SendResult.success (sendEmail simulate transport) = true
       /\ after (sendEmailRoute simulate now transport body0) s =
          after (createEmail now validatedData) s.
Proof.
  destruct body0 as [validatedData|message].
  2:{ left. reflexivity. }
  pose proof (f_equal snd
                (sendEmailRoute_eq simulate now transport validatedData s))
    as Ha.
  change (snd (sendEmailRoute simulate now transport (Valid validatedData) s))
    with (after (sendEmailRoute simulate now transport (Valid validatedData)) s)
    in Ha.
  rewrite Ha. clear Ha.
  destruct (JsMap.get (InsertEmail.projectId validatedData) (projects s))
    as [project|] eqn:Hget.
  2:{ left. reflexivity. }
  destruct (SendResult.success (sendEmail simulate transport)) eqn:Hsent; simpl.
  - right. exists validatedData, project.
    repeat split; try reflexivity; assumption.
  - left. reflexivity.
Qed.

Lemma handle_step simulate now request s :
  after (handle simulate now request) s = s
  \/ exists op,
       guarded s op = true
       /\ after (handle simulate now request) s = exec now op s.
Proof.
  destruct request as [search issueType status0 | id | body0 | transport body0
                      | id ip remote | | limit]; simpl handle.
  - left. apply getProjectsRoute_after.
  - left. apply getProjectRoute_after.
  - destruct body0 as [validatedData|message]; [|left; reflexivity].
    right. exists (OpCreateProject validatedData). split; reflexivity.
  - destruct (sendEmailRoute_cases simulate now transport body0 s)
      as [Hsame | (d & p & _ & Hget & _ & Hafter)]; [now left|].
    right. exists (OpCreateEmail d).
    split; [simpl; now rewrite Hget | exact Hafter].
  - destruct (upvoteRoute_cases now id ip remote s)
      as [[Hsame _] | (k & p & _ & Hget & _ & Hafter & _)]; [now left|].
    right.
    exists (OpCreateUpvote
              {| InsertUpvote.projectId := k;
                 InsertUpvote.userId := None;
                 InsertUpvote.ipAddress := clientAddress ip remote |}).
    split; [simpl; now rewrite Hget | exact Hafter].
  - left. reflexivity.
  - left. reflexivity.
Qed.

Lemma serve_reachable start simulate requests s :
  reachable start s -> reachable start (serve simulate requests s).
Proof.
  revert s. induction requests as [|[now request] requests IH]; intros s Hs.
  - exact Hs.
  - simpl. apply IH.
    destruct (handle_step simulate now request s) as [-> | (op & Hg & ->)].
    + exact Hs.
    + now apply reachable_exec.
Qed.

(** ** Counters and records (C2) *)

(** C2, at the constructed store: the first sample project is built
    with [upvotes: 45] and [emailsSent: 38] while the store holds no
    [Upvote] and no [Email] record, so the counters do not equal the
    numbers of records there. *)
Lemma counters_differ_at_construction : ~ countersConsistent (newMemStorage 0).
Proof.
  intros H.
  destruct (H 1 (sampleProject1 1 0) eq_refl) as [Hup _].
  vm_compute in Hup. discriminate.
Qed.

(** C2, as the code has it: in every store that arises from the
    constructed one by the request handlers, or by the uses of the store
    they make (no [updateProject] from outside, [createUpvote] and
    [createEmail] for stored projects only), each project is stored
    under its identifier, and its [upvotes] and [emailsSent] equal the
    numbers of [Upvote] and [Email] records that refer to it plus what
    it was constructed with: 45, 23, 67 upvotes and 38, 12, 52 emails
    for the sample projects 1, 2, 3, and 0 for a submitted project. *)
Theorem counters_track_records start s simulate requests :
  reachable start s -> countersTrack (serve simulate requests s).
Proof.
  intros Hs.
  apply (reachable_invariant start).
  now apply serve_reachable.
Qed.

Lemma counters_track_records_witness :
  countersTrack
    (serve true
       [(10, PostUpvote (Some 2) (Some "1.2.3.4") None);
        (20, PostSendEmail Delivered
               (Valid {| InsertEmail.projectId := 2;
                         InsertEmail.senderEmail := None;
                         InsertEmail.senderName := Some "Maria Lopez";
                         InsertEmail.customContent := None |}))]
       (exec 5 (OpCreateComment
                  {| InsertComment.projectId := 1;
                     InsertComment.text := "Seen it too.";
                     InsertComment.commenterName := "Lee" |})
             (newMemStorage 0))).
Proof.
  apply (counters_track_records 0).
  apply reachable_exec; [apply reachable_new | reflexivity].
Defined.

(** Outside the guard the tracking is lost as well: an upvote recorded
    for identifier 4 before the project with that identifier is
    submitted leaves the new project with one record and a counter of 0. *)
Lemma unguarded_upvote_breaks_tracking :
  let s :=
    exec 2 (OpCreateProject
              {| InsertProject.title := "Dark corner";
                 InsertProject.description := "No light";
                 InsertProject.issueType := streetlight;
                 InsertProject.location := "Elm Street";
                 InsertProject.latitude := "0";
                 InsertProject.longitude := "0";
                 InsertProject.urgencyLevel := None;
                 InsertProject.contactEmail := None;
                 InsertProject.emailTemplate := "t";
                 InsertProject.emailSubject := "s";
                 InsertProject.emailRecipient := "r";
                 InsertProject.createdBy := None |})
      (exec 1 (OpCreateUpvote
                 {| InsertUpvote.projectId := 4;
                    InsertUpvote.userId := None;
                    InsertUpvote.ipAddress := "1.2.3.4" |})
            (newMemStorage 0)) in
  option_map Project.upvotes (JsMap.get 4 (projects s)) = Some 0
  /\ upvoteCount s 4 = 1.
Proof. split; reflexivity. Qed.

(** ** What every use of the store keeps *)

Lemma In_values_set {V} (m : JsMap.t V) k v :
  In v (JsMap.values (JsMap.set k v m)).
Proof.
  induction m as [|[j w] m IH]; simpl; [now left|].
  destruct (j =? k); simpl; [now left | now right].
Qed.

Lemma In_values_set_fresh {V} (m : JsMap.t V) k v x :
  JsMap.get k m = None ->
  In x (JsMap.values m) -> In x (JsMap.values (JsMap.set k v m)).
Proof.
  intros H Hin. rewrite (values_set_fresh _ _ _ H).
  apply in_or_app. now left.
Qed.

Lemma wellFormed_exec now op s :
  wellFormed s = true -> guarded s op = true ->
  wellFormed (exec now op s) = true.
Proof.
  intros H Hg. destruct op; simpl exec.
  - now apply wellFormed_createUser.
  - now apply wellFormed_createProject.
  - discriminate.
  - now apply wellFormed_createUpvote.
  - now apply wellFormed_createEmail.
  - now apply wellFormed_createActivity.
  - now apply wellFormed_createComment.
Qed.

Lemma upvoteId_fresh s :
  wellFormed s = true -> JsMap.get (upvoteId s) (upvotes s) = None.
Proof.
  intros H. apply wellFormed_iff in H. destruct H as (_ & _ & Hk & _).
  apply keys_below_get_none with (upvoteId s); [exact Hk | lia].
Qed.

Lemma activityId_fresh s :
  wellFormed s = true -> JsMap.get (activityId s) (activities s) = None.
Proof.
  intros H. apply wellFormed_iff in H. destruct H as (_ & _ & _ & _ & Hk & _).
  apply keys_below_get_none with (activityId s); [exact Hk | lia].
Qed.

(** Upvote records are never lost. *)
Lemma exec_upvotes_kept now op s u :
  wellFormed s = true ->
  In u (JsMap.values (upvotes s)) ->
  In u (JsMap.values (upvotes (exec now op s))).
Proof.
  intros Hwf Hin. destruct op as [iu|ip|id updates|ins|ins|ia|ic]; simpl exec;
    try exact Hin.
  - destruct (JsMap.get id (projects s)) as [p|] eqn:Hget.
    + destruct (updateProject_found_fields now id updates s p Hget)
        as (_ & _ & -> & _). exact Hin.
    + rewrite (updateProject_none_after now id updates s Hget).
      exact Hin.
  - destruct (JsMap.get (InsertUpvote.projectId ins) (projects s))
      as [p|] eqn:Hget.
    + destruct (wellFormed_get _ _ _ Hwf Hget) as [Hid _].
      destruct (createUpvote_found_fields now ins s p Hget Hid)
        as (_ & -> & _).
      apply In_values_set_fresh; [now apply upvoteId_fresh | exact Hin].
    + rewrite (createUpvote_missing_after _ _ _ Hget).
      unfold withUpvote, set_upvotes. simpl.
      apply In_values_set_fresh; [now apply upvoteId_fresh | exact Hin].
  - destruct (JsMap.get (InsertEmail.projectId ins) (projects s))
      as [p|] eqn:Hget.
    + destruct (wellFormed_get _ _ _ Hwf Hget) as [Hid _].
      destruct (createEmail_found_fields now ins s p Hget Hid)
        as (_ & -> & _). exact Hin.
    + rewrite (createEmail_missing_after _ _ _ Hget). exact Hin.
Qed.

(** Projects are never removed. *)
Lemma exec_projects_kept now op s k :
  wellFormed s = true ->
  JsMap.get k (projects s) <> None ->
  JsMap.get k (projects (exec now op s)) <> None.
Proof.
  intros Hwf Hk. destruct op as [iu|ip|id updates|ins|ins|ia|ic]; simpl exec;
    try exact Hk.
  - run_store. rewrite get_set. destruct (projectId s =? k); [discriminate|].
    exact Hk.
  - destruct (JsMap.get id (projects s)) as [p|] eqn:Hget.
    + destruct (updateProject_found_fields now id updates s p Hget)
        as (-> & _).
      rewrite get_set. destruct (id =? k); [discriminate | exact Hk].
    + rewrite (updateProject_none_after now id updates s Hget).
      exact Hk.
  - destruct (JsMap.get (InsertUpvote.projectId ins) (projects s))
      as [p|] eqn:Hget.
    + destruct (wellFormed_get _ _ _ Hwf Hget) as [Hid _].
      destruct (createUpvote_found_fields now ins s p Hget Hid) as (-> & _).
      rewrite get_set.
      destruct (InsertUpvote.projectId ins =? k); [discriminate | exact Hk].
    + rewrite (createUpvote_missing_after _ _ _ Hget). exact Hk.
  - destruct (JsMap.get (InsertEmail.projectId ins) (projects s))
      as [p|] eqn:Hget.
    + destruct (wellFormed_get _ _ _ Hwf Hget) as [Hid _].
      destruct (createEmail_found_fields now ins s p Hget Hid) as (-> & _).
      rewrite get_set.
      destruct (InsertEmail.projectId ins =? k); [discriminate | exact Hk].
    + rewrite (createEmail_missing_after _ _ _ Hget). exact Hk.
Qed.

Lemma serve_keeps simulate requests s :
  wellFormed s = true ->
  wellFormed (serve simulate requests s) = true
  /\ (forall u, In u (JsMap.values (upvotes s)) ->
                In u (JsMap.values (upvotes (serve simulate requests s))))
  /\ (forall k, JsMap.get k (projects s) <> None ->
                JsMap.get k (projects (serve simulate requests s)) <> None).
Proof.
  revert s. induction requests as [|[now request] requests IH]; intros s Hwf.
  - simpl. auto.
  - simpl.
    destruct (handle_step simulate now request s) as [-> | (op & Hg & ->)].
    + now apply IH.
    + destruct (IH (exec now op s) (wellFormed_exec _ _ _ Hwf Hg))
        as (Hwf' & Hup & Hpr).
      split; [exact Hwf'|]. split.
      * intros u Hu. apply Hup. now apply exec_upvotes_kept.
      * intros k Hk. apply Hpr. now apply exec_projects_kept.
Qed.

(** ** Duplicate upvotes (C4) *)

Lemma hasUserUpvoted_true s projectId ipAddress :
  result (hasUserUpvoted projectId ipAddress) s = true <->
  exists u,
    In u (JsMap.values (upvotes s))
    /\ Upvote.projectId u = projectId /\ Upvote.ipAddress u = ipAddress.
Proof.
  unfold result, hasUserUpvoted, gets. simpl. rewrite existsb_exists.
  split; intros (u & Hin & H); exists u; (split; [exact Hin|]).
  - apply andb_true_iff in H as [H1 H2].
    apply Z.eqb_eq in H1. apply String.eqb_eq in H2. now split.
  - destruct H as [-> ->]. now rewrite Z.eqb_refl, String.eqb_refl.
Qed.

(** A pair that has upvoted makes the handler answer with an error and
    hand back the store as it was. *)
Lemma upvoteRoute_duplicate now projectId ip remote s :
  result (hasUserUpvoted projectId (clientAddress ip remote)) s = true ->
  upvoteRoute now (Some projectId) ip remote s =
  (match JsMap.get projectId (projects s) with
   | Some _ =>
       mkResponse 400 (BodyMessage "You have already upvoted this project")
   | None => mkResponse 404 (BodyMessage "Project not found")
   end, s).
Proof.
  intros H. rewrite upvoteRoute_eq, H.
  destruct (JsMap.get projectId (projects s)); reflexivity.
Qed.

(** C4: once the handler has accepted an upvote for a project from an
    address (it answered 200), then after any further requests the pair
    is on record, and another attempt for the same project from the same
    address is answered with 400 "You have already upvoted this project"
    and leaves the store exactly as it was: the counter of the project
    and the number of its Upvote records are what they were. *)
Theorem duplicate_upvote_refused
    simulate now now' projectId ip remote ip' remote' requests s :
  wellFormed s = true ->
  status (result (upvoteRoute now (Some projectId) ip remote) s) = 200 ->
  clientAddress ip' remote' = clientAddress ip remote ->
  let accepted := after (upvoteRoute now (Some projectId) ip remote) s in
  let later := serve simulate requests accepted in
  let again := after (upvoteRoute now' (Some projectId) ip' remote') later in
  result (hasUserUpvoted projectId (clientAddress ip remote)) later = true
  /\ result (upvoteRoute now' (Some projectId) ip' remote') later =
     mkResponse 400 (BodyMessage "You have already upvoted this project")
  /\ again = later
  /\ JsMap.get projectId (projects again) = JsMap.get projectId (projects later)
  /\ upvoteCount again projectId = upvoteCount later projectId.
Proof.
  intros Hwf H200 Haddr accepted later again.
  destruct (upvoteRoute_cases now (Some projectId) ip remote s)
    as [[_ Hno] | (k & p & [= <-] & Hget & _ & Hafter & _)];
    [contradiction|].
  destruct (wellFormed_get _ _ _ Hwf Hget) as [Hid _].
  set (ins := {| InsertUpvote.projectId := projectId;
                 InsertUpvote.userId := None;
                 InsertUpvote.ipAddress := clientAddress ip remote |}) in *.
  destruct (createUpvote_found_fields now ins s p Hget Hid)
    as (Hp & Hu & _).
  assert (Hwf1 : wellFormed accepted = true)
    by (subst accepted; rewrite Hafter; now apply wellFormed_createUpvote).
  destruct (serve_keeps simulate requests accepted Hwf1)
    as (_ & Hup & Hpr). fold later in Hup, Hpr.
  assert (Hrec : result (hasUserUpvoted projectId (clientAddress ip remote))
                   later = true).
  { apply hasUserUpvoted_true. exists (upvoteRecord now ins s).
    split; [|split; reflexivity].
    apply Hup. subst accepted. rewrite Hafter, Hu. apply In_values_set. }
  assert (Hex : JsMap.get projectId (projects later) <> None).
  { apply Hpr. subst accepted. rewrite Hafter, Hp. simpl.
    rewrite get_set_same. discriminate. }
  assert (Heq : upvoteRoute now' (Some projectId) ip' remote' later =
                (mkResponse 400
                   (BodyMessage "You have already upvoted this project"),
                 later)).
  { rewrite upvoteRoute_duplicate by (rewrite Haddr; exact Hrec).
    destruct (JsMap.get projectId (projects later)); [reflexivity|].
    now contradiction Hex. }
  assert (Hagain : again = later)
    by (subst again; unfold after; now rewrite Heq).
  split; [exact Hrec|]. split; [unfold result; now rewrite Heq|].
  split; [exact Hagain|]. rewrite Hagain. split; reflexivity.
Qed.

Lemma duplicate_upvote_refused_witness :
  let accepted :=
    after (upvoteRoute 10 (Some 7) (Some "1.2.3.4") None)
      (serve true
         (repeat (1, PostProject
                       (Valid {| InsertProject.title := "Dark corner";
                                 InsertProject.description := "No light";
                                 InsertProject.issueType := streetlight;
                                 InsertProject.location := "Elm Street";
                                 InsertProject.latitude := "0";
                                 InsertProject.longitude := "0";
                                 InsertProject.urgencyLevel := None;
                                 InsertProject.contactEmail := None;
                                 InsertProject.emailTemplate := "t";
                                 InsertProject.emailSubject := "s";
                                 InsertProject.emailRecipient := "r";
                                 InsertProject.createdBy := None |}))
                 4%nat)
         (newMemStorage 0)) in
  let later :=
    serve true [(20, PostUpvote (Some 7) (Some "5.6.7.8") None); (30, GetStats)]
      accepted in
  let again :=
    after (upvoteRoute 40 (Some 7) None (Some "1.2.3.4")) later in
  result (hasUserUpvoted 7 "1.2.3.4") later = true
  /\ result (upvoteRoute 40 (Some 7) None (Some "1.2.3.4")) later =
     mkResponse 400 (BodyMessage "You have already upvoted this project")
  /\ again = later
  /\ JsMap.get 7 (projects again) = JsMap.get 7 (projects later)
  /\ upvoteCount again 7 = upvoteCount later 7.
Proof.
  apply (duplicate_upvote_refused true 10 40 7 (Some "1.2.3.4") None
           None (Some "1.2.3.4")
           [(20, PostUpvote (Some 7) (Some "5.6.7.8") None); (30, GetStats)]).
  - reflexivity.
  - reflexivity.
  - reflexivity.
Defined.

(** ** A failed dispatch (C8) *)

Lemma sendEmail_failure simulate transport :
  SendResult.success (sendEmail simulate transport) = false ->
  simulate = false
  /\ exists errorMessage,
       transport = Thrown errorMessage
       /\ SendResult.message (sendEmail simulate transport) =
          ("Failed to send email: "
             ++ match errorMessage with
                | Some m => m
                | None => "Unknown error"
                end)%string.
Proof.
  unfold sendEmail. destruct simulate; [discriminate|].
  destruct transport as [|errorMessage]; [discriminate|].
  intros _. split; [reflexivity|]. now exists errorMessage.
Qed.

(** C8: when the dispatcher reports failure, the handler of
    [/api/send-email] hands back the store it was given, so no Email
    record, no counter and no activity differs, and its answer is a
    message: for a valid request about a stored project it is status 500
    with the dispatcher's own message, which starts with "Failed to send
    email: ". *)
Theorem failed_dispatch_records_nothing simulate now transport body0 s :
  SendResult.success (sendEmail simulate transport) = false ->
  after (sendEmailRoute simulate now transport body0) s = s
  /\ (exists code message,
        result (sendEmailRoute simulate now transport body0) s =
        mkResponse code (BodyMessage message))
  /\ (forall validatedData project,
        body0 = Valid validatedData ->
        JsMap.get (InsertEmail.projectId validatedData) (projects s)
        = Some project ->
        result (sendEmailRoute simulate now transport body0) s =
        mkResponse 500
          (BodyMessage (SendResult.message (sendEmail simulate transport))))
  /\ (exists reason,
        SendResult.message (sendEmail simulate transport) =
        ("Failed to send email: " ++ reason)%string).
Proof.
  intros Hfail.
  destruct (sendEmail_failure _ _ Hfail) as (_ & err & _ & Hmsg).
  assert (Hreason : exists reason,
             SendResult.message (sendEmail simulate transport) =
             ("Failed to send email: " ++ reason)%string) by eauto.
  destruct body0 as [validatedData|message].
  - unfold after, result. rewrite sendEmailRoute_eq, Hfail.
    destruct (JsMap.get (InsertEmail.projectId validatedData) (projects s))
      as [project|] eqn:Hget; simpl.
    + split; [reflexivity|]. split; [do 2 eexists; reflexivity|].
      split; [|exact Hreason].
      intros d p [= <-] _. reflexivity.
    + split; [reflexivity|]. split; [do 2 eexists; reflexivity|].
      split; [|exact Hreason].
      intros d p [= <-] Hd. congruence.
  - split; [reflexivity|]. split; [do 2 eexists; reflexivity|].
    split; [|exact Hreason].
    intros d p Hd. discriminate.
Qed.

Lemma failed_dispatch_records_nothing_witness :
  after (sendEmailRoute false 10 (Thrown (Some "connect ECONNREFUSED"))
           (Valid {| InsertEmail.projectId := 2;
                     InsertEmail.senderEmail := Some "a@b.org";
                     InsertEmail.senderName := None;
                     InsertEmail.customContent := None |}))
        (newMemStorage 0) = newMemStorage 0.
Proof.
  refine (proj1 (failed_dispatch_records_nothing false 10
                   (Thrown (Some "connect ECONNREFUSED")) _ (newMemStorage 0) _)).
  reflexivity.
Defined.

(** ** The activity log *)

Lemma activitiesAdded_app s s' (l : list (Z * Activity.t)) :
  activities s' = activities s ++ l -> activitiesAdded s s' = map snd l.
Proof.
  intros H. unfold activitiesAdded, JsMap.values. rewrite H, map_app.
  rewrite skipn_app, length_map, Nat.sub_diag. simpl.
  rewrite skipn_all2 by (rewrite length_map; apply Nat.le_refl).
  reflexivity.
Qed.

Lemma createActivity_log now ia s :
  wellFormed s = true ->
  activities (after (createActivity now ia) s) =
  activities s
  ++ [(activityId s,
       {| Activity.id := activityId s;
          Activity.projectId := InsertActivity.projectId ia;
          Activity.activityType := InsertActivity.activityType ia;
          Activity.actorName := string_or_null (InsertActivity.actorName ia);
          Activity.description := InsertActivity.description ia;
          Activity.createdAt := now |})].
Proof.
  intros Hwf. rewrite createActivity_after. simpl.
  now rewrite set_fresh by now apply activityId_fresh.
Qed.

Lemma map_id_snd (l : list Activity.t) :
  map snd (map (fun a => (Activity.id a, a)) l) = l.
Proof. rewrite map_map. simpl. apply map_id. Qed.

(** The log after an upvote for a stored project. *)
Lemma createUpvote_found_log now ins s p :
  wellFormed s = true ->
  JsMap.get (InsertUpvote.projectId ins) (projects s) = Some p ->
  let moved :=
    statusChangeLog (activityId s) (Project.id p) now
      (Project.progressStatus p) (Project.progressStatus (upvoted p)) in
  activities (after (createUpvote now ins) s) =
  activities s
  ++ map (fun a => (Activity.id a, a))
       (moved
        ++ [upvoteLogged (activityId s + Z.of_nat (List.length moved)) now p]).
Proof.
  intros Hwf Hget moved.
  destruct (wellFormed_get _ _ _ Hwf Hget) as [Hid _].
  rewrite (createUpvote_found_after _ _ _ _ Hget).
  assert (Hwf1 : wellFormed (withUpvote now ins s) = true)
    by now apply wellFormed_withUpvote.
  assert (Hget1 : JsMap.get (Project.id p) (projects (withUpvote now ins s))
                  = Some p) by (rewrite Hid; exact Hget).
  destruct (updateProject_found_log now _ (upvotePatch p) _ _ Hwf1 Hget1)
    as [Hlog Hnext].
  rewrite createActivity_log
    by (apply wellFormed_updateProject; [exact Hwf1 | reflexivity]).
  rewrite Hlog, Hnext. simpl. fold moved.
  rewrite map_app, app_assoc. reflexivity.
Qed.

Lemma string_or_truthy x fallback :
  fallback <> "" ->
  string_or_null (Some (string_or x fallback)) = Some (string_or x fallback).
Proof.
  intros H. unfold string_or.
  destruct x as [[|c r]|]; simpl; try reflexivity;
    destruct fallback; [contradiction | reflexivity | contradiction | reflexivity].
Qed.

Lemma createEmail_found_log now ins s p :
  wellFormed s = true ->
  JsMap.get (InsertEmail.projectId ins) (projects s) = Some p ->
  let moved :=
    statusChangeLog (activityId s) (Project.id p) now
      (Project.progressStatus p) (Project.progressStatus (emailed p)) in
  activities (after (createEmail now ins) s) =
  activities s
  ++ map (fun a => (Activity.id a, a))
       (moved
        ++ [emailLogged (activityId s + Z.of_nat (List.length moved)) now
              (string_or_null (InsertEmail.senderName ins)) p]).
Proof.
  intros Hwf Hget moved.
  destruct (wellFormed_get _ _ _ Hwf Hget) as [Hid _].
  rewrite (createEmail_found_after _ _ _ _ Hget).
  assert (Hwf1 : wellFormed (withEmail now ins s) = true)
    by now apply wellFormed_withEmail.
  assert (Hget1 : JsMap.get (Project.id p) (projects (withEmail now ins s))
                  = Some p) by (rewrite Hid; exact Hget).
  destruct (updateProject_found_log now _ (emailPatch p) _ _ Hwf1 Hget1)
    as [Hlog Hnext].
  rewrite createActivity_log
    by (apply wellFormed_updateProject; [exact Hwf1 | reflexivity]).
  rewrite Hlog, Hnext.
  cbn [emailActivity InsertActivity.actorName InsertActivity.projectId
       InsertActivity.activityType InsertActivity.description].
  rewrite string_or_truthy by discriminate.
  simpl. fold moved.
  rewrite map_app, app_assoc. reflexivity.
Qed.

Lemma createComment_eq now ins s :
  createComment now ins s =
  (commentRecord now ins s,
   mkStore (users s) (projects s) (upvotes s) (emails s)
     (JsMap.set (activityId s)
        (commentLogged (activityId s) now ins
           (option_map Project.title
              (JsMap.get (InsertComment.projectId ins) (projects s))))
        (activities s))
     (JsMap.set (commentId s) (commentRecord now ins s) (comments s))
     (userId s) (projectId s) (upvoteId s) (emailId s) (activityId s + 1)
     (commentId s + 1)).
Proof. reflexivity. Qed.

Lemma statusChangeLog_moved id projectId now old new :
  old <> new ->
  statusChangeLog id projectId now old new =
  [statusChangeActivity id projectId now new].
Proof.
  intros H. unfold statusChangeLog.
  destruct (progressStatus_eqb new old) eqn:E; [|reflexivity].
  apply progressStatus_eqb_eq in E. congruence.
Qed.

Lemma statusChangeLog_same id projectId now st :
  statusChangeLog id projectId now st st = [].
Proof. unfold statusChangeLog. now rewrite progressStatus_eqb_refl. Qed.

(** C9, on [updateProject] called from outside: [{ upvotes: 46 }] for
    the first sample project moves its counter from 45 to 46 and leaves
    the activity log as it was. *)
Lemma direct_update_is_not_logged :
  let s := newMemStorage 0 in
  let s' := after (updateProject 5 1 (onlyUpvotes 46)) s in
  option_map Project.upvotes (JsMap.get 1 (projects s)) = Some 45
  /\ option_map Project.upvotes (JsMap.get 1 (projects s')) = Some 46
  /\ activitiesAdded s s' = []
  /\ activities s' = activities s.
Proof.
  intros s s'. subst s s'.
  split; [|split; [|split]]; vm_compute; reflexivity.
Qed.

(** Binary64 at the edge of the safe integers: 1 added to 2^53 - 1 is
    2^53, and 1 added to 2^53 is 2^53 again. *)
Lemma number_add_at_the_edge :
  number_add (number MAX_SAFE_INTEGER) (number 1) = number (2 ^ 53)
  /\ number_add (number (2 ^ 53)) (number 1) = number (2 ^ 53)
  /\ isSafeInteger MAX_SAFE_INTEGER = true
  /\ isSafeInteger (2 ^ 53) = false.
Proof.
  split; [|split; [|split]]; vm_compute; reflexivity.
Qed.

(** C9, as the code has it: in a well-formed store whose activity
    counter is a safe integer, each method that changes a counter or
    the status of a stored project appends to the activity log these
    records, all referring to the project, and no others:
    - [createUpvote], for a project whose [upvotes] is a safe integer,
      raises [upvotes] by one, sets the status to the re-evaluated one,
      and appends one [upvote] record, preceded by one [status_change]
      record if and only if the status moved;
    - [createEmail] does the same with [emailsSent] and one [email_sent]
      record;
    - [updateProject], given updates whose properties hold values,
      appends one [status_change] record if the stored status differs
      from the one before, and nothing otherwise, whatever else it
      overrides;
    - [createComment] changes no project and appends one
      [comment_added] record;
    and a [status_change] record is described as "Project status updated
    to: " followed by the new status. *)
Theorem mutations_are_logged now s :
  wellFormed s = true ->
  isSafeInteger (activityId s) = true ->
  (forall ins p,
      JsMap.get (InsertUpvote.projectId ins) (projects s) = Some p ->
      isSafeInteger (Project.upvotes p) = true ->
      let s' := after (createUpvote now ins) s in
      let moved :=
        statusChangeLog (activityId s) (Project.id p) now
          (Project.progressStatus p) (Project.progressStatus (upvoted p)) in
      JsMap.get (InsertUpvote.projectId ins) (projects s') = Some (upvoted p)
      /\ Project.upvotes (upvoted p) = Project.upvotes p + 1
      /\ Project.emailsSent (upvoted p) = Project.emailsSent p
      /\ Project.progressStatus (upvoted p) =
         determineProgressStatus (Project.upvotes p + 1)
           (Project.emailsSent p) (Project.progressStatus p)
      /\ activitiesAdded s s' =
         moved
         ++ [upvoteLogged (activityId s + Z.of_nat (List.length moved)) now p])
  /\ (forall ins p,
         JsMap.get (InsertEmail.projectId ins) (projects s) = Some p ->
         isSafeInteger (Project.emailsSent p) = true ->
         let s' := after (createEmail now ins) s in
         let moved :=
           statusChangeLog (activityId s) (Project.id p) now
             (Project.progressStatus p) (Project.progressStatus (emailed p)) in
         JsMap.get (InsertEmail.projectId ins) (projects s') = Some (emailed p)
         /\ Project.upvotes (emailed p) = Project.upvotes p
         /\ Project.emailsSent (emailed p) = Project.emailsSent p + 1
         /\ Project.progressStatus (emailed p) =
            determineProgressStatus (Project.upvotes p)
              (Project.emailsSent p + 1) (Project.progressStatus p)
         /\ activitiesAdded s s' =
            moved
            ++ [emailLogged (activityId s + Z.of_nat (List.length moved)) now
                  (string_or_null (InsertEmail.senderName ins)) p])
  /\ (forall id updates p,
         JsMap.get id (projects s) = Some p ->
         let s' := after (updateProject now id updates) s in
         JsMap.get id (projects s') = Some (mergeProject p updates)
         /\ activitiesAdded s s' =
            statusChangeLog (activityId s) id now (Project.progressStatus p)
              (Project.progressStatus (mergeProject p updates)))
  /\ (forall ins,
         let s' := after (createComment now ins) s in
         projects s' = projects s
         /\ activitiesAdded s s' =
            [commentLogged (activityId s) now ins
               (option_map Project.title
                  (JsMap.get (InsertComment.projectId ins) (projects s)))])
  /\ (forall id projectId old new,
         (old <> new ->
          statusChangeLog id projectId now old new =
          [{| Activity.id := id;
              Activity.projectId := projectId;
              Activity.activityType := "status_change";
              Activity.actorName := Some "System";
              Activity.description :=
                ("Project status updated to: "
                   ++ progressStatus_name new)%string;
              Activity.createdAt := now |}])
         /\ (old = new -> statusChangeLog id projectId now old new = [])).
Proof.
  intros Hwf _. split; [|split; [|split; [|split]]].
  - intros ins p Hget _ s' moved.
    destruct (wellFormed_get _ _ _ Hwf Hget) as [Hid _].
    destruct (createUpvote_found_fields now ins s p Hget Hid) as (Hp & _).
    split; [subst s'; rewrite Hp; apply get_set_same|].
    do 3 (split; [reflexivity|]).
    rewrite (activitiesAdded_app s s' _ (createUpvote_found_log now ins s p Hwf Hget)).
    apply map_id_snd.
  - intros ins p Hget _ s' moved.
    destruct (wellFormed_get _ _ _ Hwf Hget) as [Hid _].
    destruct (createEmail_found_fields now ins s p Hget Hid) as (Hp & _).
    split; [subst s'; rewrite Hp; apply get_set_same|].
    do 3 (split; [reflexivity|]).
    rewrite (activitiesAdded_app s s' _ (createEmail_found_log now ins s p Hwf Hget)).
    apply map_id_snd.
  - intros id updates p Hget s'.
    destruct (updateProject_found_fields now id updates s p Hget) as (Hp & _).
    split; [subst s'; rewrite Hp; apply get_set_same|].
    destruct (updateProject_found_log now id updates s p Hwf Hget) as [Hlog _].
    rewrite (activitiesAdded_app s s' _ Hlog). apply map_id_snd.
  - intros ins s'. subst s'. unfold after. rewrite createComment_eq. simpl.
    split; [reflexivity|].
    apply (activitiesAdded_app s _ [(activityId s, _)]). simpl.
    now apply set_fresh, activityId_fresh.
  - intros id pid old new. split.
    + apply statusChangeLog_moved.
    + intros ->. apply statusChangeLog_same.
Qed.

Lemma mutations_are_logged_witness :
  let s := newMemStorage 0 in
  let ins :=
    {| InsertEmail.projectId := 1;
       InsertEmail.senderEmail := None;
       InsertEmail.senderName := Some "Alex Johnson";
       InsertEmail.customContent := None |} in
  let s' := after (createEmail 10 ins) s in
  let p := sampleProject1 1 0 in
  let moved :=
    statusChangeLog (activityId s) (Project.id p) 10
      (Project.progressStatus p) (Project.progressStatus (emailed p)) in
  JsMap.get 1 (projects s') = Some (emailed p)
  /\ Project.upvotes (emailed p) = Project.upvotes p
  /\ Project.emailsSent (emailed p) = Project.emailsSent p + 1
  /\ Project.progressStatus (emailed p) =
     determineProgressStatus (Project.upvotes p)
       (Project.emailsSent p + 1) (Project.progressStatus p)
  /\ activitiesAdded s s' =
     moved
     ++ [emailLogged (activityId s + Z.of_nat (List.length moved)) 10
           (string_or_null (InsertEmail.senderName ins)) p].
Proof.
  intros s ins.
  refine (proj1 (proj2 (mutations_are_logged 10 s _ _))
            ins (sampleProject1 1 0) _ _);
    reflexivity.
Defined.

(** ** Projects that do not exist (C5) *)

(** C5, on the store's own methods: for identifier 99, which no project
    of the constructed store has, [createComment] stores the comment and
    writes an activity, and [createUpvote] and [createEmail] store their
    record. *)
Lemma missing_project_is_recorded :
  let s := newMemStorage 0 in
  let comment :=
    {| InsertComment.projectId := 99;
       InsertComment.text := "Hello";
       InsertComment.commenterName := "Lee" |} in
  let upvote :=
    {| InsertUpvote.projectId := 99;
       InsertUpvote.userId := None;
       InsertUpvote.ipAddress := "1.2.3.4" |} in
  let email :=
    {| InsertEmail.projectId := 99;
       InsertEmail.senderEmail := None;
       InsertEmail.senderName := None;
       InsertEmail.customContent := None |} in
  JsMap.get 99 (projects s) = None
  /\ JsMap.values (comments (after (createComment 5 comment) s)) =
     JsMap.values (comments s) ++ [result (createComment 5 comment) s]
  /\ map Activity.activityType
       (activitiesAdded s (after (createComment 5 comment) s)) =
     ["comment_added"]
  /\ JsMap.values (upvotes (after (createUpvote 5 upvote) s)) =
     [result (createUpvote 5 upvote) s]
  /\ JsMap.values (emails (after (createEmail 5 email) s)) =
     [result (createEmail 5 email) s].
Proof.
  intros s comment upvote email. subst s comment upvote email.
  split; [|split; [|split; [|split]]]; vm_compute; reflexivity.
Qed.

(** C5, as the code has it: for an identifier that no stored project
    has, the handlers of the upvote and send-email requests answer 404
    "Project not found" and hand back the store as it was.  The store's
    own methods do not refuse: [createUpvote] and [createEmail] return
    the record they stored under the next identifier and change nothing
    else but their counter, so no project and no activity differs;
    [createComment] stores the comment and writes one [comment_added]
    activity about "Unknown Project", and changes no project either. *)
Theorem missing_project_handling s k :
  JsMap.get k (projects s) = None ->
  (forall now ip remote,
      upvoteRoute now (Some k) ip remote s =
      (mkResponse 404 (BodyMessage "Project not found"), s))
  /\ (forall simulate now transport validatedData,
         InsertEmail.projectId validatedData = k ->
         sendEmailRoute simulate now transport (Valid validatedData) s =
         (mkResponse 404 (BodyMessage "Project not found"), s))
  /\ (forall now ins,
         InsertUpvote.projectId ins = k ->
         createUpvote now ins s =
         (upvoteRecord now ins s,
          mkStore (users s) (projects s)
            (JsMap.set (upvoteId s) (upvoteRecord now ins s) (upvotes s))
            (emails s) (activities s) (comments s) (userId s) (projectId s)
            (upvoteId s + 1) (emailId s) (activityId s) (commentId s)))
  /\ (forall now ins,
         InsertEmail.projectId ins = k ->
         createEmail now ins s =
         (emailRecord now ins s,
          mkStore (users s) (projects s) (upvotes s)
            (JsMap.set (emailId s) (emailRecord now ins s) (emails s))
            (activities s) (comments s) (userId s) (projectId s)
            (upvoteId s) (emailId s + 1) (activityId s) (commentId s)))
  /\ (forall now ins,
         InsertComment.projectId ins = k ->
         createComment now ins s =
         (commentRecord now ins s,
          mkStore (users s) (projects s) (upvotes s) (emails s)
            (JsMap.set (activityId s)
               {| Activity.id := activityId s;
                  Activity.projectId := k;
                  Activity.activityType := "comment_added";
                  Activity.actorName :=
                    string_or_null (Some (InsertComment.commenterName ins));
                  Activity.description :=
                    "New comment on project: Unknown Project";
                  Activity.createdAt := now |}
               (activities s))
            (JsMap.set (commentId s) (commentRecord now ins s) (comments s))
            (userId s) (projectId s) (upvoteId s) (emailId s)
            (activityId s + 1) (commentId s + 1))).
Proof.
  intros Hnone. split; [|split; [|split; [|split]]].
  - intros now ip remote. now rewrite upvoteRoute_eq, Hnone.
  - intros simulate now transport d <-. now rewrite sendEmailRoute_eq, Hnone.
  - intros now ins <-. now rewrite (createUpvote_missing _ _ _ Hnone).
  - intros now ins <-. now rewrite (createEmail_missing _ _ _ Hnone).
  - intros now ins <-. rewrite createComment_eq, Hnone. reflexivity.
Qed.

Lemma missing_project_handling_witness :
  upvoteRoute 10 (Some 99) (Some "1.2.3.4") None (newMemStorage 0) =
  (mkResponse 404 (BodyMessage "Project not found"), newMemStorage 0).
Proof.
  refine (proj1 (missing_project_handling (newMemStorage 0) 99 _) 10 _ _).
  reflexivity.
Defined.

(** ** Later statuses are kept (C3) *)

Lemma reevaluate_later counts s : isLater s -> reevaluate counts s = s.
Proof.
  intros Hs. induction counts as [|[u e] counts IH]; simpl; [reflexivity|].
  now rewrite determineProgressStatus_later.
Qed.

Lemma exec_counting_keeps_later now op s k p :
  wellFormed s = true ->
  isCounting op = true ->
  JsMap.get k (projects s) = Some p ->
  isLater (Project.progressStatus p) ->
  exists p',
    JsMap.get k (projects (exec now op s)) = Some p'
    /\ Project.progressStatus p' = Project.progressStatus p.
Proof.
  intros Hwf Hop Hget Hlater.
  destruct op as [iu|ip|id updates|ins|ins|ia|ic]; try discriminate;
    simpl exec.
  - destruct (JsMap.get (InsertUpvote.projectId ins) (projects s))
      as [p0|] eqn:Hget0.
    + destruct (wellFormed_get _ _ _ Hwf Hget0) as [Hid _].
      destruct (createUpvote_found_fields now ins s p0 Hget0 Hid) as (-> & _).
      rewrite get_set.
      destruct (Z.eqb_spec (InsertUpvote.projectId ins) k) as [E|_].
      * rewrite E, Hget in Hget0. injection Hget0 as <-.
        eexists; split; [reflexivity|]. simpl.
        now apply determineProgressStatus_later.
      * now exists p.
    + rewrite (createUpvote_missing_after _ _ _ Hget0). now exists p.
  - destruct (JsMap.get (InsertEmail.projectId ins) (projects s))
      as [p0|] eqn:Hget0.
    + destruct (wellFormed_get _ _ _ Hwf Hget0) as [Hid _].
      destruct (createEmail_found_fields now ins s p0 Hget0 Hid) as (-> & _).
      rewrite get_set.
      destruct (Z.eqb_spec (InsertEmail.projectId ins) k) as [E|_].
      * rewrite E, Hget in Hget0. injection Hget0 as <-.
        eexists; split; [reflexivity|]. simpl.
        now apply determineProgressStatus_later.
      * now exists p.
    + rewrite (createEmail_missing_after _ _ _ Hget0). now exists p.
Qed.

Lemma wellFormed_exec_counting now op s :
  wellFormed s = true -> isCounting op = true ->
  wellFormed (exec now op s) = true.
Proof.
  intros Hwf Hop. destruct op; try discriminate; simpl exec.
  - now apply wellFormed_createUpvote.
  - now apply wellFormed_createEmail.
Qed.

(** C3: [determineProgressStatus] returns the current status whenever
    it is one of the four later ones, whatever the counts.  So a run of
    re-evaluations that starts at a later status ends at it; in the
    trace of any run a later status is followed by itself, never by a
    status of lower rank; and in a well-formed store a project with a
    later status has the same status after any run of [createUpvote]
    and [createEmail] calls, for that project or for others. *)
Theorem later_status_never_regresses :
  (forall u e s, isLater s -> determineProgressStatus u e s = s)
  /\ (forall counts s, isLater s -> reevaluate counts s = s)
  /\ (forall counts s0 i a b,
         nth_error (statusTrace counts s0) i = Some a ->
         nth_error (statusTrace counts s0) (S i) = Some b ->
         isLater a ->
         b = a /\ (progressStatus_rank a <= progressStatus_rank b)%nat)
  /\ (forall ops s k p,
         wellFormed s = true ->
         forallb (fun timed => isCounting (snd timed)) ops = true ->
         JsMap.get k (projects s) = Some p ->
         isLater (Project.progressStatus p) ->
         exists p',
           JsMap.get k (projects (execAll ops s)) = Some p'
           /\ Project.progressStatus p' = Project.progressStatus p).
Proof.
  split; [exact determineProgressStatus_later|].
  split; [exact reevaluate_later|]. split.
  - intros counts s0 i a b Ha Hb Hlater.
    destruct (statusTrace_step counts s0 i a b Ha Hb) as (u & e & ->).
    rewrite determineProgressStatus_later by exact Hlater.
    split; [reflexivity | apply Nat.le_refl].
  - induction ops as [|[now op] ops IH]; intros s k p Hwf Hops Hget Hlater.
    + now exists p.
    + simpl in Hops. apply andb_true_iff in Hops as [Hop Hops]. simpl.
      destruct (exec_counting_keeps_later now op s k p Hwf Hop Hget Hlater)
        as (p1 & Hget1 & Hst1).
      destruct (IH (exec now op s) k p1) as (p' & Hget' & Hst');
        [now apply wellFormed_exec_counting | exact Hops | exact Hget1
        | now rewrite Hst1 |].
      exists p'. split; [exact Hget' | congruence].
Qed.

Lemma later_status_never_regresses_witness :
  exists p',
    JsMap.get 3
      (projects
         (execAll
            [(10, OpCreateUpvote
                    {| InsertUpvote.projectId := 3;
                       InsertUpvote.userId := None;
                       InsertUpvote.ipAddress := "1.2.3.4" |});
             (20, OpCreateEmail
                    {| InsertEmail.projectId := 3;
                       InsertEmail.senderEmail := None;
                       InsertEmail.senderName := None;
                       InsertEmail.customContent := None |})]
            (newMemStorage 0))) = Some p'
    /\ Project.progressStatus p' =
       Project.progressStatus (sampleProject3 3 0).
Proof.
  refine (proj2 (proj2 (proj2 later_status_never_regresses))
            _ (newMemStorage 0) 3 (sampleProject3 3 0) _ _ _ _).
  - reflexivity.
  - reflexivity.
  - reflexivity.
  - left. reflexivity.
Defined.

(** ** Statistics (C6) *)

Lemma filter_split_length {A} (f : A -> bool) (l : list A) :
  (List.length (filter f l) + List.length (filter (fun x => negb (f x)) l)
   = List.length l)%nat.
Proof.
  induction l as [|x l IH]; simpl; [reflexivity|].
  destruct (f x); simpl; lia.
Qed.

Lemma completed_count (l : list Project.t) :
  List.length (filter isCompleted l) =
  count_occ ProgressStatus_eq_dec (map Project.progressStatus l) completed.
Proof.
  induction l as [|p l IH]; simpl; [reflexivity|].
  unfold isCompleted at 1.
  destruct (ProgressStatus_eq_dec (Project.progressStatus p) completed)
    as [E|E].
  - rewrite E. simpl. now rewrite IH.
  - apply progressStatus_eqb_neq in E. rewrite E. exact IH.
Qed.

Lemma ratesAgree_39 : ratesAgreeUpTo 39 = true.
Proof. vm_compute. reflexivity. Qed.

Lemma ratesAgreeUpTo_spec bound resolved total :
  ratesAgreeUpTo bound = true ->
  (resolved <= total)%nat -> (0 < total <= bound)%nat ->
  successRateOf (Z.of_nat resolved) (Z.of_nat total) =
  exactPercent (Z.of_nat resolved) (Z.of_nat total).
Proof.
  intros H Hle Htotal.
  unfold ratesAgreeUpTo in H. rewrite forallb_forall in H.
  destruct total as [|t]; [lia|].
  assert (Ht : In t (seq 0 bound)) by (apply in_seq; lia).
  specialize (H t Ht). rewrite forallb_forall in H.
  assert (Hr : In resolved (seq 0 (S (S t)))) by (apply in_seq; lia).
  specialize (H resolved Hr). now apply Z.eqb_eq in H.
Qed.

Lemma rates_agree_small resolved total :
  (resolved <= total)%nat -> (0 < total <= 39)%nat ->
  successRateOf (Z.of_nat resolved) (Z.of_nat total) =
  exactPercent (Z.of_nat resolved) (Z.of_nat total).
Proof. exact (ratesAgreeUpTo_spec 39 resolved total ratesAgree_39). Qed.

Lemma ratesAreNear_200 : ratesAreNearUpTo 200 = true.
Proof. vm_compute. reflexivity. Qed.

Lemma ratesAreNearUpTo_spec bound resolved total :
  ratesAreNearUpTo bound = true ->
  (resolved <= total)%nat -> (0 < total <= bound)%nat ->
  successRateOf (Z.of_nat resolved) (Z.of_nat total) =
  exactPercent (Z.of_nat resolved) (Z.of_nat total)
  \/ (successRateOf (Z.of_nat resolved) (Z.of_nat total) =
      exactPercent (Z.of_nat resolved) (Z.of_nat total) - 1
      /\ 200 * Z.of_nat resolved =
         (2 * exactPercent (Z.of_nat resolved) (Z.of_nat total) - 1)
         * Z.of_nat total).
Proof.
  intros H Hle Htotal.
  unfold ratesAreNearUpTo in H. rewrite forallb_forall in H.
  destruct total as [|t]; [lia|].
  assert (Ht : In t (seq 0 bound)) by (apply in_seq; lia).
  specialize (H t Ht). rewrite forallb_forall in H.
  assert (Hr : In resolved (seq 0 (S (S t)))) by (apply in_seq; lia).
  specialize (H resolved Hr). unfold rateIsNear in H. cbv zeta in H.
  apply orb_true_iff in H as [H | H].
  - left. now apply Z.eqb_eq in H.
  - right. apply andb_true_iff in H as [H1 H2].
    apply Z.eqb_eq in H1. apply Z.eqb_eq in H2. now split.
Qed.

Lemma rates_near resolved total :
  (resolved <= total)%nat -> (0 < total <= 200)%nat ->
  successRateOf (Z.of_nat resolved) (Z.of_nat total) =
  exactPercent (Z.of_nat resolved) (Z.of_nat total)
  \/ (successRateOf (Z.of_nat resolved) (Z.of_nat total) =
      exactPercent (Z.of_nat resolved) (Z.of_nat total) - 1
      /\ 200 * Z.of_nat resolved =
         (2 * exactPercent (Z.of_nat resolved) (Z.of_nat total) - 1)
         * Z.of_nat total).
Proof. exact (ratesAreNearUpTo_spec 200 resolved total ratesAreNear_200). Qed.

(** C6, as the claim has it: with 23 of 40 projects completed the
    percentage is 57.5, which rounds to 58, and [getCommunityStats]
    reports a success rate of 57; the counts are as the claim says. *)
Lemma success_rate_is_not_the_rounded_percentage :
  let stats := result getCommunityStats fortyProjects in
  List.length (JsMap.values (projects fortyProjects)) = 40%nat
  /\ CommunityStats.issuesResolved stats = 23
  /\ CommunityStats.activeIssues stats = 17
  /\ CommunityStats.successRate stats = 57
  /\ exactPercent 23 40 = 58
  /\ 2 * (100 * 23) = (2 * 57 + 1) * 40.
Proof.
  intros stats. subst stats.
  split; [|split; [|split; [|split; [|split]]]]; vm_compute; reflexivity.
Qed.

(** C6, as the code has it: [getCommunityStats] changes nothing in the
    store and returns
    - [issuesResolved]: how many projects have status [completed];
    - [activeIssues]: how many have another status, the rest of them;
    - [emailsSent]: the size of the [emails] collection;
    - [successRate]: 0 when there is no project, and otherwise
      [Math.round((issuesResolved / totalIssues) * 100)] as binary64
      arithmetic evaluates it.  Up to 39 projects that is the exact
      percentage rounded to the nearest integer, a half going up; up to
      200 projects it is that or, only where the exact percentage is
      half way between two integers, one less. *)
Theorem community_stats s :
  let stats := result getCommunityStats s in
  let all := JsMap.values (projects s) in
  let resolved :=
    count_occ ProgressStatus_eq_dec (map Project.progressStatus all) completed
  in
  after getCommunityStats s = s
  /\ CommunityStats.issuesResolved stats = Z.of_nat resolved
  /\ CommunityStats.activeIssues stats =
     Z.of_nat (List.length all) - Z.of_nat resolved
  /\ CommunityStats.activeIssues stats =
     Z.of_nat (List.length
                 (filter (fun p =>
                            negb (String.eqb
                                    (progressStatus_name
                                       (Project.progressStatus p))
                                    "completed"))
                         all))
  /\ CommunityStats.emailsSent stats = Z.of_nat (List.length (emails s))
  /\ (all = [] -> CommunityStats.successRate stats = 0)
  /\ (all <> [] ->
      CommunityStats.successRate stats =
      Math_round
        (number_mul
           (number_div (number (Z.of_nat resolved))
                       (number (Z.of_nat (List.length all))))
           (number 100)))
  /\ (all <> [] -> (List.length all <= 39)%nat ->
      CommunityStats.successRate stats =
      exactPercent (Z.of_nat resolved) (Z.of_nat (List.length all)))
  /\ (all <> [] -> (List.length all <= 200)%nat ->
      CommunityStats.successRate stats =
      exactPercent (Z.of_nat resolved) (Z.of_nat (List.length all))
      \/ (CommunityStats.successRate stats =
          exactPercent (Z.of_nat resolved) (Z.of_nat (List.length all)) - 1
          /\ 200 * Z.of_nat resolved =
             (2 * exactPercent (Z.of_nat resolved)
                               (Z.of_nat (List.length all)) - 1)
             * Z.of_nat (List.length all))).
Proof.
  intros stats all resolved.
  assert (Hres : List.length (filter isCompleted all) = resolved)
    by apply completed_count.
  pose proof (filter_split_length isCompleted all) as Hsplit.
  assert (Hrate : all <> [] ->
                  CommunityStats.successRate stats =
                  successRateOf (Z.of_nat resolved)
                                (Z.of_nat (List.length all))).
  { intros Hne. subst stats. unfold result, getCommunityStats, gets. simpl.
    fold all. rewrite Hres.
    destruct all as [|p rest]; [contradiction|]. reflexivity. }
  split; [reflexivity|].
  split; [|split; [|split; [|split; [|split; [|split; [|split]]]]]].
  - subst stats. unfold result, getCommunityStats, gets. simpl. fold all.
    now rewrite Hres.
  - subst stats. unfold result, getCommunityStats, gets. simpl. fold all.
    lia.
  - subst stats. unfold result, getCommunityStats, gets. simpl. fold all.
    do 2 f_equal. apply filter_ext. intros p. unfold isCompleted.
    destruct (Project.progressStatus p); reflexivity.
  - subst stats. unfold result, getCommunityStats, gets. simpl.
    now rewrite values_length.
  - intros Hnil. subst stats. unfold result, getCommunityStats, gets. simpl.
    fold all. rewrite Hnil. reflexivity.
  - exact Hrate.
  - intros Hne Hsmall. rewrite (Hrate Hne). apply rates_agree_small.
    + rewrite <- Hres. lia.
    + destruct all; [contradiction | simpl in *; lia].
  - intros Hne Hsmall. rewrite (Hrate Hne). apply rates_near.
    + rewrite <- Hres. lia.
    + destruct all; [contradiction | simpl in *; lia].
Qed.

(** The rate follows binary64: 23 resolved of 40 is 57.49999999999999
    there, so the rate is 57, where the exact 57.5 would round to 58;
    1 of 200 is exactly 0.5 and gives 1, 29 of 200 gives 14. *)
Lemma successRate_follows_binary64 :
  successRateOf 23 40 = 57 /\ exactPercent 23 40 = 58
  /\ successRateOf 1 200 = 1 /\ successRateOf 29 200 = 14
  /\ exactPercent 29 200 = 15
  /\ successRateOf 1 3 = 33 /\ successRateOf 2 3 = 67
  /\ successRateOf 3 3 = 100.
Proof. vm_compute. repeat split; reflexivity. Qed.

(** At construction the statistics count 3 active projects, none
    resolved and no email, while the projects' [emailsSent] counters add
    up to 102. *)
Lemma stats_at_construction :
  result getCommunityStats (newMemStorage 0) =
  {| CommunityStats.activeIssues := 3;
     CommunityStats.emailsSent := 0;
     CommunityStats.issuesResolved := 0;
     CommunityStats.successRate := 0 |}
  /\ emailCounterSum (newMemStorage 0) = 102.
Proof. vm_compute. split; reflexivity. Qed.

(** ** Sorting *)

Section SortFacts.
Context {A : Type} (compareFn : A -> A -> Z).

Lemma insertSorted_perm x l :
  Permutation (insertSorted compareFn x l) (x :: l).
Proof.
  induction l as [|y l IH]; simpl; [apply Permutation_refl|].
  destruct (compareFn x y <=? 0); [apply Permutation_refl|].
  rewrite IH. apply perm_swap.
Qed.

Lemma sort_perm l : Permutation (sort compareFn l) l.
Proof.
  induction l as [|x l IH]; simpl; [constructor|].
  rewrite insertSorted_perm. now constructor.
Qed.

Lemma sort_In x l : In x (sort compareFn l) <-> In x l.
Proof.
  split; apply Permutation_in; [|symmetry]; apply sort_perm.
Qed.
End SortFacts.



(** ** Searching (C7) *)

Lemma string_app_assoc (a b c : string) :
  ((a ++ b) ++ c)%string = (a ++ b ++ c)%string.
Proof. induction a as [|x a IH]; simpl; [reflexivity | now rewrite IH]. Qed.

Lemma toLowerCase_app a b :
  toLowerCase (a ++ b) = (toLowerCase a ++ toLowerCase b)%string.
Proof. induction a as [|x a IH]; simpl; [reflexivity | now rewrite IH]. Qed.




(** Lowering makes two characters equal exactly when they are the same
    letter. *)
Lemma lowerAscii_same a b : lowerAscii a = lowerAscii b <-> sameLetter a b.
Proof.
  unfold lowerAscii, sameLetter, isCapital.
  pose proof (nat_ascii_bounded a) as Ha.
  pose proof (nat_ascii_bounded b) as Hb.
  assert (Hinj : nat_of_ascii a = nat_of_ascii b -> a = b).
  { intros E. rewrite <- (ascii_nat_embedding a), <- (ascii_nat_embedding b).
    now rewrite E. }
  destruct ((65 <=? nat_of_ascii a) && (nat_of_ascii a <=? 90))%nat eqn:Ea;
    destruct ((65 <=? nat_of_ascii b) && (nat_of_ascii b <=? 90))%nat eqn:Eb.
  - apply andb_true_iff in Ea as [Ea1 Ea2]. apply andb_true_iff in Eb as [Eb1 Eb2].
    apply Nat.leb_le in Ea1, Ea2, Eb1, Eb2. split.
    + intros H. left. apply Hinj. apply (f_equal nat_of_ascii) in H.
      rewrite !nat_ascii_embedding in H by lia. lia.
    + intros [-> | [[_ H] | [_ H]]]; [reflexivity | lia | lia].
  - apply andb_true_iff in Ea as [Ea1 Ea2].
    apply Nat.leb_le in Ea1, Ea2. split.
    + intros H. right. left. split; [reflexivity|].
      rewrite <- H. apply nat_ascii_embedding. lia.
    + intros [E | [[_ H] | [H _]]]; [|now rewrite <- H, ascii_nat_embedding
                                      |discriminate].
      subst b. apply andb_false_iff in Eb as [Eb | Eb];
        apply Nat.leb_gt in Eb; lia.
  - apply andb_true_iff in Eb as [Eb1 Eb2].
    apply Nat.leb_le in Eb1, Eb2. split.
    + intros H. right. right. split; [reflexivity|].
      rewrite H. apply nat_ascii_embedding. lia.
    + intros [E | [[H _] | [_ H]]]; [|discriminate
                                      |now rewrite <- H, ascii_nat_embedding].
      subst b. apply andb_false_iff in Ea as [Ea | Ea];
        apply Nat.leb_gt in Ea; lia.
  - split; [intros H; now left|].
    intros [E | [[H _] | [H _]]]; [exact E | discriminate | discriminate].
Qed.

Lemma toLowerCase_same a b :
  toLowerCase a = toLowerCase b <-> sameIgnoringCase a b.
Proof.
  unfold sameIgnoringCase. revert b.
  induction a as [|c a IH]; intros [|d b]; simpl.
  - split; [constructor | reflexivity].
  - split; [discriminate | intros H; inversion H].
  - split; [discriminate | intros H; inversion H].
  - split.
    + intros [= Hc Hrest]. constructor; [now apply lowerAscii_same|].
      now apply IH.
    + intros H. inversion H as [|? ? ? ? Hc Hrest]; subst.
      apply lowerAscii_same in Hc. apply IH in Hrest. now rewrite Hc, Hrest.
Qed.





(** The specification's sample search: "oak" finds the sidewalk on Oak
    Street in the constructed store, and all projects come back by
    upvotes: 67, 45, 23. *)
Lemma search_oak_at_construction :
  map Project.id (result (searchProjects "oak") (newMemStorage 0)) = [2]
  /\ map Project.id (result (searchProjects "STREET") (newMemStorage 0))
     = [3; 2]
  /\ map Project.upvotes (result getAllProjects (newMemStorage 0))
     = [67; 45; 23]
  /\ map Project.id (result (getProjectsByType "pothole") (newMemStorage 0))
     = [3].
Proof. vm_compute. repeat split; reflexivity. Qed.

(** * Further properties *)

(** ** Patterns *)

Lemma string_app_nil_inv (a b : string) :
  (a ++ b)%string = EmptyString -> a = EmptyString /\ b = EmptyString.
Proof. destruct a; simpl; [auto | discriminate]. Qed.

Lemma string_app_nil_r (a : string) : (a ++ "")%string = a.
Proof. induction a as [|c a IH]; simpl; [reflexivity | now rewrite IH]. Qed.

Lemma Matches_nil_nullable r s :
  Matches r s -> s = EmptyString -> nullable r = true.
Proof.
  induction 1 as [| | r1 r2 s1 s2 _ IH1 _ IH2 | r1 r2 s _ IH | r1 r2 s _ IH
                 | | ]; intros E; simpl; try reflexivity.
  - discriminate.
  - apply string_app_nil_inv in E as [-> ->]. now rewrite IH1, IH2.
  - now rewrite IH.
  - rewrite IH by assumption. apply orb_true_r.
Qed.

Lemma nullable_Matches r : nullable r = true <-> Matches r EmptyString.
Proof.
  split; [|intros H; now apply (Matches_nil_nullable r EmptyString)].
  induction r as [| | p | r1 IH1 r2 IH2 | r1 IH1 r2 IH2 | r IH]; simpl;
    intros H; try discriminate.
  - constructor.
  - apply andb_true_iff in H as [H1 H2].
    change EmptyString with (EmptyString ++ EmptyString)%string.
    constructor; auto.
  - apply orb_true_iff in H as [H|H];
      [apply MatchAltL | apply MatchAltR]; auto.
  - constructor.
Qed.

Lemma derivative_sound c r s :
  Matches (derivative c r) s -> Matches r (String c s).
Proof.
  revert s.
  induction r as [| | p | r1 IH1 r2 IH2 | r1 IH1 r2 IH2 | r IH]; simpl;
    intros s H.
  - inversion H.
  - inversion H.
  - destruct (p c) eqn:Hp; inversion H; subst. now constructor.
  - destruct (nullable r1) eqn:Hn.
    + inversion H as [| | | ? ? ? HL | ? ? ? HR | |]; subst.
      * inversion HL as [| | ? ? s1 s2 H1 H2 | | | |]; subst.
        change (String c (s1 ++ s2)) with (String c s1 ++ s2)%string.
        constructor; auto.
      * change (String c s) with (EmptyString ++ String c s)%string.
        constructor; [now apply nullable_Matches | auto].
    + inversion H as [| | ? ? s1 s2 H1 H2 | | | |]; subst.
      change (String c (s1 ++ s2)) with (String c s1 ++ s2)%string.
      constructor; auto.
  - inversion H; subst; [apply MatchAltL | apply MatchAltR]; auto.
  - inversion H as [| | ? ? s1 s2 H1 H2 | | | |]; subst.
    change (String c (s1 ++ s2)) with (String c s1 ++ s2)%string.
    constructor; auto.
Qed.

Lemma derivative_complete r t :
  Matches r t -> forall c s, t = String c s -> Matches (derivative c r) s.
Proof.
  induction 1 as [| p c0 Hp | r1 r2 s1 s2 H1 IH1 H2 IH2 | r1 r2 s0 _ IH
                 | r1 r2 s0 _ IH | | r s1 s2 H1 IH1 H2 IH2];
    intros c s E; simpl.
  - discriminate.
  - injection E as -> <-. rewrite Hp. constructor.
  - destruct s1 as [|c1 s1]; simpl in E.
    + rewrite (Matches_nil_nullable _ _ H1 eq_refl).
      apply MatchAltR. now apply IH2.
    + injection E as -> <-.
      assert (Hseq : Matches (Seq (derivative c r1) r2) (s1 ++ s2))
        by (constructor; [now apply IH1 | exact H2]).
      destruct (nullable r1); [now apply MatchAltL | exact Hseq].
  - apply MatchAltL. now apply IH.
  - apply MatchAltR. now apply IH.
  - discriminate.
  - destruct s1 as [|c1 s1]; simpl in E.
    + now apply IH2.
    + injection E as -> <-. constructor; [now apply IH1 | exact H2].
Qed.

(** The test decides the pattern. *)
Lemma test_Matches r s : test r s = true <-> Matches r s.
Proof.
  revert r. induction s as [|c s IH]; intros r; simpl.
  - apply nullable_Matches.
  - rewrite IH. split.
    + apply derivative_sound.
    + intros H. now apply (derivative_complete r (String c s)).
Qed.

Lemma Matches_Seq r1 r2 s :
  Matches (Seq r1 r2) s <->
  exists s1 s2, s = (s1 ++ s2)%string /\ Matches r1 s1 /\ Matches r2 s2.
Proof.
  split.
  - intros H. inversion H; subst. eauto.
  - intros (s1 & s2 & -> & H1 & H2). now constructor.
Qed.

Lemma Matches_Class p s :
  Matches (Class p) s <-> exists c, s = String c EmptyString /\ p c = true.
Proof.
  split.
  - intros H. inversion H; subst. eauto.
  - intros (c & -> & Hp). now constructor.
Qed.

Lemma Matches_isChar d s :
  Matches (Class (isChar d)) s <-> s = String d EmptyString.
Proof.
  rewrite Matches_Class. unfold isChar. split.
  - intros (c & -> & Hc). apply Ascii.eqb_eq in Hc. now subst.
  - intros ->. exists d. split; [reflexivity | apply Ascii.eqb_refl].
Qed.

Lemma Matches_Star_Class_all p t :
  Matches (Star (Class p)) t -> forallb p (list_ascii_of_string t) = true.
Proof.
  intros H. remember (Star (Class p)) as r eqn:Er.
  induction H as [| | | | | | r0 s1 s2 H1 _ H2 IH2]; try discriminate.
  - reflexivity.
  - injection Er as ->. inversion H1; subst. simpl.
    rewrite IH2 by reflexivity. now rewrite H0.
Qed.

Lemma Matches_Star_Class p s :
  Matches (Star (Class p)) s <-> forallb p (list_ascii_of_string s) = true.
Proof.
  split; [apply Matches_Star_Class_all|].
  induction s as [|c s IH]; simpl; intros H.
  - constructor.
  - apply andb_true_iff in H as [Hc Hs].
    change (String c s) with (String c EmptyString ++ s)%string.
    constructor; [now constructor | auto].
Qed.

Lemma Matches_Plus_Class p s :
  Matches (Plus (Class p)) s <->
  s <> EmptyString /\ forallb p (list_ascii_of_string s) = true.
Proof.
  unfold Plus. rewrite Matches_Seq. split.
  - intros (s1 & s2 & -> & H1 & H2).
    apply Matches_Class in H1 as (c & -> & Hc).
    apply Matches_Star_Class in H2. simpl. split; [discriminate|].
    now rewrite Hc, H2.
  - intros [Hne H]. destruct s as [|c s]; [contradiction|]. simpl in H.
    apply andb_true_iff in H as [Hc Hs].
    exists (String c EmptyString), s. split; [reflexivity|].
    split; [now constructor | now apply Matches_Star_Class].
Qed.

(** The address pattern accepts exactly the strings of the address
    shape. *)
Lemma emailPattern_shape s :
  test emailPattern s = true <-> addressShape s.
Proof.
  rewrite test_Matches. unfold emailPattern, addressShape, plain.
  rewrite Matches_Seq. split.
  - intros (name & r1 & -> & Hname & H1).
    apply Matches_Seq in H1 as (at1 & r2 & -> & Hat & H2).
    apply Matches_Seq in H2 as (host & r3 & -> & Hhost & H3).
    apply Matches_Seq in H3 as (dot & tail & -> & Hdot & Htail).
    apply Matches_isChar in Hat, Hdot. subst at1 dot.
    apply Matches_Plus_Class in Hname, Hhost, Htail.
    exists name, host, tail. auto.
  - intros (name & host & tail & -> & Hname & Hhost & Htail).
    exists name, ("@" ++ host ++ "." ++ tail)%string.
    split; [reflexivity|]. split; [now apply Matches_Plus_Class|].
    apply Matches_Seq. exists "@", (host ++ "." ++ tail)%string.
    split; [reflexivity|]. split; [now apply Matches_isChar|].
    apply Matches_Seq. exists host, ("." ++ tail)%string.
    split; [reflexivity|]. split; [now apply Matches_Plus_Class|].
    apply Matches_Seq. exists ".", tail.
    split; [reflexivity|]. split; [now apply Matches_isChar|].
    now apply Matches_Plus_Class.
Qed.

(** ** Addresses *)

Lemma chars_app (a b : string) :
  list_ascii_of_string (a ++ b) =
  list_ascii_of_string a ++ list_ascii_of_string b.
Proof. induction a as [|c a IH]; simpl; [reflexivity | now rewrite IH]. Qed.

Lemma countChar_app d (a b : string) :
  countChar d (a ++ b) = (countChar d a + countChar d b)%nat.
Proof. induction a as [|c a IH]; simpl; [reflexivity | rewrite IH; lia]. Qed.

Lemma string_length_app (a b : string) :
  String.length (a ++ b) = (String.length a + String.length b)%nat.
Proof. induction a as [|c a IH]; simpl; [reflexivity | now rewrite IH]. Qed.

Lemma plainChar_facts c :
  plainChar c = true ->
  isWhitespace c = false /\ Ascii.eqb c "@" = false.
Proof.
  unfold plainChar. intros H. apply negb_true_iff, orb_false_iff in H.
  exact H.
Qed.

Lemma plain_facts s :
  plain s ->
  forallb (fun c => negb (isWhitespace c)) (list_ascii_of_string s) = true
  /\ countChar "@" s = 0%nat /\ (1 <= String.length s)%nat.
Proof.
  intros [Hne H]. split; [|split].
  - clear Hne. induction s as [|c s IH]; simpl in *; [reflexivity|].
    apply andb_true_iff in H as [Hc Hs].
    destruct (plainChar_facts c Hc) as [-> _]. simpl. auto.
  - clear Hne. induction s as [|c s IH]; simpl in *; [reflexivity|].
    apply andb_true_iff in H as [Hc Hs].
    destruct (plainChar_facts c Hc) as [_ ->]. simpl. auto.
  - destruct s; [contradiction | simpl; lia].
Qed.

Lemma addressShape_facts s :
  addressShape s ->
  forallb (fun c => negb (isWhitespace c)) (list_ascii_of_string s) = true
  /\ countChar "@" s = 1%nat /\ (5 <= String.length s)%nat.
Proof.
  intros (name & host & tail & -> & Hn & Hh & Ht).
  destruct (plain_facts _ Hn) as (Wn & Cn & Ln).
  destruct (plain_facts _ Hh) as (Wh & Ch & Lh).
  destruct (plain_facts _ Ht) as (Wt & Ct & Lt).
  split; [|split].
  - rewrite chars_app, forallb_app, Wn. simpl.
    rewrite chars_app, forallb_app, Wh. simpl. exact Wt.
  - rewrite countChar_app, Cn. simpl.
    rewrite countChar_app, Ch. simpl. now rewrite Ct.
  - rewrite string_length_app. simpl. rewrite string_length_app. simpl. lia.
Qed.

Lemma lowerAscii_idem c : lowerAscii (lowerAscii c) = lowerAscii c.
Proof. destruct c as [[] [] [] [] [] [] [] []]; reflexivity. Qed.

Lemma lowerAscii_plain c : plainChar (lowerAscii c) = plainChar c.
Proof. destruct c as [[] [] [] [] [] [] [] []]; reflexivity. Qed.

Lemma toLowerCase_idem s : toLowerCase (toLowerCase s) = toLowerCase s.
Proof.
  induction s as [|c s IH]; simpl; [reflexivity|].
  now rewrite lowerAscii_idem, IH.
Qed.

Lemma toLowerCase_plain s : plain s -> plain (toLowerCase s).
Proof.
  intros [Hne H]. split.
  - destruct s; [contradiction | discriminate].
  - clear Hne. induction s as [|c s IH]; simpl in *; [reflexivity|].
    apply andb_true_iff in H as [Hc Hs].
    now rewrite lowerAscii_plain, Hc, IH.
Qed.

Lemma toLowerCase_shape s : addressShape s -> addressShape (toLowerCase s).
Proof.
  intros (name & host & tail & -> & Hn & Hh & Ht).
  exists (toLowerCase name), (toLowerCase host), (toLowerCase tail).
  split; [|auto using toLowerCase_plain].
  rewrite toLowerCase_app. simpl. rewrite toLowerCase_app. reflexivity.
Qed.

Lemma trimEnd_no_whitespace s :
  forallb (fun c => negb (isWhitespace c)) (list_ascii_of_string s) = true ->
  trimEnd s = s.
Proof.
  induction s as [|c s IH]; simpl; [reflexivity|].
  intros H. apply andb_true_iff in H as [Hc Hs].
  rewrite (IH Hs). apply negb_true_iff in Hc. rewrite Hc.
  destruct s; reflexivity.
Qed.

Lemma trim_no_whitespace s :
  forallb (fun c => negb (isWhitespace c)) (list_ascii_of_string s) = true ->
  trim s = s.
Proof.
  intros H. unfold trim.
  assert (Hstart : trimStart s = s).
  { destruct s as [|c s]; [reflexivity|]. simpl in *.
    apply andb_true_iff in H as [Hc _]. apply negb_true_iff in Hc.
    now rewrite Hc. }
  rewrite Hstart. now apply trimEnd_no_whitespace.
Qed.

Lemma addressShape_nonempty s : addressShape s -> s <> EmptyString.
Proof.
  intros H E. apply addressShape_facts in H as (_ & _ & H).
  subst. simpl in H. lia.
Qed.

Lemma normalizeEmail_address r :
  addressShape r -> toLowerCase r = r -> normalizeEmail (Some r) = Some r.
Proof.
  intros Hshape Hlow. unfold normalizeEmail.
  pose proof (addressShape_nonempty _ Hshape) as Hne.
  destruct (addressShape_facts _ Hshape) as (Hws & _).
  assert (Hor : string_or_null (Some r) = Some r)
    by (destruct r; [contradiction | reflexivity]).
  rewrite Hor. cbv zeta. rewrite (trim_no_whitespace _ Hws), Hlow.
  apply emailPattern_shape in Hshape. now rewrite Hshape.
Qed.

Lemma normalizeEmail_some e r :
  normalizeEmail (Some e) = Some r ->
  r = toLowerCase (trim e) /\ addressShape r.
Proof.
  unfold normalizeEmail. destruct (string_or_null (Some e)) as [e'|] eqn:E;
    [|discriminate].
  assert (e' = e) by (destruct e; simpl in E; congruence). subst e'.
  cbv zeta. destruct (test emailPattern (toLowerCase (trim e))) eqn:T;
    simpl; [|discriminate].
  intros [= <-]. split; [reflexivity | now apply emailPattern_shape].
Qed.

(** X1: on ASCII text the address pattern
    [/^[^\s@]+@[^\s@]+\.[^\s@]+$/], which the client's [validateEmail]
    and the server's [normalizeEmail] both test, accepts exactly the
    strings made of a name, an at sign and a domain with a dot inside,
    all three parts non-empty and free of whitespace and at signs; so an
    accepted string has exactly one at sign, no whitespace and at least
    five characters. *)
Theorem address_pattern_shape s :
  isAscii s = true ->
  (validateEmail s = true <-> addressShape s)
  /\ (validateEmail s = true ->
      countChar "@" s = 1%nat
      /\ forallb (fun c => negb (isWhitespace c)) (list_ascii_of_string s)
         = true
      /\ (5 <= String.length s)%nat).
Proof.
  intros _. unfold validateEmail. split; [apply emailPattern_shape|].
  intros H. apply emailPattern_shape, addressShape_facts in H.
  tauto.
Qed.

Lemma address_pattern_shape_witness :
  countChar "@" "a.b@c-d.org" = 1%nat
  /\ forallb (fun c => negb (isWhitespace c))
       (list_ascii_of_string "a.b@c-d.org") = true
  /\ (5 <= String.length "a.b@c-d.org")%nat.
Proof.
  refine (proj2 (address_pattern_shape "a.b@c-d.org" _) _); reflexivity.
Defined.

(** X2: on ASCII text, when [normalizeEmail] returns an address it is
    the trimmed, lower-cased input, it has the address shape, and it is
    a fixed point: lower-casing, trimming or normalising it again gives
    the same address.  It returns nothing exactly when the trimmed,
    lower-cased input does not have the address shape, which covers the
    empty input. *)
Theorem normalizeEmail_result e :
  isAscii e = true ->
  (forall r,
      normalizeEmail (Some e) = Some r ->
      r = toLowerCase (trim e)
      /\ addressShape r
      /\ toLowerCase r = r
      /\ trim r = r
      /\ normalizeEmail (Some r) = Some r)
  /\ (normalizeEmail (Some e) = None <->
      ~ addressShape (toLowerCase (trim e))).
Proof.
  intros _. split.
  - intros r H. destruct (normalizeEmail_some e r H) as [Hr Hshape].
    assert (Hlow : toLowerCase r = r)
      by (rewrite Hr; apply toLowerCase_idem).
    split; [exact Hr|]. split; [exact Hshape|]. split; [exact Hlow|].
    split.
    + apply trim_no_whitespace. now apply addressShape_facts.
    + now apply normalizeEmail_address.
  - unfold normalizeEmail. destruct e as [|c e].
    + simpl. split; [intros _ H; now apply addressShape_nonempty in H|].
      reflexivity.
    + cbn [string_or_null]. cbv zeta.
      destruct (test emailPattern (toLowerCase (trim (String c e)))) eqn:T;
        simpl.
      * split; [discriminate|]. intros H. exfalso. apply H.
        now apply emailPattern_shape.
      * split; [|reflexivity]. intros _ H.
        apply emailPattern_shape in H. congruence.
Qed.

Lemma normalizeEmail_result_witness :
  normalizeEmail (Some "  Alice@Example.COM ") = Some "alice@example.com"
  /\ normalizeEmail (Some "alice@example.com") = Some "alice@example.com".
Proof.
  destruct (proj1 (normalizeEmail_result "  Alice@Example.COM " eq_refl)
              "alice@example.com" eq_refl) as (_ & _ & _ & _ & H).
  split; [reflexivity | exact H].
Defined.

(** X3: on ASCII text, an address the client's [validateEmail] accepts
    is never rejected by the server: [normalizeEmail] returns it in
    lower case. *)
Theorem validated_address_is_normalized e :
  isAscii e = true ->
  validateEmail e = true ->
  normalizeEmail (Some e) = Some (toLowerCase e).
Proof.
  intros _ H. unfold validateEmail in H. apply emailPattern_shape in H.
  pose proof (toLowerCase_shape _ H) as Hlow.
  pose proof (addressShape_nonempty _ H) as Hne.
  destruct (addressShape_facts _ H) as (Hws & _).
  unfold normalizeEmail.
  assert (Hor : string_or_null (Some e) = Some e)
    by (destruct e; [contradiction | reflexivity]).
  rewrite Hor. cbv zeta. rewrite (trim_no_whitespace _ Hws).
  apply emailPattern_shape in Hlow. now rewrite Hlow.
Qed.

Lemma validated_address_is_normalized_witness :
  normalizeEmail (Some "Alice@Example.COM") =
  Some (toLowerCase "Alice@Example.COM").
Proof.
  apply (validated_address_is_normalized "Alice@Example.COM"); reflexivity.
Defined.

(** X4: whatever sender address a send-email request carries (ASCII
    text, or none), the From address the handler hands to the
    dispatcher has the address shape: it is the normalised sender
    address when there is one, and "noreply@civicvoice.org" otherwise. *)
Theorem mailFrom_is_address validatedData :
  match InsertEmail.senderEmail validatedData with
  | Some e => isAscii e = true
  | None => True
  end ->
  addressShape (mailFrom validatedData)
  /\ validateEmail (mailFrom validatedData) = true
  /\ (forall r,
         normalizeEmail (InsertEmail.senderEmail validatedData) = Some r ->
         mailFrom validatedData = r)
  /\ (normalizeEmail (InsertEmail.senderEmail validatedData) = None ->
      mailFrom validatedData = "noreply@civicvoice.org").
Proof.
  intros _. unfold mailFrom.
  assert (Hdefault : addressShape "noreply@civicvoice.org")
    by (apply emailPattern_shape; reflexivity).
  assert (Hfrom :
            (forall r,
                normalizeEmail (InsertEmail.senderEmail validatedData) = Some r ->
                string_or (normalizeEmail (InsertEmail.senderEmail validatedData))
                          "noreply@civicvoice.org" = r /\ addressShape r)
            /\ (normalizeEmail (InsertEmail.senderEmail validatedData) = None ->
                string_or (normalizeEmail (InsertEmail.senderEmail validatedData))
                          "noreply@civicvoice.org" = "noreply@civicvoice.org")).
  { split.
    - intros r Hr. rewrite Hr.
      destruct (InsertEmail.senderEmail validatedData) as [e|];
        [|discriminate].
      destruct (normalizeEmail_some e r Hr) as [_ Hshape].
      split; [|exact Hshape].
      pose proof (addressShape_nonempty _ Hshape).
      destruct r; [contradiction | reflexivity].
    - intros ->. reflexivity. }
  destruct Hfrom as [Hsome Hnone].
  assert (Hshape : addressShape
                     (string_or
                        (normalizeEmail (InsertEmail.senderEmail validatedData))
                        "noreply@civicvoice.org")).
  { destruct (normalizeEmail (InsertEmail.senderEmail validatedData))
      as [r|] eqn:E.
    - destruct (Hsome r eq_refl) as [-> Hr]. exact Hr.
    - now rewrite (Hnone eq_refl). }
  split; [exact Hshape|]. split; [now apply emailPattern_shape|].
  split; [intros r Hr; now apply Hsome | exact Hnone].
Qed.

Lemma mailFrom_is_address_witness :
  addressShape
    (mailFrom {| InsertEmail.projectId := 1;
                 InsertEmail.senderEmail := Some "not an address";
                 InsertEmail.senderName := None;
                 InsertEmail.customContent := None |}).
Proof.
  refine (proj1 (mailFrom_is_address _ _)). reflexivity.
Defined.

(** ** The status function, further *)

Lemma determineProgressStatus_forgets u e u' e' s :
  determineProgressStatus u' e' (determineProgressStatus u e s) =
  determineProgressStatus u' e' s.
Proof.
  destruct s; simpl; try reflexivity;
    destruct (e >=? 50); try reflexivity;
    destruct (u >=? 25); reflexivity.
Qed.

Lemma statusOfCounts_monotone u e u' e' :
  u <= u' -> e <= e' ->
  (progressStatus_rank (statusOfCounts u e)
   <= progressStatus_rank (statusOfCounts u' e'))%nat.
Proof.
  intros Hu He. unfold statusOfCounts, determineProgressStatus.
  destruct (Z.geb_spec e 50), (Z.geb_spec e' 50); try lia;
    destruct (Z.geb_spec u 25), (Z.geb_spec u' 25); simpl; lia.
Qed.

Lemma determineProgressStatus_cases u e s :
  (isLater s /\ determineProgressStatus u e s = s)
  \/ (isEarly s /\ determineProgressStatus u e s = statusOfCounts u e).
Proof.
  unfold isLater, isEarly. destruct s; simpl; auto 10.
Qed.

(** X5: [determineProgressStatus] is monotone in the counts: for the
    same current status, more upvotes and more emails never give a
    status of lower rank.  It also forgets intermediate results:
    re-evaluating a result with new counts is re-evaluating the original
    status with them, so a run of re-evaluations ends where its last
    step alone would, and re-evaluating with the same counts changes
    nothing. *)
Theorem determineProgressStatus_monotone u e u' e' s :
  u <= u' -> e <= e' ->
  (progressStatus_rank (determineProgressStatus u e s)
   <= progressStatus_rank (determineProgressStatus u' e' s))%nat
  /\ determineProgressStatus u' e' (determineProgressStatus u e s) =
     determineProgressStatus u' e' s
  /\ determineProgressStatus u e (determineProgressStatus u e s) =
     determineProgressStatus u e s
  /\ (forall counts,
         reevaluate (counts ++ [(u', e')]) s = determineProgressStatus u' e' s).
Proof.
  intros Hu He. split; [|split; [|split]].
  - destruct (determineProgressStatus_cases u e s) as [[Hl ->] | [Hs ->]].
    + rewrite (determineProgressStatus_later u' e' s Hl). apply Nat.le_refl.
    + destruct (determineProgressStatus_cases u' e' s) as [[Hl _] | [_ ->]].
      * exfalso. now apply (isEarly_not_isLater s).
      * now apply statusOfCounts_monotone.
  - apply determineProgressStatus_forgets.
  - apply determineProgressStatus_forgets.
  - intros counts. revert s.
    induction counts as [|[a b] counts IH]; intros s; simpl; [reflexivity|].
    rewrite IH. apply determineProgressStatus_forgets.
Qed.

Lemma determineProgressStatus_monotone_witness :
  (progressStatus_rank (determineProgressStatus 24 49 idea_submitted)
   <= progressStatus_rank (determineProgressStatus 25 49 idea_submitted))%nat.
Proof.
  refine (proj1 (determineProgressStatus_monotone 24 49 25 49 idea_submitted
                   _ _)); lia.
Defined.

(** ** Sorting by a key *)

Section SortByKey.
Context {A : Type} (key : A -> Z).

Let descending (a b : A) : Z := key b - key a.

Lemma insertSorted_desc x l :
  StronglySorted (fun a b => key a >= key b) l ->
  StronglySorted (fun a b => key a >= key b) (insertSorted descending x l).
Proof.
  induction l as [|y l IH]; intros Hl; simpl.
  - constructor; constructor.
  - inversion Hl as [|? ? Hrest Hy]; subst. unfold descending at 1.
    destruct (Z.leb_spec (key y - key x) 0) as [Hle|Hgt].
    + constructor; [exact Hl|]. constructor; [lia|].
      rewrite Forall_forall in *. intros z Hz. specialize (Hy z Hz). lia.
    + constructor; [now apply IH|].
      rewrite Forall_forall in *. intros z Hz.
      apply (Permutation_in _ (insertSorted_perm descending x l)) in Hz.
      destruct Hz as [<- | Hz]; [lia | now apply Hy].
Qed.

Lemma sort_desc l :
  StronglySorted (fun a b => key a >= key b) (sort descending l).
Proof.
  induction l as [|x l IH]; simpl; [constructor|].
  now apply insertSorted_desc.
Qed.

Lemma insertSorted_stable n x l :
  filter (fun a => key a =? n) (insertSorted descending x l) =
  filter (fun a => key a =? n) (x :: l).
Proof.
  induction l as [|y l IH]; simpl; [reflexivity|].
  unfold descending at 1.
  destruct (Z.leb_spec (key y - key x) 0) as [Hle|Hgt]; [reflexivity|].
  simpl. rewrite IH. simpl.
  destruct (Z.eqb_spec (key x) n) as [Ex|Ex];
    destruct (Z.eqb_spec (key y) n) as [Ey|Ey]; try reflexivity.
  lia.
Qed.

(** The sort keeps the order of the elements that have the same key. *)
Lemma sort_stable n l :
  filter (fun a => key a =? n) (sort descending l) =
  filter (fun a => key a =? n) l.
Proof.
  induction l as [|x l IH]; simpl; [reflexivity|].
  rewrite insertSorted_stable. simpl. now rewrite IH.
Qed.
End SortByKey.

Lemma StronglySorted_app_inv {A} (R : A -> A -> Prop) (l1 l2 : list A) :
  StronglySorted R (l1 ++ l2) ->
  StronglySorted R l1
  /\ forall a b, In a l1 -> In b l2 -> R a b.
Proof.
  induction l1 as [|x l1 IH]; simpl; intros H.
  - split; [constructor | intros a b []].
  - inversion H as [|? ? Hrest Hx]; subst.
    destruct (IH Hrest) as [Hs Hcross]. split.
    + constructor; [exact Hs|].
      rewrite Forall_forall in *. intros z Hz. apply Hx.
      apply in_or_app. now left.
    + intros a b [<- | Ha] Hb.
      * rewrite Forall_forall in Hx. apply Hx. apply in_or_app. now right.
      * now apply Hcross.
Qed.

(** ** Listings *)

Lemma listings_keep_ties_in_store_order_aux s n :
  filter (fun p => Project.upvotes p =? n) (result getAllProjects s) =
  filter (fun p => Project.upvotes p =? n) (JsMap.values (projects s))
  /\ forall query,
       filter (fun p => Project.upvotes p =? n)
              (result (searchProjects query) s) =
       filter (fun p => Project.upvotes p =? n)
              (filter (searchMatches (toLowerCase query))
                      (JsMap.values (projects s))).
Proof.
  unfold result, getAllProjects, searchProjects, gets. simpl.
  split; intros; apply (sort_stable Project.upvotes).
Qed.

(** X6: the project listings keep ties in store order: in the results
    of [getAllProjects], [searchProjects], [getProjectsByType] and
    [getProjectsByStatus], the projects that have the same number of
    upvotes come in the order in which the store holds them. *)
Theorem listings_keep_ties_in_store_order s n :
  let tied := filter (fun p => Project.upvotes p =? n) in
  tied (result getAllProjects s) = tied (JsMap.values (projects s))
  /\ (forall query,
         tied (result (searchProjects query) s) =
         tied (filter (searchMatches (toLowerCase query))
                      (JsMap.values (projects s))))
  /\ (forall issueType,
         tied (result (getProjectsByType issueType) s) =
         tied (filter (fun p =>
                         String.eqb (issueType_name (Project.issueType p))
                                    issueType)
                      (JsMap.values (projects s))))
  /\ (forall progressStatus,
         tied (result (getProjectsByStatus progressStatus) s) =
         tied (filter (fun p =>
                         String.eqb
                           (progressStatus_name (Project.progressStatus p))
                           progressStatus)
                      (JsMap.values (projects s)))).
Proof.
  intros tied. subst tied.
  unfold result, getAllProjects, searchProjects, getProjectsByType,
    getProjectsByStatus, gets. simpl.
  split; [|split; [|split]]; intros; apply (sort_stable Project.upvotes).
Qed.

(** X7: the per-project listings return exactly the records of the
    project, each as often as it is stored: [getEmailsByProject],
    [getActivitiesByProject] and [getCommentsByProject] newest first,
    [getUpvotesByProject] in store order; none of them changes the
    store. *)
Theorem listings_by_project s k :
  (Permutation (result (getEmailsByProject k) s)
     (filter (fun e => Email.projectId e =? k) (JsMap.values (emails s)))
   /\ newestFirst Email.sentAt (result (getEmailsByProject k) s)
   /\ forall e,
        In e (result (getEmailsByProject k) s) <->
        In e (JsMap.values (emails s)) /\ Email.projectId e = k)
  /\ (Permutation (result (getActivitiesByProject k) s)
        (filter (fun a => Activity.projectId a =? k)
                (JsMap.values (activities s)))
      /\ newestFirst Activity.createdAt (result (getActivitiesByProject k) s)
      /\ forall a,
           In a (result (getActivitiesByProject k) s) <->
           In a (JsMap.values (activities s)) /\ Activity.projectId a = k)
  /\ (Permutation (result (getCommentsByProject k) s)
        (filter (fun c => Comment.projectId c =? k)
                (JsMap.values (comments s)))
      /\ newestFirst Comment.createdAt (result (getCommentsByProject k) s)
      /\ forall c,
           In c (result (getCommentsByProject k) s) <->
           In c (JsMap.values (comments s)) /\ Comment.projectId c = k)
  /\ (forall u,
         In u (result (getUpvotesByProject k) s) <->
         In u (JsMap.values (upvotes s)) /\ Upvote.projectId u = k)
  /\ after (getEmailsByProject k) s = s
  /\ after (getActivitiesByProject k) s = s
  /\ after (getCommentsByProject k) s = s
  /\ after (getUpvotesByProject k) s = s.
Proof.
  unfold result, after, getEmailsByProject, getActivitiesByProject,
    getCommentsByProject, getUpvotesByProject, gets, newestFirst. simpl.
  split; [|split; [|split; [|split]]].
  - split; [apply sort_perm|]. split; [apply (sort_desc Email.sentAt)|].
    intros e. rewrite sort_In, filter_In, Z.eqb_eq. reflexivity.
  - split; [apply sort_perm|]. split; [apply (sort_desc Activity.createdAt)|].
    intros a. rewrite sort_In, filter_In, Z.eqb_eq. reflexivity.
  - split; [apply sort_perm|]. split; [apply (sort_desc Comment.createdAt)|].
    intros c. rewrite sort_In, filter_In, Z.eqb_eq. reflexivity.
  - intros u. rewrite filter_In, Z.eqb_eq. reflexivity.
  - repeat split.
Qed.

Lemma firstn_In_all {A} n (l : list A) a : In a (firstn n l) -> In a l.
Proof.
  intros H. rewrite <- (firstn_skipn n l). apply in_or_app. now left.
Qed.

(** X8: [getRecentActivities(limit)] with a limit [n >= 0] returns the
    [n] most recent activities, newest first, or all of them if there
    are fewer: the result has [min n total] entries, all stored, in
    descending order of [createdAt], and no stored activity left out is
    newer than one returned.  A limit that is not a number gives the
    empty list, and the handler of [/api/activities] asks for 10 when the
    request names no limit. *)
Theorem recent_activities s n :
  0 <= n ->
  let recent := result (getRecentActivities (Some n)) s in
  let stored := JsMap.values (activities s) in
  Z.of_nat (List.length recent) = Z.min n (Z.of_nat (List.length stored))
  /\ newestFirst Activity.createdAt recent
  /\ (forall a, In a recent -> In a stored)
  /\ (forall a b,
         In a recent -> In b stored -> ~ In b recent ->
         Activity.createdAt b <= Activity.createdAt a)
  /\ result (getRecentActivities None) s = []
  /\ result (activitiesRoute None) s =
     mkResponse 200 (BodyActivities (result (getRecentActivities (Some 10)) s))
  /\ after (getRecentActivities (Some n)) s = s.
Proof.
  intros Hn recent stored.
  set (all := sort (byNewest Activity.createdAt) stored).
  assert (Hrecent : recent = firstn (Z.to_nat n) all).
  { subst recent all stored. unfold result, getRecentActivities, gets, slice0.
    simpl. destruct (Z.ltb_spec n 0); [lia | reflexivity]. }
  assert (Hperm : Permutation all stored) by apply sort_perm.
  assert (Hsorted : newestFirst Activity.createdAt all)
    by apply (sort_desc Activity.createdAt).
  unfold newestFirst in *.
  rewrite <- (firstn_skipn (Z.to_nat n) all) in Hsorted.
  apply StronglySorted_app_inv in Hsorted as [Hfirst Hcross].
  split; [|split; [|split; [|split; [|split; [|split]]]]].
  - rewrite Hrecent, length_firstn, (Permutation_length Hperm). lia.
  - now rewrite Hrecent.
  - intros a Ha. rewrite Hrecent in Ha.
    apply (Permutation_in _ Hperm). now apply firstn_In_all in Ha.
  - intros a b Ha Hb Hnot. rewrite Hrecent in Ha, Hnot.
    assert (Hb' : In b (skipn (Z.to_nat n) all)).
    { apply (Permutation_in _ (Permutation_sym Hperm)) in Hb.
      rewrite <- (firstn_skipn (Z.to_nat n) all) in Hb.
      apply in_app_or in Hb as [Hb|Hb]; [contradiction | exact Hb]. }
    specialize (Hcross a b Ha Hb'). lia.
  - reflexivity.
  - reflexivity.
  - reflexivity.
Qed.

Lemma recent_activities_witness :
  Z.of_nat (List.length (result (getRecentActivities (Some 2))
                           (newMemStorage 0))) =
  Z.min 2 (Z.of_nat (List.length (JsMap.values
                                    (activities (newMemStorage 0))))).
Proof.
  refine (proj1 (recent_activities (newMemStorage 0) 2 _)). lia.
Defined.

(** ** Submitting, upvoting, sending *)

Lemma createProject_eq now ip s :
  createProject now ip s =
  (projectRecord now ip s,
   mkStore (users s)
     (JsMap.set (projectId s) (projectRecord now ip s) (projects s))
     (upvotes s) (emails s)
     (JsMap.set (activityId s)
        (projectLogged (activityId s) now (projectRecord now ip s))
        (activities s))
     (comments s) (userId s) (projectId s + 1) (upvoteId s) (emailId s)
     (activityId s + 1) (commentId s)).
Proof. reflexivity. Qed.

Lemma projectId_fresh s :
  wellFormed s = true -> JsMap.get (projectId s) (projects s) = None.
Proof.
  intros H. apply wellFormed_iff in H. destruct H as (_ & Hk & _).
  apply keys_below_get_none with (projectId s); [exact Hk | lia].
Qed.

Lemma emailId_fresh s :
  wellFormed s = true -> JsMap.get (emailId s) (emails s) = None.
Proof.
  intros H. apply wellFormed_iff in H. destruct H as (_ & _ & _ & Hk & _).
  apply keys_below_get_none with (emailId s); [exact Hk | lia].
Qed.

(** X9: in a well-formed store [createProject] returns a project with
    the next identifier, the submitted fields, both counters at 0 and
    status [idea_submitted]; the identifier was not in use; afterwards
    [getProjectById] finds the project under it, the other projects are
    as they were and the new one is last in store order; the log has
    gained one [project_created] record that refers to the project, and
    no upvote, email, comment or user has changed. *)
Theorem createProject_adds_project now ip s :
  wellFormed s = true ->
  let project := result (createProject now ip) s in
  let s' := after (createProject now ip) s in
  project = projectRecord now ip s
  /\ JsMap.get (Project.id project) (projects s) = None
  /\ result (getProjectById (Project.id project)) s' = Some project
  /\ (forall k, k <> Project.id project ->
                JsMap.get k (projects s') = JsMap.get k (projects s))
  /\ JsMap.values (projects s') = JsMap.values (projects s) ++ [project]
  /\ activitiesAdded s s' = [projectLogged (activityId s) now project]
  /\ users s' = users s /\ upvotes s' = upvotes s /\ emails s' = emails s
  /\ comments s' = comments s
  /\ wellFormed s' = true.
Proof.
  intros Hwf project s'.
  assert (Hp : project = projectRecord now ip s) by reflexivity.
  assert (Hs : s' = snd (createProject now ip s)) by reflexivity.
  rewrite createProject_eq in Hs. simpl in Hs.
  pose proof (projectId_fresh s Hwf) as Hfresh.
  split; [exact Hp|]. rewrite Hp, Hs. simpl.
  split; [exact Hfresh|].
  split; [unfold result, getProjectById, gets; simpl; apply get_set_same|].
  split; [intros k Hk; apply get_set_other; intros E; apply Hk;
          now rewrite <- E|].
  split; [now apply values_set_fresh|].
  split.
  - apply (activitiesAdded_app s _ [(activityId s, _)]). simpl.
    now apply set_fresh, activityId_fresh.
  - do 4 (split; [reflexivity|]).
    change (wellFormed (after (createProject now ip) s) = true).
    now apply wellFormed_createProject.
Qed.

Lemma createProject_adds_project_witness :
  let ip :=
    {| InsertProject.title := "Dark corner";
       InsertProject.description := "No light";
       InsertProject.issueType := streetlight;
       InsertProject.location := "Elm Street";
       InsertProject.latitude := "0";
       InsertProject.longitude := "0";
       InsertProject.urgencyLevel := None;
       InsertProject.contactEmail := None;
       InsertProject.emailTemplate := "t";
       InsertProject.emailSubject := "s";
       InsertProject.emailRecipient := "r";
       InsertProject.createdBy := Some 0 |} in
  result (createProject 7 ip) (newMemStorage 0) =
  projectRecord 7 ip (newMemStorage 0).
Proof.
  intros ip.
  refine (proj1 (createProject_adds_project 7 ip (newMemStorage 0) _)).
  reflexivity.
Defined.

(** X10: in a well-formed store, an upvote request for a stored project
    whose [upvotes] is a safe integer, from an address that has not
    upvoted it, is answered 200 with the project as it is afterwards:
    its [upvotes] one higher and its status re-evaluated.  The other projects are as they were, the upvotes
    collection has gained exactly the record of this upvote, the address
    now counts as having upvoted, and no email has changed. *)
Theorem upvote_accepted now id ip remote s p :
  wellFormed s = true ->
  JsMap.get id (projects s) = Some p ->
  isSafeInteger (Project.upvotes p) = true ->
  result (hasUserUpvoted id (clientAddress ip remote)) s = false ->
  let ins :=
    {| InsertUpvote.projectId := id;
       InsertUpvote.userId := None;
       InsertUpvote.ipAddress := clientAddress ip remote |} in
  let s' := after (upvoteRoute now (Some id) ip remote) s in
  result (upvoteRoute now (Some id) ip remote) s =
    mkResponse 200 (BodyProject (Some (upvoted p)))
  /\ JsMap.get id (projects s') = Some (upvoted p)
  /\ Project.upvotes (upvoted p) = Project.upvotes p + 1
  /\ Project.progressStatus (upvoted p) =
     determineProgressStatus (Project.upvotes p + 1) (Project.emailsSent p)
       (Project.progressStatus p)
  /\ (forall k, k <> id ->
                JsMap.get k (projects s') = JsMap.get k (projects s))
  /\ JsMap.values (upvotes s') =
     JsMap.values (upvotes s) ++ [upvoteRecord now ins s]
  /\ upvoteCount s' id = upvoteCount s id + 1
  /\ result (hasUserUpvoted id (clientAddress ip remote)) s' = true
  /\ emails s' = emails s.
Proof.
  intros Hwf Hget _ Hnew ins s'.
  destruct (wellFormed_get _ _ _ Hwf Hget) as [Hid _].
  destruct (createUpvote_found_fields now ins s p Hget Hid)
    as (Hp & Hu & He & _).
  pose proof (upvoteRoute_eq now id ip remote s) as Heq.
  rewrite Hget, Hnew in Heq. fold ins in Heq. cbv zeta in Heq.
  assert (Hs : s' = after (createUpvote now ins) s)
    by (subst s'; unfold after at 1; now rewrite Heq).
  assert (Hvalues : JsMap.values (upvotes s') =
                    JsMap.values (upvotes s) ++ [upvoteRecord now ins s])
    by (rewrite Hs, Hu; apply values_set_fresh; now apply upvoteId_fresh).
  split.
  { unfold result. rewrite Heq. simpl. rewrite Hp.
    now rewrite get_set_same. }
  split; [rewrite Hs, Hp; apply get_set_same|].
  do 2 (split; [reflexivity|]).
  split; [intros k Hk; rewrite Hs, Hp; apply get_set_other; intros E;
          apply Hk; symmetry; exact E|].
  split; [exact Hvalues|]. split; [|split].
  - rewrite !upvoteCount_eq, Hvalues, count_snoc. simpl.
    now rewrite Z.eqb_refl.
  - apply hasUserUpvoted_true. exists (upvoteRecord now ins s).
    split; [|split; reflexivity].
    rewrite Hvalues. apply in_or_app. right. now left.
  - now rewrite Hs.
Qed.

Lemma upvote_accepted_witness :
  result (upvoteRoute 10 (Some 2) (Some "1.2.3.4") None) (newMemStorage 0) =
  mkResponse 200 (BodyProject (Some (upvoted (sampleProject2 2 0)))).
Proof.
  refine (proj1 (upvote_accepted 10 2 (Some "1.2.3.4") None (newMemStorage 0)
                   (sampleProject2 2 0) _ _ _ _)); reflexivity.
Defined.

(** X11: in a well-formed store, a valid send-email request for a
    stored project whose [emailsSent] is a safe integer and whose
    dispatch succeeds is answered 201 with the Email record; the project's [emailsSent] is one higher and its
    status re-evaluated, the other projects are as they were, the emails
    collection has gained exactly that record, and no upvote has
    changed.  With simulated sending the dispatch always succeeds. *)
Theorem email_recorded simulate now transport validatedData s p :
  wellFormed s = true ->
  JsMap.get (InsertEmail.projectId validatedData) (projects s) = Some p ->
  isSafeInteger (Project.emailsSent p) = true ->
  SendResult.success (sendEmail simulate transport) = true ->
  let id := InsertEmail.projectId validatedData in
  let s' :=
    after (sendEmailRoute simulate now transport (Valid validatedData)) s in
  result (sendEmailRoute simulate now transport (Valid validatedData)) s =
    mkResponse 201 (BodyEmail (emailRecord now validatedData s))
  /\ JsMap.get id (projects s') = Some (emailed p)
  /\ Project.emailsSent (emailed p) = Project.emailsSent p + 1
  /\ Project.progressStatus (emailed p) =
     determineProgressStatus (Project.upvotes p) (Project.emailsSent p + 1)
       (Project.progressStatus p)
  /\ (forall k, k <> id ->
                JsMap.get k (projects s') = JsMap.get k (projects s))
  /\ JsMap.values (emails s') =
     JsMap.values (emails s) ++ [emailRecord now validatedData s]
  /\ emailCount s' id = emailCount s id + 1
  /\ upvotes s' = upvotes s
  /\ (forall t, SendResult.success (sendEmail true t) = true).
Proof.
  intros Hwf Hget _ Hsent id s'.
  destruct (wellFormed_get _ _ _ Hwf Hget) as [Hid _].
  destruct (createEmail_found_fields now validatedData s p Hget Hid)
    as (Hp & Hu & He & _).
  pose proof (sendEmailRoute_eq simulate now transport validatedData s) as Heq.
  rewrite Hget, Hsent in Heq.
  assert (Hs : s' = after (createEmail now validatedData) s)
    by (subst s'; unfold after at 1; now rewrite Heq).
  assert (Hvalues : JsMap.values (emails s') =
                    JsMap.values (emails s) ++ [emailRecord now validatedData s])
    by (rewrite Hs, He; apply values_set_fresh; now apply emailId_fresh).
  split.
  { unfold result at 1. rewrite Heq. simpl. unfold result.
    now rewrite (createEmail_found _ _ _ _ Hget). }
  split; [rewrite Hs, Hp; apply get_set_same|].
  do 2 (split; [reflexivity|]).
  split; [intros k Hk; rewrite Hs, Hp; apply get_set_other; intros E;
          apply Hk; symmetry; exact E|].
  split; [exact Hvalues|]. split; [|split].
  - unfold emailCount. rewrite Hvalues, count_snoc. simpl.
    subst id. now rewrite Z.eqb_refl.
  - now rewrite Hs.
  - reflexivity.
Qed.

Lemma email_recorded_witness :
  let d :=
    {| InsertEmail.projectId := 2;
       InsertEmail.senderEmail := None;
       InsertEmail.senderName := Some "";
       InsertEmail.customContent := None |} in
  result (sendEmailRoute true 10 Delivered (Valid d)) (newMemStorage 0) =
  mkResponse 201 (BodyEmail (emailRecord 10 d (newMemStorage 0))).
Proof.
  intros d.
  refine (proj1 (email_recorded true 10 Delivered d (newMemStorage 0)
                   (sampleProject2 2 0) _ _ _ _)); reflexivity.
Defined.

(** X12: every answer of a handler has status 200, 201, 400, 404 or
    500; a request answered with an error status (400 or above) leaves
    the store exactly as it was, and so does every reading request; the
    handlers themselves answer 500 to a failed dispatch only. *)
Theorem errors_change_nothing simulate now request s :
  let response := result (handle simulate now request) s in
  In (status response) [200; 201; 400; 404; 500]
  /\ (400 <= status response -> after (handle simulate now request) s = s)
  /\ (isRead request = true -> after (handle simulate now request) s = s)
  /\ (status response = 500 ->
      exists transport body0,
        request = PostSendEmail transport body0
        /\ SendResult.success (sendEmail simulate transport) = false).
Proof.
  destruct request as [search issueType status0 | id | body0 | transport body0
                      | id ip remote | | limit]; simpl handle; cbv zeta.
  - unfold result, after, getProjectsRoute.
    destruct (queryString search), (queryString issueType),
      (queryString status0); simpl;
      (split; [auto 6|]); (split; [reflexivity|]);
      (split; [reflexivity | discriminate]).
  - unfold result, after, getProjectRoute, bind, getProjectById, gets.
    destruct id as [id|]; simpl.
    + destruct (JsMap.get id (projects s)); simpl;
        (split; [auto 6|]); (split; [reflexivity|]);
        (split; [reflexivity | discriminate]).
    + split; [auto 6|]. split; [reflexivity|].
      split; [reflexivity | discriminate].
  - destruct body0 as [validatedData|message]; simpl.
    + split; [auto 6|]. split; [lia|]. split; discriminate.
    + split; [auto 6|]. split; [reflexivity|]. split; discriminate.
  - destruct body0 as [validatedData|message].
    + unfold result, after. rewrite sendEmailRoute_eq.
      destruct (JsMap.get (InsertEmail.projectId validatedData) (projects s));
        [destruct (SendResult.success (sendEmail simulate transport)) eqn:E|];
        simpl.
      * split; [auto 6|]. split; [lia|]. split; discriminate.
      * split; [auto 6|]. split; [reflexivity|]. split; [discriminate|].
        intros _. now exists transport, (Valid validatedData).
      * split; [auto 6|]. split; [reflexivity|]. split; discriminate.
    + simpl. split; [auto 6|]. split; [reflexivity|]. split; discriminate.
  - destruct id as [id|].
    + pose proof (upvoteRoute_eq now id ip remote s) as Heq.
      unfold result, after. rewrite Heq. clear Heq.
      destruct (JsMap.get id (projects s));
        [destruct (result (hasUserUpvoted id (clientAddress ip remote)) s)|];
        simpl.
      * split; [auto 6|]. split; [reflexivity|]. split; discriminate.
      * split; [auto 6|]. split; [lia|]. split; discriminate.
      * split; [auto 6|]. split; [reflexivity|]. split; discriminate.
    + simpl. split; [auto 6|]. split; [reflexivity|]. split; discriminate.
  - simpl. split; [auto 6|]. split; [reflexivity|].
    split; [reflexivity | discriminate].
  - simpl. split; [auto 6|]. split; [reflexivity|].
    split; [reflexivity | discriminate].
Qed.

(** ** Identifiers *)

Lemma In_keys_set {V} (m : JsMap.t V) k v j :
  In j (map fst (JsMap.set k v m)) -> j = k \/ In j (map fst m).
Proof.
  induction m as [|[i w] m IH]; simpl.
  - intros [H|[]]. now left.
  - destruct (Z.eqb_spec i k) as [->|Hne]; simpl.
    + intros [H|H]; auto.
    + intros [H|H]; auto. destruct (IH H); auto.
Qed.

Lemma NoDup_keys_set {V} (m : JsMap.t V) k v :
  NoDup (map fst m) -> NoDup (map fst (JsMap.set k v m)).
Proof.
  induction m as [|[i w] m IH]; simpl; intros H.
  - constructor; [intros [] | constructor].
  - inversion H as [|? ? Hnot Hrest]; subst.
    destruct (Z.eqb_spec i k) as [->|Hne]; simpl.
    + now constructor.
    + constructor; [|now apply IH].
      intros Hin. apply In_keys_set in Hin as [E|Hin]; [congruence | auto].
Qed.

Lemma keys_set_present {V} (m : JsMap.t V) k v w :
  JsMap.get k m = Some w -> map fst (JsMap.set k v m) = map fst m.
Proof.
  induction m as [|[i u] m IH]; simpl; [discriminate|].
  destruct (Z.eqb_spec i k) as [->|Hne]; simpl; [reflexivity|].
  intros H. now rewrite IH.
Qed.

Lemma recordIds_iff s :
  recordIds s = true <->
  forallb (fun kv => fst kv =? User.id (snd kv)) (users s) = true
  /\ forallb (fun kv => fst kv =? Project.id (snd kv)) (projects s) = true
  /\ forallb (fun kv => fst kv =? Upvote.id (snd kv)) (upvotes s) = true
  /\ forallb (fun kv => fst kv =? Email.id (snd kv)) (emails s) = true
  /\ forallb (fun kv => fst kv =? Activity.id (snd kv)) (activities s) = true
  /\ forallb (fun kv => fst kv =? Comment.id (snd kv)) (comments s) = true.
Proof. unfold recordIds. rewrite !andb_true_iff. tauto. Qed.

Ltac ids_split :=
  repeat match goal with
         | H : recordIds _ = true /\ distinctKeys _ |- _ => destruct H
         | H : recordIds _ = true |- _ =>
             apply recordIds_iff in H;
             destruct H as (? & ? & ? & ? & ? & ?)
         | H : distinctKeys _ |- _ =>
             destruct H as (? & ? & ? & ? & ? & ?)
         end;
  split; [apply recordIds_iff | unfold distinctKeys]; simpl;
  repeat split;
  try assumption;
  try (apply NoDup_keys_set; assumption);
  try (apply forallb_set; [assumption | simpl; apply Z.eqb_refl]).

Lemma ids_new start :
  recordIds (newMemStorage start) = true /\ distinctKeys (newMemStorage start).
Proof.
  split; [reflexivity|]. unfold distinctKeys. simpl.
  repeat split; repeat constructor; simpl; intuition discriminate.
Qed.

Lemma ids_createActivity now ia s :
  recordIds s = true /\ distinctKeys s ->
  recordIds (after (createActivity now ia) s) = true
  /\ distinctKeys (after (createActivity now ia) s).
Proof. intros H. rewrite createActivity_after. ids_split. Qed.

Lemma ids_createUser iu s :
  recordIds s = true /\ distinctKeys s ->
  recordIds (after (createUser iu) s) = true
  /\ distinctKeys (after (createUser iu) s).
Proof. intros H. run_store. ids_split. Qed.

Lemma ids_createProject now ip s :
  recordIds s = true /\ distinctKeys s ->
  recordIds (after (createProject now ip) s) = true
  /\ distinctKeys (after (createProject now ip) s).
Proof. intros H. run_store. ids_split. Qed.

Lemma ids_createComment now ic s :
  recordIds s = true /\ distinctKeys s ->
  recordIds (after (createComment now ic) s) = true
  /\ distinctKeys (after (createComment now ic) s).
Proof. intros H. run_store. ids_split. Qed.

Lemma ids_withUpvote now ins s :
  recordIds s = true /\ distinctKeys s ->
  recordIds (withUpvote now ins s) = true /\ distinctKeys (withUpvote now ins s).
Proof. intros H. unfold withUpvote. run_store. ids_split. Qed.

Lemma ids_withEmail now ins s :
  recordIds s = true /\ distinctKeys s ->
  recordIds (withEmail now ins s) = true /\ distinctKeys (withEmail now ins s).
Proof. intros H. unfold withEmail. run_store. ids_split. Qed.

Lemma ids_updateProject now id updates s :
  wellFormed s = true ->
  PartialProject.id updates = None ->
  recordIds s = true /\ distinctKeys s ->
  recordIds (after (updateProject now id updates) s) = true
  /\ distinctKeys (after (updateProject now id updates) s).
Proof.
  intros Hwf Hid H.
  destruct (JsMap.get id (projects s)) as [p|] eqn:Hget.
  - unfold after. rewrite (updateProject_found _ _ _ _ _ Hget). simpl.
    destruct (wellFormed_get _ _ _ Hwf Hget) as [Hp _].
    assert (H1 : recordIds
                   (set_projects
                      (JsMap.set id (mergeProject p updates) (projects s)) s)
                 = true
                 /\ distinctKeys
                      (set_projects
                         (JsMap.set id (mergeProject p updates) (projects s))
                         s)).
    { unfold set_projects. ids_split.
      apply forallb_set; [assumption|]. simpl. rewrite Hid. simpl.
      rewrite Hp. apply Z.eqb_refl. }
    destruct (statusUpdated p updates); [|exact H1].
    now apply ids_createActivity.
  - now rewrite (updateProject_none_after now id updates s Hget).
Qed.

Lemma ids_exec now op s :
  wellFormed s = true -> guarded s op = true ->
  recordIds s = true /\ distinctKeys s ->
  recordIds (exec now op s) = true /\ distinctKeys (exec now op s).
Proof.
  intros Hwf Hg H. destruct op as [iu|ip|id updates|ins|ins|ia|ic];
    simpl exec; simpl in Hg.
  - now apply ids_createUser.
  - now apply ids_createProject.
  - discriminate.
  - destruct (JsMap.get (InsertUpvote.projectId ins) (projects s))
      as [p|] eqn:Hget; [|discriminate].
    rewrite (createUpvote_found_after _ _ _ _ Hget).
    apply ids_createActivity, ids_updateProject;
      [now apply wellFormed_withUpvote | reflexivity
      | now apply ids_withUpvote].
  - destruct (JsMap.get (InsertEmail.projectId ins) (projects s))
      as [p|] eqn:Hget; [|discriminate].
    rewrite (createEmail_found_after _ _ _ _ Hget).
    apply ids_createActivity, ids_updateProject;
      [now apply wellFormed_withEmail | reflexivity
      | now apply ids_withEmail].
  - now apply ids_createActivity.
  - now apply ids_createComment.
Qed.

Lemma reachable_ids start s :
  reachable start s -> recordIds s = true /\ distinctKeys s.
Proof.
  induction 1 as [|s now op Hs IH Hg].
  - apply ids_new.
  - apply ids_exec; [|exact Hg | exact IH].
    now apply (reachable_invariant start).
Qed.

Lemma forallb_In {A} (P : A -> bool) l x :
  forallb P l = true -> In x l -> P x = true.
Proof. intros H Hin. rewrite forallb_forall in H. now apply H. Qed.

(** X13: in every store that the request handlers reach from the
    constructed one, identifiers are what the counters handed out: in
    each of the six collections every record is stored under its own
    [id], no identifier occurs twice, and every identifier in use is
    below the collection's counter, so the next record gets an
    identifier that no record has.  In particular no two stored
    projects have the same [id], and [getProjectById] finds each stored
    project under its [id]. *)
Theorem identifiers_are_unique start s simulate requests :
  reachable start s ->
  let s' := serve simulate requests s in
  wellFormed s' = true
  /\ recordIds s' = true
  /\ distinctKeys s'
  /\ NoDup (map Project.id (JsMap.values (projects s')))
  /\ (forall p, In p (JsMap.values (projects s')) ->
                result (getProjectById (Project.id p)) s' = Some p)
  /\ JsMap.get (projectId s') (projects s') = None
  /\ JsMap.get (upvoteId s') (upvotes s') = None
  /\ JsMap.get (emailId s') (emails s') = None
  /\ JsMap.get (activityId s') (activities s') = None.
Proof.
  intros Hs s'.
  assert (Hs' : reachable start s') by now apply serve_reachable.
  destruct (reachable_invariant start s' Hs') as (Hwf & _).
  destruct (reachable_ids start s' Hs') as (Hids & Hkeys).
  split; [exact Hwf|]. split; [exact Hids|]. split; [exact Hkeys|].
  apply recordIds_iff in Hids. destruct Hids as (_ & Hp & _).
  destruct Hkeys as (_ & Hnd & _).
  assert (Hmap : map Project.id (JsMap.values (projects s')) =
                 map fst (projects s')).
  { unfold JsMap.values. rewrite map_map. apply map_ext_in.
    intros kv Hin. pose proof (forallb_In _ _ _ Hp Hin) as E.
    apply Z.eqb_eq in E. now symmetry. }
  split; [now rewrite Hmap|]. split.
  - intros p Hin. unfold JsMap.values in Hin.
    apply in_map_iff in Hin as ([k p'] & E & Hin). simpl in E. subst p'.
    pose proof (forallb_In _ _ _ Hp Hin) as E. simpl in E.
    apply Z.eqb_eq in E. rewrite <- E.
    unfold result, getProjectById, gets. simpl.
    clear Hmap Hp E. revert Hnd Hin.
    induction (projects s') as [|[j q] m IH]; simpl; [intros _ []|].
    intros Hnd [Hin|Hin].
    + injection Hin as -> ->. now rewrite Z.eqb_refl.
    + inversion Hnd as [|? ? Hnot Hrest]; subst.
      destruct (Z.eqb_spec j k) as [->|_]; [|now apply IH].
      exfalso. apply Hnot. apply in_map_iff. now exists (k, p).
  - split; [now apply projectId_fresh|]. split; [now apply upvoteId_fresh|].
    split; [now apply emailId_fresh | now apply activityId_fresh].
Qed.

Lemma identifiers_are_unique_witness :
  wellFormed
    (serve true [(10, PostUpvote (Some 2) (Some "1.2.3.4") None)]
       (newMemStorage 0)) = true.
Proof.
  refine (proj1 (identifiers_are_unique 0 (newMemStorage 0) true
                   [(10, PostUpvote (Some 2) (Some "1.2.3.4") None)] _)).
  apply reachable_new.
Defined.

(** ** What the handlers do to a project over time *)

(** The projects after one guarded use of the store. *)
Lemma exec_projects_shape now op s :
  wellFormed s = true -> guarded s op = true ->
  projects (exec now op s) = projects s
  \/ (exists ip,
        projects (exec now op s) =
        JsMap.set (projectId s) (projectRecord now ip s) (projects s))
  \/ (exists j p0,
        JsMap.get j (projects s) = Some p0
        /\ (projects (exec now op s) = JsMap.set j (upvoted p0) (projects s)
            \/ projects (exec now op s) = JsMap.set j (emailed p0) (projects s))).
Proof.
  intros Hwf Hg. destruct op as [iu|ip|id updates|ins|ins|ia|ic];
    simpl exec; simpl in Hg; try (left; reflexivity).
  - right. left. exists ip. reflexivity.
  - discriminate.
  - destruct (JsMap.get (InsertUpvote.projectId ins) (projects s))
      as [p|] eqn:Hget; [|discriminate].
    destruct (wellFormed_get _ _ _ Hwf Hget) as [Hid _].
    destruct (createUpvote_found_fields now ins s p Hget Hid) as (Hp & _).
    right. right. exists (InsertUpvote.projectId ins), p. auto.
  - destruct (JsMap.get (InsertEmail.projectId ins) (projects s))
      as [p|] eqn:Hget; [|discriminate].
    destruct (wellFormed_get _ _ _ Hwf Hget) as [Hid _].
    destruct (createEmail_found_fields now ins s p Hget Hid) as (Hp & _).
    right. right. exists (InsertEmail.projectId ins), p. auto.
Qed.

(** A stored project after one guarded use: itself, or itself upvoted,
    or itself emailed. *)
Lemma exec_project_step now op s k p :
  wellFormed s = true -> guarded s op = true ->
  JsMap.get k (projects s) = Some p ->
  JsMap.get k (projects (exec now op s)) = Some p
  \/ JsMap.get k (projects (exec now op s)) = Some (upvoted p)
  \/ JsMap.get k (projects (exec now op s)) = Some (emailed p).
Proof.
  intros Hwf Hg Hget.
  destruct (exec_projects_shape now op s Hwf Hg)
    as [-> | [(ip & ->) | (j & p0 & Hj & [-> | ->])]].
  - now left.
  - left. rewrite get_set_other; [exact Hget|].
    destruct (wellFormed_get _ _ _ Hwf Hget) as [_ Hlt]. lia.
  - rewrite get_set. destruct (Z.eqb_spec j k) as [->|_]; [|now left].
    right. left. congruence.
  - rewrite get_set. destruct (Z.eqb_spec j k) as [->|_]; [|now left].
    right. right. congruence.
Qed.

(** Where a project of the store after one guarded use comes from. *)
Lemma exec_project_origin now op s k p' :
  wellFormed s = true -> guarded s op = true ->
  JsMap.get k (projects (exec now op s)) = Some p' ->
  (exists ip, p' = projectRecord now ip s)
  \/ exists p,
       JsMap.get k (projects s) = Some p
       /\ (p' = p \/ p' = upvoted p \/ p' = emailed p).
Proof.
  intros Hwf Hg.
  destruct (exec_projects_shape now op s Hwf Hg)
    as [-> | [(ip & ->) | (j & p0 & Hj & [-> | ->])]]; rewrite ?get_set.
  - intros H. right. exists p'. auto.
  - destruct (Z.eqb_spec (projectId s) k) as [_|_].
    + intros [= <-]. left. now exists ip.
    + intros H. right. exists p'. auto.
  - destruct (Z.eqb_spec j k) as [->|_].
    + intros [= <-]. right. exists p0. auto.
    + intros H. right. exists p'. auto.
  - destruct (Z.eqb_spec j k) as [->|_].
    + intros [= <-]. right. exists p0. auto.
    + intros H. right. exists p'. auto.
Qed.

Lemma sameSubmission_refl p : sameSubmission p p.
Proof. unfold sameSubmission. repeat split. Qed.

Lemma sameSubmission_trans p q r :
  sameSubmission p q -> sameSubmission q r -> sameSubmission p r.
Proof.
  unfold sameSubmission. intros H1 H2.
  decompose [and] H1. decompose [and] H2.
  repeat split; congruence.
Qed.

Lemma sameSubmission_upvoted p : sameSubmission p (upvoted p).
Proof. unfold sameSubmission. repeat split. Qed.

Lemma sameSubmission_emailed p : sameSubmission p (emailed p).
Proof. unfold sameSubmission. repeat split. Qed.

(** X14: through the request handlers a stored project is never
    removed and what was submitted never changes: after any requests
    the project is still stored under its identifier with the same
    title, description, issue type, location, coordinates, urgency,
    contact, drafted email, creation time and creator, and its [upvotes]
    and [emailsSent] have not gone down. *)
Theorem submission_is_kept simulate requests s k p :
  wellFormed s = true ->
  JsMap.get k (projects s) = Some p ->
  exists p',
    JsMap.get k (projects (serve simulate requests s)) = Some p'
    /\ sameSubmission p p'
    /\ Project.upvotes p <= Project.upvotes p'
    /\ Project.emailsSent p <= Project.emailsSent p'.
Proof.
  revert s p. induction requests as [|[now request] requests IH];
    intros s p Hwf Hget; simpl.
  - exists p. split; [exact Hget|]. split; [apply sameSubmission_refl|]. lia.
  - destruct (handle_step simulate now request s) as [-> | (op & Hg & ->)];
      [now apply IH|].
    pose proof (wellFormed_exec now op s Hwf Hg) as Hwf'.
    destruct (exec_project_step now op s k p Hwf Hg Hget) as [H | [H | H]];
      destruct (IH _ _ Hwf' H) as (p' & Hget' & Hsame & Hu & He);
      exists p'; (split; [exact Hget'|]).
    + auto.
    + split; [eapply sameSubmission_trans;
              [apply sameSubmission_upvoted | exact Hsame]|].
      simpl in Hu, He. lia.
    + split; [eapply sameSubmission_trans;
              [apply sameSubmission_emailed | exact Hsame]|].
      simpl in Hu, He. lia.
Qed.

Lemma submission_is_kept_witness :
  exists p',
    JsMap.get 1
      (projects
         (serve true
            [(10, PostUpvote (Some 1) (Some "1.2.3.4") None); (11, GetStats)]
            (newMemStorage 0))) = Some p'
    /\ sameSubmission (sampleProject1 1 0) p'
    /\ Project.upvotes (sampleProject1 1 0) <= Project.upvotes p'
    /\ Project.emailsSent (sampleProject1 1 0) <= Project.emailsSent p'.
Proof.
  apply (submission_is_kept true _ (newMemStorage 0) 1 (sampleProject1 1 0));
    reflexivity.
Defined.

(** ** Status and counters over time *)

Lemma statusFollowsCounters_upvoted p : statusFollowsCounters (upvoted p).
Proof.
  unfold statusFollowsCounters. simpl.
  destruct (determineProgressStatus_cases (Project.upvotes p + 1)
              (Project.emailsSent p) (Project.progressStatus p))
    as [[Hl ->] | [_ ->]]; auto.
Qed.

Lemma statusFollowsCounters_emailed p : statusFollowsCounters (emailed p).
Proof.
  unfold statusFollowsCounters. simpl.
  destruct (determineProgressStatus_cases (Project.upvotes p)
              (Project.emailsSent p + 1) (Project.progressStatus p))
    as [[Hl ->] | [_ ->]]; auto.
Qed.

Lemma rank_upvoted p :
  statusFollowsCounters p ->
  (progressStatus_rank (Project.progressStatus p)
   <= progressStatus_rank (Project.progressStatus (upvoted p)))%nat.
Proof.
  intros [Hl | Hc]; simpl.
  - rewrite determineProgressStatus_later by exact Hl. apply Nat.le_refl.
  - destruct (determineProgressStatus_cases (Project.upvotes p + 1)
                (Project.emailsSent p) (Project.progressStatus p))
      as [[_ ->] | [_ ->]]; [apply Nat.le_refl|].
    rewrite Hc at 1. apply statusOfCounts_monotone; lia.
Qed.

Lemma rank_emailed p :
  statusFollowsCounters p ->
  (progressStatus_rank (Project.progressStatus p)
   <= progressStatus_rank (Project.progressStatus (emailed p)))%nat.
Proof.
  intros [Hl | Hc]; simpl.
  - rewrite determineProgressStatus_later by exact Hl. apply Nat.le_refl.
  - destruct (determineProgressStatus_cases (Project.upvotes p)
                (Project.emailsSent p + 1) (Project.progressStatus p))
      as [[_ ->] | [_ ->]]; [apply Nat.le_refl|].
    rewrite Hc at 1. apply statusOfCounts_monotone; lia.
Qed.

Lemma statuses_new start : statusesFollowCounters (newMemStorage start).
Proof.
  intros k p. rewrite newMemStorage_projects. cbn [JsMap.get].
  destruct (1 =? k); [intros [= <-]; right; reflexivity|].
  destruct (2 =? k); [intros [= <-]; right; reflexivity|].
  destruct (3 =? k); [intros [= <-]; left; left; reflexivity|].
  discriminate.
Qed.

Lemma statuses_exec now op s :
  wellFormed s = true -> guarded s op = true ->
  statusesFollowCounters s -> statusesFollowCounters (exec now op s).
Proof.
  intros Hwf Hg H k p' Hget.
  destruct (exec_project_origin now op s k p' Hwf Hg Hget)
    as [(ip & ->) | (p & Hp & [-> | [-> | ->]])].
  - right. reflexivity.
  - exact (H k p Hp).
  - apply statusFollowsCounters_upvoted.
  - apply statusFollowsCounters_emailed.
Qed.

Lemma reachable_statuses start s :
  reachable start s -> statusesFollowCounters s.
Proof.
  induction 1 as [|s now op Hs IH Hg].
  - apply statuses_new.
  - apply statuses_exec; [|exact Hg | exact IH].
    now apply (reachable_invariant start).
Qed.

(** X15: in every store that the request handlers reach from the
    constructed one, the status of each project is a later one or the
    one its own counters give ([email_campaign_active] from 50 emails,
    else [community_support] from 25 upvotes, else [idea_submitted]);
    and from there on, through any further requests, the rank of the
    project's status never goes down. *)
Theorem status_never_regresses start s simulate requests k p :
  reachable start s ->
  JsMap.get k (projects s) = Some p ->
  statusFollowsCounters p
  /\ exists p',
       JsMap.get k (projects (serve simulate requests s)) = Some p'
       /\ statusFollowsCounters p'
       /\ (progressStatus_rank (Project.progressStatus p)
           <= progressStatus_rank (Project.progressStatus p'))%nat.
Proof.
  intros Hs Hget. split; [exact (reachable_statuses start s Hs k p Hget)|].
  revert s p Hs Hget. induction requests as [|[now request] requests IH];
    intros s p Hs Hget; simpl.
  - exists p. split; [exact Hget|].
    split; [exact (reachable_statuses start s Hs k p Hget) | apply Nat.le_refl].
  - destruct (handle_step simulate now request s) as [-> | (op & Hg & ->)];
      [now apply IH|].
    destruct (reachable_invariant start s Hs) as (Hwf & _).
    pose proof (reachable_statuses start s Hs k p Hget) as Hp.
    pose proof (reachable_exec start s now op Hs Hg) as Hs'.
    destruct (exec_project_step now op s k p Hwf Hg Hget) as [H | [H | H]];
      destruct (IH _ _ Hs' H) as (p' & Hget' & Hf & Hr);
      exists p'; (split; [exact Hget'|]); (split; [exact Hf|]).
    + exact Hr.
    + eapply Nat.le_trans; [apply rank_upvoted; exact Hp | exact Hr].
    + eapply Nat.le_trans; [apply rank_emailed; exact Hp | exact Hr].
Qed.

Lemma status_never_regresses_witness :
  statusFollowsCounters (sampleProject2 2 0).
Proof.
  refine (proj1 (status_never_regresses 0 (newMemStorage 0) true []
                   2 (sampleProject2 2 0) _ _)).
  - apply reachable_new.
  - reflexivity.
Defined.

(** ** Collections only grow *)

Lemma userId_fresh s :
  wellFormed s = true -> JsMap.get (userId s) (users s) = None.
Proof.
  intros H. apply wellFormed_iff in H. destruct H as (Hk & _).
  apply keys_below_get_none with (userId s); [exact Hk | lia].
Qed.

Lemma commentId_fresh s :
  wellFormed s = true -> JsMap.get (commentId s) (comments s) = None.
Proof.
  intros H. apply wellFormed_iff in H.
  destruct H as (_ & _ & _ & _ & _ & Hk & _).
  apply keys_below_get_none with (commentId s); [exact Hk | lia].
Qed.

Lemma grows_same {A} (l : list A) : exists l', l = l ++ l'.
Proof. exists []. now rewrite app_nil_r. Qed.

Lemma grows_fresh {V} (m : JsMap.t V) k v :
  JsMap.get k m = None -> exists l, JsMap.set k v m = m ++ l.
Proof. intros H. exists [(k, v)]. now apply set_fresh. Qed.

Lemma grows_keys_fresh {V} (m : JsMap.t V) k v :
  JsMap.get k m = None ->
  exists l, map fst (JsMap.set k v m) = map fst m ++ l.
Proof.
  intros H. exists [k]. rewrite (set_fresh _ _ _ H). now rewrite map_app.
Qed.

Lemma storeGrows_refl s : storeGrows s s.
Proof.
  unfold storeGrows, countersAdvance.
  repeat split; try apply grows_same; lia.
Qed.

Lemma grows_trans {A} (l1 l2 l3 : list A) :
  (exists l, l2 = l1 ++ l) -> (exists l, l3 = l2 ++ l) ->
  exists l, l3 = l1 ++ l.
Proof.
  intros [a ->] [b ->]. exists (a ++ b). now rewrite app_assoc.
Qed.

Lemma storeGrows_trans s1 s2 s3 :
  storeGrows s1 s2 -> storeGrows s2 s3 -> storeGrows s1 s3.
Proof.
  unfold storeGrows, countersAdvance.
  intros (U1 & P1 & V1 & E1 & A1 & C1 & N1) (U2 & P2 & V2 & E2 & A2 & C2 & N2).
  repeat split; try (eapply grows_trans; eassumption); lia.
Qed.

Lemma grows_createActivity now ia s :
  wellFormed s = true -> storeGrows s (after (createActivity now ia) s).
Proof.
  intros Hwf. rewrite createActivity_after.
  unfold storeGrows, countersAdvance. simpl.
  repeat split; try apply grows_same; try lia.
  now apply grows_fresh, activityId_fresh.
Qed.

Lemma grows_createUser iu s :
  wellFormed s = true -> storeGrows s (after (createUser iu) s).
Proof.
  intros Hwf. run_store. unfold storeGrows, countersAdvance. simpl.
  repeat split; try apply grows_same; try lia.
  now apply grows_fresh, userId_fresh.
Qed.

Lemma grows_withUpvote now ins s :
  wellFormed s = true -> storeGrows s (withUpvote now ins s).
Proof.
  intros Hwf. unfold withUpvote. run_store.
  unfold storeGrows, countersAdvance. simpl.
  repeat split; try apply grows_same; try lia.
  now apply grows_fresh, upvoteId_fresh.
Qed.

Lemma grows_withEmail now ins s :
  wellFormed s = true -> storeGrows s (withEmail now ins s).
Proof.
  intros Hwf. unfold withEmail. run_store.
  unfold storeGrows, countersAdvance. simpl.
  repeat split; try apply grows_same; try lia.
  now apply grows_fresh, emailId_fresh.
Qed.

Lemma grows_createProject now ip s :
  wellFormed s = true -> storeGrows s (after (createProject now ip) s).
Proof.
  intros Hwf. unfold after. rewrite createProject_eq.
  unfold storeGrows, countersAdvance. simpl.
  repeat split; try apply grows_same; try lia.
  - now apply grows_keys_fresh, projectId_fresh.
  - now apply grows_fresh, activityId_fresh.
Qed.

Lemma grows_createComment now ic s :
  wellFormed s = true -> storeGrows s (after (createComment now ic) s).
Proof.
  intros Hwf. unfold after. rewrite createComment_eq.
  unfold storeGrows, countersAdvance. simpl.
  repeat split; try apply grows_same; try lia.
  - now apply grows_fresh, activityId_fresh.
  - now apply grows_fresh, commentId_fresh.
Qed.

Lemma grows_updateProject now id updates s :
  wellFormed s = true -> storeGrows s (after (updateProject now id updates) s).
Proof.
  intros Hwf.
  destruct (JsMap.get id (projects s)) as [p|] eqn:Hget.
  - destruct (updateProject_found_fields now id updates s p Hget)
      as (Hp & Hu & Hv & He & Hc & N1 & N2 & N3 & N4 & N5).
    destruct (updateProject_found_log now id updates s p Hwf Hget)
      as [Hlog Hnext].
    unfold storeGrows, countersAdvance.
    rewrite Hp, Hu, Hv, He, Hc, N1, N2, N3, N4, N5, Hlog, Hnext.
    rewrite (keys_set_present _ _ _ _ Hget).
    repeat split; try apply grows_same; try lia.
    eexists. reflexivity.
  - rewrite (updateProject_none_after now id updates s Hget).
    apply storeGrows_refl.
Qed.

Lemma grows_exec now op s :
  wellFormed s = true -> guarded s op = true -> storeGrows s (exec now op s).
Proof.
  intros Hwf Hg. destruct op as [iu|ip|id updates|ins|ins|ia|ic];
    simpl exec; simpl in Hg.
  - now apply grows_createUser.
  - now apply grows_createProject.
  - discriminate.
  - destruct (JsMap.get (InsertUpvote.projectId ins) (projects s))
      as [p|] eqn:Hget; [|discriminate].
    rewrite (createUpvote_found_after _ _ _ _ Hget).
    pose proof (wellFormed_withUpvote now ins s Hwf) as Hwf1.
    pose proof (wellFormed_updateProject now (Project.id p) (upvotePatch p)
                  _ Hwf1 eq_refl) as Hwf2.
    apply storeGrows_trans with (withUpvote now ins s);
      [now apply grows_withUpvote|].
    apply storeGrows_trans
      with (after (updateProject now (Project.id p) (upvotePatch p))
              (withUpvote now ins s));
      [now apply grows_updateProject | now apply grows_createActivity].
  - destruct (JsMap.get (InsertEmail.projectId ins) (projects s))
      as [p|] eqn:Hget; [|discriminate].
    rewrite (createEmail_found_after _ _ _ _ Hget).
    pose proof (wellFormed_withEmail now ins s Hwf) as Hwf1.
    pose proof (wellFormed_updateProject now (Project.id p) (emailPatch p)
                  _ Hwf1 eq_refl) as Hwf2.
    apply storeGrows_trans with (withEmail now ins s);
      [now apply grows_withEmail|].
    apply storeGrows_trans
      with (after (updateProject now (Project.id p) (emailPatch p))
              (withEmail now ins s));
      [now apply grows_updateProject | now apply grows_createActivity].
  - now apply grows_createActivity.
  - now apply grows_createComment.
Qed.

(** X16: through the request handlers the collections are append-only:
    after any requests on a well-formed store, the users, upvotes,
    emails, activities and comments that were stored are still there,
    unchanged and in the same positions, with the new records after
    them; the project identifiers likewise; and no identifier counter
    has gone back. *)
Theorem collections_are_append_only simulate requests s :
  wellFormed s = true ->
  storeGrows s (serve simulate requests s).
Proof.
  revert s. induction requests as [|[now request] requests IH];
    intros s Hwf; simpl.
  - apply storeGrows_refl.
  - destruct (handle_step simulate now request s) as [-> | (op & Hg & ->)];
      [now apply IH|].
    apply storeGrows_trans with (exec now op s); [now apply grows_exec|].
    apply IH. now apply wellFormed_exec.
Qed.

Lemma collections_are_append_only_witness :
  storeGrows (newMemStorage 0)
    (serve true
       [(10, PostUpvote (Some 1) (Some "1.2.3.4") None);
        (11, PostUpvote (Some 1) (Some "1.2.3.4") None)]
       (newMemStorage 0)).
Proof.
  apply (collections_are_append_only true _ (newMemStorage 0)). reflexivity.
Defined.

(** ** One upvote per address *)

Lemma string_or_nonempty x fallback :
  fallback <> "" -> string_or x fallback <> "".
Proof.
  intros H. unfold string_or.
  destruct x as [[|c r]|]; simpl; try exact H. discriminate.
Qed.

Lemma clientAddress_nonempty ip remote : clientAddress ip remote <> "".
Proof. apply string_or_nonempty. discriminate. Qed.

(** The upvotes after one request: as before, or one more, from an
    address that had not upvoted the project. *)
Lemma handle_upvotes simulate now request s :
  wellFormed s = true ->
  upvotes (after (handle simulate now request) s) = upvotes s
  \/ exists id ip remote p,
       request = PostUpvote (Some id) ip remote
       /\ JsMap.get id (projects s) = Some p
       /\ result (hasUserUpvoted id (clientAddress ip remote)) s = false
       /\ JsMap.values (upvotes (after (handle simulate now request) s)) =
          JsMap.values (upvotes s)
          ++ [upvoteRecord now
                {| InsertUpvote.projectId := id;
                   InsertUpvote.userId := None;
                   InsertUpvote.ipAddress := clientAddress ip remote |} s].
Proof.
  intros Hwf.
  destruct request as [search issueType status0 | id | body0 | transport body0
                      | id ip remote | | limit]; simpl handle.
  - left. now rewrite getProjectsRoute_after.
  - left. now rewrite getProjectRoute_after.
  - left. destruct body0; reflexivity.
  - left.
    destruct (sendEmailRoute_cases simulate now transport body0 s)
      as [-> | (d & p & _ & Hget & _ & ->)]; [reflexivity|].
    destruct (wellFormed_get _ _ _ Hwf Hget) as [Hid _].
    now destruct (createEmail_found_fields now d s p Hget Hid) as (_ & -> & _).
  - destruct (upvoteRoute_cases now id ip remote s)
      as [[-> _] | (k & p & -> & Hget & Hnew & Hafter & _)]; [now left|].
    right. exists k, ip, remote, p.
    split; [reflexivity|]. split; [exact Hget|]. split; [exact Hnew|].
    rewrite Hafter.
    destruct (wellFormed_get _ _ _ Hwf Hget) as [Hid _].
    destruct (createUpvote_found_fields now
                {| InsertUpvote.projectId := k;
                   InsertUpvote.userId := None;
                   InsertUpvote.ipAddress := clientAddress ip remote |}
                s p Hget Hid) as (_ & -> & _).
    apply values_set_fresh. now apply upvoteId_fresh.
  - left. reflexivity.
  - left. reflexivity.
Qed.

Lemma hasUserUpvoted_pairs s id address :
  result (hasUserUpvoted id address) s = true <-> In (id, address) (voterPairs s).
Proof.
  rewrite hasUserUpvoted_true. unfold voterPairs. rewrite in_map_iff. split.
  - intros (u & Hin & <- & <-). now exists u.
  - intros (u & [= <- <-] & Hin). now exists u.
Qed.

Lemma handle_wellFormed simulate now request s :
  wellFormed s = true ->
  wellFormed (after (handle simulate now request) s) = true.
Proof.
  intros Hwf.
  destruct (handle_step simulate now request s) as [-> | (op & Hg & ->)];
    [exact Hwf | now apply wellFormed_exec].
Qed.

Lemma handle_projects_kept simulate now request s k :
  wellFormed s = true ->
  JsMap.get k (projects s) <> None ->
  JsMap.get k (projects (after (handle simulate now request) s)) <> None.
Proof.
  intros Hwf Hk.
  destruct (handle_step simulate now request s) as [-> | (op & Hg & ->)];
    [exact Hk | now apply exec_projects_kept].
Qed.

(** One request keeps the pairs distinct and the upvotes in order. *)
Lemma handle_voters simulate now request s :
  wellFormed s = true ->
  NoDup (voterPairs s) ->
  (forall u, In u (JsMap.values (upvotes s)) ->
             Upvote.ipAddress u <> ""
             /\ JsMap.get (Upvote.projectId u) (projects s) <> None) ->
  NoDup (voterPairs (after (handle simulate now request) s))
  /\ (forall u,
         In u (JsMap.values (upvotes (after (handle simulate now request) s))) ->
         Upvote.ipAddress u <> ""
         /\ JsMap.get (Upvote.projectId u)
              (projects (after (handle simulate now request) s)) <> None).
Proof.
  intros Hwf Hnd Hall.
  pose proof (handle_projects_kept simulate now request s) as Hkept.
  destruct (handle_upvotes simulate now request s Hwf)
    as [E | (id & ip & remote & p & _ & Hget & Hnew & E)].
  - unfold voterPairs. rewrite E. split; [exact Hnd|].
    intros u Hu. destruct (Hall u Hu) as [Hip Hpr]. auto.
  - unfold voterPairs. rewrite E. split.
    + rewrite map_app. simpl.
      apply Permutation_NoDup
        with (l := (id, clientAddress ip remote) :: voterPairs s).
      * unfold voterPairs. apply Permutation_cons_append.
      * constructor; [|exact Hnd].
        intros Hin. apply hasUserUpvoted_pairs in Hin. congruence.
    + intros u Hu. apply in_app_or in Hu as [Hu | [<- | []]].
      * destruct (Hall u Hu) as [Hip Hpr]. auto.
      * simpl. split; [apply clientAddress_nonempty|].
        apply Hkept; [exact Hwf | congruence].
Qed.

(** X17: the upvote handler counts an address once per project: if in
    a well-formed store no (project, address) pair occurs twice among
    the upvotes, every upvote has a non-empty address and refers to a
    stored project, then the same holds after any requests.  The
    constructed store, which has no upvotes, is such a store. *)
Theorem one_upvote_per_address simulate requests s :
  wellFormed s = true ->
  NoDup (voterPairs s) ->
  (forall u, In u (JsMap.values (upvotes s)) ->
             Upvote.ipAddress u <> ""
             /\ JsMap.get (Upvote.projectId u) (projects s) <> None) ->
  NoDup (voterPairs (serve simulate requests s))
  /\ (forall u,
         In u (JsMap.values (upvotes (serve simulate requests s))) ->
         Upvote.ipAddress u <> ""
         /\ JsMap.get (Upvote.projectId u)
              (projects (serve simulate requests s)) <> None)
  /\ (forall start,
         wellFormed (newMemStorage start) = true
         /\ JsMap.values (upvotes (newMemStorage start)) = []).
Proof.
  intros Hwf Hnd Hall.
  assert (Hserve :
            NoDup (voterPairs (serve simulate requests s))
            /\ (forall u,
                   In u (JsMap.values (upvotes (serve simulate requests s))) ->
                   Upvote.ipAddress u <> ""
                   /\ JsMap.get (Upvote.projectId u)
                        (projects (serve simulate requests s)) <> None)).
  { revert s Hwf Hnd Hall.
    induction requests as [|[now request] requests IH];
      intros s Hwf Hnd Hall; simpl; [now split|].
    destruct (handle_voters simulate now request s Hwf Hnd Hall)
      as [Hnd' Hall'].
    apply IH; [now apply handle_wellFormed | exact Hnd' | exact Hall']. }
  destruct Hserve as [H1 H2]. split; [exact H1|]. split; [exact H2|].
  intros start. split; reflexivity.
Qed.

Lemma one_upvote_per_address_witness :
  NoDup
    (voterPairs
       (serve true
          [(10, PostUpvote (Some 1) (Some "1.2.3.4") None);
           (11, PostUpvote (Some 1) (Some "1.2.3.4") None);
           (12, PostUpvote (Some 1) None None)]
          (newMemStorage 0))).
Proof.
  refine (proj1 (one_upvote_per_address true _ (newMemStorage 0) _ _ _)).
  - reflexivity.
  - constructor.
  - intros u [].
Defined.

(** ** Users *)

Lemma find_snoc {A} (f : A -> bool) (l : list A) (x : A) :
  find f (l ++ [x]) =
  match find f l with
  | Some y => Some y
  | None => if f x then Some x else None
  end.
Proof.
  induction l as [|y l IH]; simpl; [reflexivity|].
  destruct (f y); [reflexivity | exact IH].
Qed.

Lemma createUser_eq iu s :
  createUser iu s =
  (userRecord iu s,
   mkStore (JsMap.set (userId s) (userRecord iu s) (users s)) (projects s)
     (upvotes s) (emails s) (activities s) (comments s) (userId s + 1)
     (projectId s) (upvoteId s) (emailId s) (activityId s) (commentId s)).
Proof. reflexivity. Qed.

(** X18: in a well-formed store [createUser] stores the user under the
    next identifier, where [getUser] then finds it, and leaves the other
    users as they were.  On ASCII names (the name looked up, the new
    user's and the stored users'), [getUserByUsername] compares names
    without regard to case and returns the first stored user that
    matches: for a name that matches the new user's, it returns the
    earlier user of that name if there is one (the store does not refuse
    a second user of the same name) and the new user otherwise; for any
    other name its answer is what it was.  Whatever it returns is a
    stored user whose name matches, and it returns nothing only if no
    stored user's name matches. *)
Theorem createUser_then_lookup iu s name :
  wellFormed s = true ->
  let user := result (createUser iu) s in
  let s' := after (createUser iu) s in
  user = userRecord iu s
  /\ result (getUser (User.id user)) s = None
  /\ result (getUser (User.id user)) s' = Some user
  /\ (forall k, k <> User.id user ->
                result (getUser k) s' = result (getUser k) s)
  /\ (isAscii name = true ->
      isAscii (InsertUser.username iu) = true ->
      forallb (fun u => isAscii (User.username u)) (JsMap.values (users s))
      = true ->
      (sameIgnoringCase name (InsertUser.username iu) ->
       result (getUserByUsername name) s' =
       match result (getUserByUsername name) s with
       | Some earlier => Some earlier
       | None => Some user
       end)
      /\ (~ sameIgnoringCase name (InsertUser.username iu) ->
          result (getUserByUsername name) s' =
          result (getUserByUsername name) s)
      /\ (forall found,
             result (getUserByUsername name) s' = Some found ->
             In found (JsMap.values (users s'))
             /\ sameIgnoringCase (User.username found) name)
      /\ (result (getUserByUsername name) s' = None ->
          forall u, In u (JsMap.values (users s')) ->
                    ~ sameIgnoringCase (User.username u) name)).
Proof.
  intros Hwf user s'.
  assert (Hu : user = userRecord iu s) by reflexivity.
  assert (Hs : s' = snd (createUser iu s)) by reflexivity.
  rewrite createUser_eq in Hs. simpl in Hs.
  pose proof (userId_fresh s Hwf) as Hfresh.
  assert (Hvalues : JsMap.values (users s') =
                    JsMap.values (users s) ++ [user])
    by (rewrite Hs, Hu; simpl; now apply values_set_fresh).
  assert (Hfind : result (getUserByUsername name) s' =
                  match result (getUserByUsername name) s with
                  | Some earlier => Some earlier
                  | None =>
                      if String.eqb (toLowerCase (User.username user))
                                    (toLowerCase name)
                      then Some user else None
                  end).
  { unfold result, getUserByUsername, gets. cbn [fst].
    rewrite Hvalues.
    exact (find_snoc
             (fun u => String.eqb (toLowerCase (User.username u))
                                  (toLowerCase name))
             (JsMap.values (users s)) user). }
  split; [exact Hu|]. split; [rewrite Hu; exact Hfresh|].
  split; [rewrite Hs, Hu; unfold result, getUser, gets; simpl;
          apply get_set_same|].
  split.
  { intros k Hk. rewrite Hs. unfold result, getUser, gets. simpl.
    apply get_set_other. intros E. apply Hk. rewrite Hu. simpl.
    now symmetry. }
  intros _ _ _. split; [|split; [|split]].
  - intros Hsame. rewrite Hfind.
    destruct (result (getUserByUsername name) s); [reflexivity|].
    apply toLowerCase_same in Hsame. rewrite Hu. simpl.
    rewrite <- Hsame. now rewrite String.eqb_refl.
  - intros Hdiff. rewrite Hfind.
    destruct (result (getUserByUsername name) s); [reflexivity|].
    destruct (String.eqb_spec (toLowerCase (User.username user))
                (toLowerCase name)) as [E|_]; [|reflexivity].
    exfalso. apply Hdiff. apply toLowerCase_same. rewrite Hu in E.
    simpl in E. now symmetry.
  - intros found Hf. unfold result, getUserByUsername, gets in Hf.
    simpl in Hf. apply find_some in Hf as [Hin Heq].
    split; [exact Hin|]. apply toLowerCase_same. now apply String.eqb_eq in Heq.
  - intros Hnone u Hin Hsame.
    unfold result, getUserByUsername, gets in Hnone. simpl in Hnone.
    pose proof (find_none _ _ Hnone u Hin) as Hne. simpl in Hne.
    apply toLowerCase_same in Hsame. rewrite Hsame in Hne.
    now rewrite String.eqb_refl in Hne.
Qed.

Lemma createUser_then_lookup_witness :
  let iu :=
    {| InsertUser.username := "Maria";
       InsertUser.password := "secret";
       InsertUser.email := "maria@example.com" |} in
  result (getUser (User.id (result (createUser iu) (newMemStorage 0))))
         (after (createUser iu) (newMemStorage 0)) =
  Some (result (createUser iu) (newMemStorage 0))
  /\ result (getUserByUsername "MARIA")
            (after (createUser iu) (newMemStorage 0)) =
     Some (result (createUser iu) (newMemStorage 0)).
Proof.
  intros iu.
  destruct (createUser_then_lookup iu (newMemStorage 0) "MARIA" eq_refl)
    as (_ & _ & H & _ & Hname).
  split; [exact H|].
  destruct (Hname eq_refl eq_refl eq_refl) as [Hsame _].
  apply Hsame. unfold sameIgnoringCase. simpl.
  constructor; [now left|].
  repeat (constructor; [right; left; split; reflexivity|]).
  constructor.
Defined.

(** ** What the handlers never reach *)

Lemma open_status_kept u e st :
  isEarly st \/ st = official_acknowledgment ->
  isEarly (determineProgressStatus u e st)
  \/ determineProgressStatus u e st = official_acknowledgment.
Proof.
  intros [H | ->]; [|right; reflexivity].
  left. now apply (determineProgressStatus_early u e st).
Qed.

Lemma reachable_open start s :
  reachable start s ->
  forall k p,
    JsMap.get k (projects s) = Some p ->
    isEarly (Project.progressStatus p)
    \/ Project.progressStatus p = official_acknowledgment.
Proof.
  induction 1 as [|s now op Hs IH Hg]; intros k p'.
  - rewrite newMemStorage_projects. cbn [JsMap.get]. unfold isEarly.
    destruct (1 =? k); [intros [= <-]; simpl; auto|].
    destruct (2 =? k); [intros [= <-]; simpl; auto|].
    destruct (3 =? k); [intros [= <-]; simpl; auto|].
    discriminate.
  - intros Hget. destruct (reachable_invariant start s Hs) as (Hwf & _).
    destruct (exec_project_origin now op s k p' Hwf Hg Hget)
      as [(ip & ->) | (p & Hp & [-> | [-> | ->]])].
    + left. left. reflexivity.
    + exact (IH k p Hp).
    + simpl. apply open_status_kept. exact (IH k p Hp).
    + simpl. apply open_status_kept. exact (IH k p Hp).
Qed.

Lemma successRateOf_zero total : successRateOf 0 total = 0.
Proof.
  unfold successRateOf, number_div, number_mul.
  change (number 0) with (S754_zero false).
  destruct (number total) as [sg | sg | | sg m e]; reflexivity.
Qed.

Lemma In_get {V} (m : JsMap.t V) k v :
  NoDup (map fst m) -> In (k, v) m -> JsMap.get k m = Some v.
Proof.
  induction m as [|[j w] m IH]; simpl; [intros _ []|].
  intros Hnd [Hin|Hin].
  - injection Hin as -> ->. now rewrite Z.eqb_refl.
  - inversion Hnd as [|? ? Hnot Hrest]; subst.
    destruct (Z.eqb_spec j k) as [->|_]; [|now apply IH].
    exfalso. apply Hnot. apply in_map_iff. now exists (k, v).
Qed.

(** X19: the request handlers never complete a project: in every store
    they reach from the constructed one, each project's status is one of
    the three early ones or [official_acknowledgment], so
    [getCommunityStats] reports every project as active, none as
    resolved, and a success rate of 0. *)
Theorem handlers_never_complete start s simulate requests :
  reachable start s ->
  let s' := serve simulate requests s in
  let stats := result getCommunityStats s' in
  (forall k p,
      JsMap.get k (projects s') = Some p ->
      isEarly (Project.progressStatus p)
      \/ Project.progressStatus p = official_acknowledgment)
  /\ CommunityStats.issuesResolved stats = 0
  /\ CommunityStats.activeIssues stats = Z.of_nat (List.length (projects s'))
  /\ CommunityStats.successRate stats = 0.
Proof.
  intros Hs s' stats.
  assert (Hs' : reachable start s') by now apply serve_reachable.
  pose proof (reachable_open start s' Hs') as Hopen.
  destruct (reachable_ids start s' Hs') as (_ & _ & Hnd & _).
  assert (Hnone : filter isCompleted (JsMap.values (projects s')) = []).
  { assert (H : forall p, In p (JsMap.values (projects s')) ->
                          isCompleted p = false).
    { intros p Hin. unfold JsMap.values in Hin.
      apply in_map_iff in Hin as ([k q] & E & Hin). simpl in E. subst q.
      pose proof (In_get _ _ _ Hnd Hin) as Hget.
      unfold isCompleted.
      destruct (Hopen k p Hget) as [[-> | [-> | ->]] | ->]; reflexivity. }
    induction (JsMap.values (projects s')) as [|p l IH]; [reflexivity|].
    simpl. rewrite (H p (or_introl eq_refl)). apply IH.
    intros q Hq. apply H. now right. }
  pose proof (filter_split_length isCompleted (JsMap.values (projects s')))
    as Hsplit.
  rewrite Hnone in Hsplit. simpl in Hsplit.
  split; [exact Hopen|].
  subst stats. unfold result, getCommunityStats, gets. simpl.
  rewrite Hnone. simpl.
  split; [reflexivity|]. split.
  - rewrite Hsplit. now rewrite values_length.
  - destruct (Z.of_nat (List.length (JsMap.values (projects s'))) >? 0);
      [|reflexivity].
    apply successRateOf_zero.
Qed.

Lemma handlers_never_complete_witness :
  CommunityStats.successRate
    (result getCommunityStats
       (serve true [(10, PostUpvote (Some 1) (Some "1.2.3.4") None)]
          (newMemStorage 0))) = 0.
Proof.
  refine (proj2 (proj2 (proj2
            (handlers_never_complete 0 (newMemStorage 0) true
               [(10, PostUpvote (Some 1) (Some "1.2.3.4") None)] _)))).
  apply reachable_new.
Defined.

(** ** Store order is creation order *)

Lemma StronglySorted_snoc {A} (R : A -> A -> Prop) (l : list A) (y : A) :
  StronglySorted R l -> (forall x, In x l -> R x y) ->
  StronglySorted R (l ++ [y]).
Proof.
  induction l as [|x l IH]; simpl; intros Hl Hy.
  - constructor; constructor.
  - inversion Hl as [|? ? Hrest Hx]; subst. constructor.
    + apply IH; [exact Hrest | intros z Hz; apply Hy; now right].
    + apply Forall_app. split; [exact Hx|].
      constructor; [apply Hy; now left | constructor].
Qed.

Lemma StronglySorted_filter {A} (R : A -> A -> Prop) (f : A -> bool) l :
  StronglySorted R l -> StronglySorted R (filter f l).
Proof.
  induction 1 as [|x l Hl IH Hx]; simpl; [constructor|].
  destruct (f x); [|exact IH]. constructor; [exact IH|].
  rewrite Forall_forall in *. intros y Hy. apply filter_In in Hy as [Hy _].
  now apply Hx.
Qed.

Lemma StronglySorted_map_inv {A} (f : A -> Z) (l : list A) :
  StronglySorted Z.lt (map f l) ->
  StronglySorted (fun a b => f a < f b) l.
Proof.
  induction l as [|x l IH]; simpl; intros H; [constructor|].
  inversion H as [|? ? Hrest Hx]; subst. constructor; [now apply IH|].
  rewrite Forall_forall in *. intros y Hy. apply Hx. now apply in_map.
Qed.

Lemma reachable_projects_ascending start s :
  reachable start s -> StronglySorted Z.lt (map fst (projects s)).
Proof.
  induction 1 as [|s now op Hs IH Hg].
  - rewrite newMemStorage_projects. simpl.
    repeat (constructor; [|repeat constructor; lia]). constructor.
  - destruct (reachable_invariant start s Hs) as (Hwf & _).
    destruct (exec_projects_shape now op s Hwf Hg)
      as [-> | [(ip & ->) | (j & p0 & Hj & [-> | ->])]].
    + exact IH.
    + rewrite (set_fresh _ _ _ (projectId_fresh s Hwf)), map_app. simpl.
      apply StronglySorted_snoc; [exact IH|].
      intros k Hk. apply wellFormed_iff in Hwf.
      destruct Hwf as (_ & Hbelow & _). unfold JsMap.keys_below in Hbelow.
      apply in_map_iff in Hk as (kv & <- & Hin).
      apply Z.ltb_lt. exact (forallb_In _ _ _ Hbelow Hin).
    + now rewrite (keys_set_present _ _ _ _ Hj).
    + now rewrite (keys_set_present _ _ _ _ Hj).
Qed.

Lemma project_ids_are_keys s :
  recordIds s = true ->
  map Project.id (JsMap.values (projects s)) = map fst (projects s).
Proof.
  intros H. apply recordIds_iff in H. destruct H as (_ & Hp & _).
  unfold JsMap.values. rewrite map_map. apply map_ext_in.
  intros kv Hin. pose proof (forallb_In _ _ _ Hp Hin) as E.
  apply Z.eqb_eq in E. now symmetry.
Qed.

(** X20: in every store that the request handlers reach from the
    constructed one, the projects are held in ascending order of their
    identifiers; hence in the results of [getAllProjects] and
    [searchProjects] the projects that have the same number of upvotes
    come in ascending order of identifier. *)
Theorem ties_are_listed_oldest_first start s simulate requests n query :
  reachable start s ->
  let s' := serve simulate requests s in
  let byId := fun a b => Project.id a < Project.id b in
  let tied := filter (fun p => Project.upvotes p =? n) in
  StronglySorted byId (JsMap.values (projects s'))
  /\ StronglySorted byId (tied (result getAllProjects s'))
  /\ StronglySorted byId (tied (result (searchProjects query) s')).
Proof.
  intros Hs s' byId tied.
  assert (Hs' : reachable start s') by now apply serve_reachable.
  destruct (reachable_ids start s' Hs') as (Hids & _).
  assert (Hstore : StronglySorted byId (JsMap.values (projects s'))).
  { apply StronglySorted_map_inv. rewrite (project_ids_are_keys s' Hids).
    now apply (reachable_projects_ascending start). }
  destruct (listings_keep_ties_in_store_order_aux s' n) as [Hall Hsearch].
  split; [exact Hstore|]. split.
  - subst tied. rewrite Hall. now apply StronglySorted_filter.
  - subst tied. rewrite (Hsearch query).
    now apply StronglySorted_filter, StronglySorted_filter.
Qed.

Lemma ties_are_listed_oldest_first_witness :
  StronglySorted (fun a b => Project.id a < Project.id b)
    (JsMap.values (projects (serve true [] (newMemStorage 0)))).
Proof.
  refine (proj1 (ties_are_listed_oldest_first 0 (newMemStorage 0) true []
                   0 "oak" _)).
  apply reachable_new.
Defined.

(** ** Comments *)

Lemma filter_snoc {A} (f : A -> bool) (l : list A) (x : A) :
  filter f (l ++ [x]) = filter f l ++ (if f x then [x] else []).
Proof. rewrite filter_app. simpl. now destruct (f x). Qed.

(** X21: in a well-formed store [createComment] returns the comment it
    stored under the next identifier, last in the collection.  The
    listing [getCommentsByProject] of the comment's project then holds
    the new comment and, besides it, exactly what it held before; the
    listing of every other project is what it was; and no project,
    upvote or email has changed.  This is so whether or not the project
    exists. *)
Theorem createComment_then_list now ins s :
  wellFormed s = true ->
  let comment := result (createComment now ins) s in
  let s' := after (createComment now ins) s in
  comment = commentRecord now ins s
  /\ JsMap.values (comments s') = JsMap.values (comments s) ++ [comment]
  /\ (forall c,
         In c (result (getCommentsByProject (InsertComment.projectId ins)) s')
         <-> c = comment
             \/ In c (result (getCommentsByProject
                                (InsertComment.projectId ins)) s))
  /\ (forall k, k <> InsertComment.projectId ins ->
                result (getCommentsByProject k) s' =
                result (getCommentsByProject k) s)
  /\ projects s' = projects s /\ upvotes s' = upvotes s
  /\ emails s' = emails s.
Proof.
  intros Hwf comment s'.
  assert (Hc : comment = commentRecord now ins s) by reflexivity.
  assert (Hs : s' = snd (createComment now ins s)) by reflexivity.
  rewrite createComment_eq in Hs. simpl in Hs.
  assert (Hvalues : JsMap.values (comments s') =
                    JsMap.values (comments s) ++ [comment]).
  { rewrite Hs, Hc. simpl. apply values_set_fresh.
    now apply commentId_fresh. }
  split; [exact Hc|]. split; [exact Hvalues|]. split; [|split].
  - intros c. unfold result, getCommentsByProject, gets. cbn [fst].
    rewrite !sort_In, Hvalues, filter_snoc.
    assert (E : (Comment.projectId comment =? InsertComment.projectId ins)
                = true) by (rewrite Hc; simpl; apply Z.eqb_refl).
    rewrite E, in_app_iff. simpl. intuition congruence.
  - intros k Hk. unfold result, getCommentsByProject, gets. cbn [fst].
    rewrite Hvalues, filter_snoc.
    assert (E : (Comment.projectId comment =? k) = false).
    { rewrite Hc. simpl. apply Z.eqb_neq. congruence. }
    rewrite E. now rewrite app_nil_r.
  - rewrite Hs. simpl. repeat split.
Qed.

Lemma createComment_then_list_witness :
  let ins :=
    {| InsertComment.projectId := 1;
       InsertComment.text := "Seen it too.";
       InsertComment.commenterName := "Lee" |} in
  result (createComment 10 ins) (newMemStorage 0) =
  commentRecord 10 ins (newMemStorage 0).
Proof.
  intros ins.
  refine (proj1 (createComment_then_list 10 ins (newMemStorage 0) _)).
  reflexivity.
Defined.
